(** * strato-db: the event-sourcing engine (EventSourcingDB) and DB.addModel

    A shallow embedding of [src/EventSourcingDB/EventSourcingDB.js] and of
    [src/DB/DB.js] (addModel), followed by the properties of the engine's
    event pipeline, polling loop, waiter set and model registry.

    JavaScript objects are embedded by value.  The places where the source
    relies on object identity (a preprocessor mutating its argument versus
    returning another object; the [events] array shared between an event and
    its spread copy) are tracked explicitly, see [_preprocessor] and
    [_reducer].  Asynchronous calls are sequentialised in the order in which
    the source starts them; where the source goes on in the order in which
    the answers arrive (the callbacks of [_reducer]), that order is a
    parameter of the engine.  A string holds UTF-16 code units below 256
    (Latin-1 text), one per character. *)

From Stdlib Require Import ZArith String Ascii DecimalString.
From stdpp Require Import gmap strings list fin_maps sorting.

Local Open Scope Z_scope.
Local Open Scope string_scope.
Local Open Scope list_scope.

(** ** JavaScript values *)

(** Opaque JSON payloads ([data], the body of a reducer's change object). *)
Definition Json := string.

(** Truthiness of a string: the empty string stands for a falsy (or absent)
    string-valued property. *)
Definition truthy (s : string) : bool :=
  match s with
  | EmptyString => false
  | String _ _ => true
  end.

(** [a || b] on strings. *)
Definition js_or (a b : string) : string := if truthy a then a else b.

(** Template literals [`${n}`] for integers. *)
Definition string_of_Z (n : Z) : string := NilZero.string_of_int (Z.to_int n).
Definition string_of_nat (n : nat) : string := NilZero.string_of_uint (Nat.to_uint n).

(** A truthy value that was thrown (or handed to [errorToString]): its
    [.stack], its [.message] (empty when absent) and [String(value)]. *)
Record Thrown := mkThrown {
  stack : string;
  message : string;
  toStr : string
}.

(** What a [catch] clause receives: [None] is a falsy thrown value. *)
Definition Exn := option Thrown.

(** [new Error(msg)]; the stack frames of the running engine are left out of
    [.stack]. *)
Definition new_Error (msg : string) : Thrown :=
  {| stack := "Error: " +:+ msg; message := msg; toStr := "Error: " +:+ msg |}.

Definition new_TypeError (msg : string) : Thrown :=
  {| stack := "TypeError: " +:+ msg; message := msg;
     toStr := "TypeError: " +:+ msg |}.

(** [\s] on code units below 256: tab, line feed, vertical tab, form feed
    and carriage return (9 to 13), the space (32) and the no-break space
    (160).  The other characters of [\s] (U+1680, U+2000 to U+200A, U+2028,
    U+2029, U+202F, U+205F, U+3000, U+FEFF) lie above 255. *)
Definition is_space (c : ascii) : bool :=
  let n := nat_of_ascii c in
  (Nat.eqb n 32 || (Nat.leb 9 n && Nat.leb n 13) || Nat.eqb n 160)%bool.

(** [s.replace(/\s+/g, ' ')]: [in_run] tells that the previous character
    belonged to a run of white space that was already replaced. *)
Fixpoint collapse_spaces (in_run : bool) (s : string) : string :=
  match s with
  | EmptyString => EmptyString
  | String c rest =>
      if is_space c
      then if in_run then collapse_spaces true rest
           else String " "%char (collapse_spaces true rest)
      else String c (collapse_spaces false rest)
  end.

(** [errorToString] (EventSourcingDB.js, lines 81-86). *)
Definition errorToString (error : Exn) : string :=
  let msg :=
    match error with
    | Some e => js_or (stack e) (js_or (message e) (toStr e))
    | None => stack (new_Error "missing error")
    end in
  collapse_spaces false msg.

(** ** Events *)

(** What a reducer leaves in [result[name]]: the change object without its
    [events] key.  [r_error] is its [error] property (empty when absent). *)
Record ReducerResult := mkReducerResult {
  r_error : string;
  r_changes : Json
}.

(** [event.result]: a JavaScript object, kept in insertion order because
    [Object.entries(result)] drives the order of the [applyChanges] calls. *)
Definition Result := list (string * ReducerResult).

(** [event.error]: phase-tagged key to stringified error. *)
Abbreviation ErrorMap := (gmap string string).

(** An event record.  [v] is absent on stored sub-events; [type] is the
    empty string when missing or falsy. *)
#[warnings="-register-all"]
Inductive Event : Type := mkEvent {
  v : option Z;
  type : string;
  ts : option Z;
  data : Json;
  result : option Result;
  error : option ErrorMap;
  failedResult : option Result;
  events : option (list Event)
}.

(** Field updates, i.e. [{...event, field: x}] and [event.field = x]. *)
Definition set_v (x : option Z) (e : Event) : Event :=
  mkEvent x (type e) (ts e) (data e) (result e) (error e) (failedResult e) (events e).
Definition set_type (x : string) (e : Event) : Event :=
  mkEvent (v e) x (ts e) (data e) (result e) (error e) (failedResult e) (events e).
Definition set_result (x : option Result) (e : Event) : Event :=
  mkEvent (v e) (type e) (ts e) (data e) x (error e) (failedResult e) (events e).
Definition set_error (x : option ErrorMap) (e : Event) : Event :=
  mkEvent (v e) (type e) (ts e) (data e) (result e) x (failedResult e) (events e).
Definition set_failedResult (x : option Result) (e : Event) : Event :=
  mkEvent (v e) (type e) (ts e) (data e) (result e) (error e) x (events e).
Definition set_events (x : option (list Event)) (e : Event) : Event :=
  mkEvent (v e) (type e) (ts e) (data e) (result e) (error e) (failedResult e) x.

(** [if (e.result) { e.failedResult = e.result; delete e.result }] *)
Definition move_result_to_failedResult (e : Event) : Event :=
  match result e with
  | Some r => set_result None (set_failedResult (Some r) e)
  | None => e
  end.

(** The object literal [{type, data}] pushed by [_subDispatch]. *)
Definition sub_event (t : string) (d : Json) : Event :=
  mkEvent None t None d None None None None.

(** [_subDispatch(event, type, data)] (lines 351-354). *)
Definition _subDispatch (event : Event) (t : string) (d : Json) : Event :=
  let evs := match events event with Some l => l | None => [] end in
  set_events (Some (evs ++ [sub_event t d])) event.

(** [errorToString] applied to an error map: a plain object has
    [String(o) = "[object Object]"], and [.stack] / [.message] only when it
    has such keys. *)
Definition thrown_of_map (m : ErrorMap) : Thrown :=
  {| stack := default "" (m !! "stack");
     message := default "" (m !! "message");
     toStr := "[object Object]" |}.

(** Presence of [event.error] (an object, hence truthy). *)
Definition has_error (e : Event) : bool :=
  match error e with Some _ => true | None => false end.

(** [o[key] = x] on an insertion-ordered object. *)
Fixpoint alist_set {A} (key : string) (x : A) (o : list (string * A)) : list (string * A) :=
  match o with
  | [] => [(key, x)]
  | (k, y) :: rest =>
      if String.eqb k key then (k, x) :: rest else (k, y) :: alist_set key x rest
  end.

(** [o[key]] *)
Fixpoint alist_get {A} (key : string) (o : list (string * A)) : option A :=
  match o with
  | [] => None
  | (k, y) :: rest => if String.eqb k key then Some y else alist_get key rest
  end.

(** ** Models and the store *)

(** The tables of the database file: table name to row id to document. *)
Abbreviation Tables := (gmap string (gmap string Json)).

(** What a call of [model.preprocessor] does besides mutating its argument:
    it throws, or it returns a falsy value ([PReturns None]) or another event
    object ([PReturns (Some e)]).  Returning an object of the shape
    [{error: x}] is [PThrows x]: the catch clause builds that very object.
    Preprocessors return objects, [null] or [undefined]; a truthy primitive
    (on which the assignment of line 560 throws) is not modelled. *)
Inductive PreOut :=
| PThrows (e : Exn)
| PReturns (ret : option Event).

(** The [events] key of the object a reducer returns. *)
Inductive OutEvents :=
| EventsAbsent
| EventsFalsy
| EventsArray (l : list Event)
| EventsNotArray.

(** What a call of [model.reducer] yields.  Reducers return objects, [null]
    or [undefined]; a truthy primitive (on which ['events' in out] throws)
    is not modelled. *)
Inductive ReducerOut :=
| RThrows (e : Exn)
| RFalsy
| RModel
| RObject (out : ReducerResult) (evs : OutEvents).

(** A registered model: the user functions the engine calls.
    - [preprocessor] sees the tables and the event; it returns the content of
      its argument after the call (mutation and sub-dispatch included) and
      its outcome;
    - [reducer] sees the tables and the event;
    - [applyChanges] and [deriver] write the tables; a deriver also returns
      the [(type, data)] pairs it sub-dispatched. *)
Record Model := mkModel {
  name : string;
  preprocessor : option (Tables -> Event -> Event * PreOut);
  reducer : option (Tables -> Event -> ReducerOut);
  applyChanges : option (ReducerResult -> Tables -> Tables * option Exn);
  deriver : option (Tables -> Event -> Tables * list (string * Json) * option Exn)
}.

(** The statements the engine sends through [rwDb.run].  The last one is
    the text of line 693 for an event without [v]:
    [PRAGMA user_version=undefined]. *)
Inductive Sql :=
| SAVEPOINT (x : string)
| RELEASE_SAVEPOINT (x : string)
| ROLLBACK_TO_SAVEPOINT (x : string)
| PRAGMA_user_version (n : Z)
| PRAGMA_user_version_undefined.

Inductive Handle := H_db | H_rwDb | H_queue_db.

(** Calls that leave the engine, in the order they are made. *)
Inductive Effect :=
| FxSetWritable (model : string) (flag : bool)
| FxPreprocessor (model : string) (event : Event)
| FxReducer (model : string) (event : Event)
| FxApplyChanges (model : string) (r : ReducerResult)
| FxDeriver (model : string) (event : Event)
| FxRun (stmt : Sql)
| FxGetVersion
| FxGetNext (afterV : Z) (noBlock : bool)
| FxWithTransaction
| FxQueueSet (event : Event)
| FxQueueGet (n : Z)
| FxClose (h : Handle)
| FxWait (ms : Z)
| FxEmit (eventName : string) (event : Event).

(** The read-write database as the pipeline sees it. *)
Record Store := mkStore {
  tables : Tables;
  user_version : Z;
  savepoints : list (string * (Tables * Z));
  log : list Effect
}.

Definition add_log (fx : Effect) (s : Store) : Store :=
  mkStore (tables s) (user_version s) (savepoints s) (log s ++ [fx]).
Definition set_tables (t : Tables) (s : Store) : Store :=
  mkStore t (user_version s) (savepoints s) (log s).

(** Drops the savepoints opened after the latest one named [x]; the list has
    the latest savepoint first. *)
Fixpoint find_savepoint (x : string) (sp : list (string * (Tables * Z)))
  : option ((Tables * Z) * list (string * (Tables * Z))) :=
  match sp with
  | [] => None
  | (y, snap) :: rest =>
      if String.eqb y x then Some (snap, rest) else find_savepoint x rest
  end.

(** Modelled from the spec: the SQL wrapper ([rwDb.run]) is not part of the
    sources.  Section 6 gives named, nestable savepoints and the persistent
    integer [user_version]; the statements take SQLite's meaning.  A
    statement naming a savepoint that does not exist changes nothing (the
    engine only names the savepoint it has just opened).  SQLite accepts
    [PRAGMA user_version=undefined]: a value that is no number is read as
    0. *)
Definition run (stmt : Sql) (s : Store) : Store :=
  let s := add_log (FxRun stmt) s in
  match stmt with
  | SAVEPOINT x =>
      mkStore (tables s) (user_version s)
              ((x, (tables s, user_version s)) :: savepoints s) (log s)
  | RELEASE_SAVEPOINT x =>
      match find_savepoint x (savepoints s) with
      | Some (_, rest) => mkStore (tables s) (user_version s) rest (log s)
      | None => s
      end
  | ROLLBACK_TO_SAVEPOINT x =>
      match find_savepoint x (savepoints s) with
      | Some ((t, n), rest) => mkStore t n ((x, (t, n)) :: rest) (log s)
      | None => s
      end
  | PRAGMA_user_version n =>
      mkStore (tables s) n (savepoints s) (log s)
  | PRAGMA_user_version_undefined =>
      mkStore (tables s) 0 (savepoints s) (log s)
  end.

(** The engine after construction (the fields the pipeline and the loop
    read).  [store_fault n] is the exception, if any, with which the store
    answers the call made when [n] calls have been logged; it is consulted
    where the source has a handler for a failing store call.
    [settled_at n key] is the moment at which the reducer [key] has
    answered, in the reduce phase that starts when [n] calls have been
    logged: the callbacks of [_reducer] go on in the order of these
    moments. *)
Record ESDB := mkESDB {
  rwDb_file : string;
  queue_db_file : string;
  preprocModels : list Model;
  reducerNames : list string;
  reducerModels : gmap string Model;
  deriverModels : list Model;
  readWriters : list Model;
  rwStore : gmap string Model;
  store_fault : nat -> option Exn;
  settled_at : nat -> string -> nat
}.

(** [MAX_RETRY = 38] (line 89). *)
Definition MAX_RETRY : Z := 38.

(** ** The event pipeline *)

(** The checks of [_preprocessor] on [newEvent] (lines 557-563), given its
    [error], [v] and [type] properties: the value left in [newEvent.error]. *)
Definition preprocessor_check (v0 : option Z) (nerror : Exn) (nv : option Z)
    (ntype : string) : Exn :=
  match nerror with
  | Some t => Some t
  | None =>
      if negb (bool_decide (nv = v0))
      then Some (new_Error "preprocessor must retain event version")
      else if negb (truthy ntype)
      then Some (new_Error "preprocessor must retain event type")
      else None
  end.

(** The loop of [_preprocessor] (lines 539-576).  [orig] is the content of
    the object the pipeline was called with; [cur] is [None] as long as the
    loop variable [event] is still that object, and the content of the object
    it was replaced with afterwards.  The loop yields the event it returns
    and the content of the original object at that point. *)
Fixpoint preprocessor_loop (models : list Model) (orig : Event)
    (cur : option Event) (s : Store) : Event * Event * Store :=
  match models with
  | [] => (default orig cur, orig, s)
  | model :: rest =>
      let event := default orig cur in
      let v0 := v event in
      let type0 := type event in
      let s1 := add_log (FxPreprocessor (name model) event) s in
      let '(event', out) :=
        match preprocessor model with
        | Some f => f (tables s) event
        | None =>
            (event, PThrows (Some (new_TypeError "model.preprocessor is not a function")))
        end in
      let orig' := match cur with None => event' | Some _ => orig end in
      let cur' := match cur with None => None | Some _ => Some event' end in
      let newEvent_error :=
        match out with
        | PThrows e => preprocessor_check v0 e None ""
        | PReturns None =>
            preprocessor_check v0 (thrown_of_map <$> error event') (v event') (type event')
        | PReturns (Some n) =>
            preprocessor_check v0 (thrown_of_map <$> error n) (v n) (type n)
        end in
      match newEvent_error with
      | Some t =>
          (set_error
             (Some {[ "_preprocess_" +:+ name model := errorToString (Some t) ]})
             (set_type type0 (set_v v0 event')),
           orig', s1)
      | None =>
          match out with
          | PReturns (Some n) => preprocessor_loop rest orig' (Some n) s1
          | _ => preprocessor_loop rest orig' cur' s1
          end
      end
  end.

(** [_preprocessor(event)] (lines 538-578), with the final content of its
    argument as second component. *)
Definition _preprocessor (db : ESDB) (event : Event) (s : Store)
  : Event * Event * Store :=
  preprocessor_loop (preprocModels db) event None s.

(** What the call of line 588 yields for the reducer registered under
    [key]: what the reducer returns, or what is thrown. *)
Definition reducer_out (db : ESDB) (t : Tables) (event : Event) (key : string)
  : ReducerOut :=
  match reducerModels db !! key with
  | Some model =>
      match reducer model with
      | Some f => f t event
      | None => RThrows (Some (new_TypeError "model.reducer is not a function"))
      end
  | None => RThrows (Some (new_TypeError "Cannot read property 'reducer' of undefined"))
  end.

(** The calls of line 588: [reducerNames.map] starts the callbacks of
    [Promise.all] one after the other, and each calls its reducer at
    once. *)
Definition reducer_calls (db : ESDB) (event : Event) (s : Store) : Store :=
  fold_left (fun s key => add_log (FxReducer key event) s) (reducerNames db) s.

(** A callback of [_reducer]'s [Promise.all] once its reducer has answered
    (lines 594-607): the accumulated [result] object and the events pushed
    so far. *)
Definition reducer_step (acc : Result * list Event) (answer : string * ReducerOut)
  : Result * list Event :=
  let '(res, pushed) := acc in
  let '(key, out) := answer in
  match out with
  | RThrows e => (alist_set key (mkReducerResult (errorToString e) "{}") res, pushed)
  | RFalsy | RModel => (res, pushed)
  | RObject o EventsNotArray =>
      (alist_set key (mkReducerResult ".events is not an array" "{}") res, pushed)
  | RObject o (EventsArray l) => (alist_set key o res, pushed ++ l)
  | RObject o _ => (alist_set key o res, pushed)
  end.

(** The order in which the callbacks go on: by the moment [rank] of their
    answer, and in the order of the calls for answers of the same
    moment. *)
Fixpoint insert_by_rank (rank : string -> nat) (a : string * ReducerOut)
    (l : list (string * ReducerOut)) : list (string * ReducerOut) :=
  match l with
  | [] => [a]
  | b :: rest =>
      if Nat.leb (rank (fst a)) (rank (fst b)) then a :: b :: rest
      else b :: insert_by_rank rank a rest
  end.

Definition settle_order (rank : string -> nat) (answers : list (string * ReducerOut))
  : list (string * ReducerOut) :=
  foldr (insert_by_rank rank) [] answers.

(** [result[n] && result[n].error] *)
Definition reducer_failed (res : Result) (n : string) : bool :=
  match alist_get n res with
  | Some r => truthy (r_error r)
  | None => false
  end.

(** The error object built at lines 612-618. *)
Definition reduce_errors (names : list string) (res : Result) : ErrorMap :=
  fold_left
    (fun (m : ErrorMap) n =>
       match alist_get n res with
       | Some r =>
           if truthy (r_error r) then <[ "reduce_" +:+ n := r_error r ]> m else m
       | None => m
       end)
    names ∅.

(** [_reducer(event)] (lines 580-628).  Every reducer is called with the
    event as it was passed in, in the order of [reducerNames]; the callbacks
    then fill [result] and push the sub-events in the order in which the
    answers arrive.  [events] is the array of the argument when it has one,
    so that the pushes show in every copy of the event, and a fresh array
    otherwise. *)
Definition _reducer (db : ESDB) (event : Event) (s : Store) : Event * Store :=
  let answers :=
    map (fun key => (key, reducer_out db (tables s) event key)) (reducerNames db) in
  let s1 := reducer_calls db event s in
  let '(res, pushed) :=
    fold_left reducer_step (settle_order (settled_at db (length (log s))) answers)
              ([], []) in
  let shared := (fun l => l ++ pushed) <$> events event in
  if existsb (reducer_failed res) (reducerNames db)
  then (set_error (Some (reduce_errors (reducerNames db) res))
                  (set_events shared event), s1)
  else
    let all := default [] (events event) ++ pushed in
    (set_events (match all with [] => shared | _ :: _ => Some all end)
                (set_result (Some res) event), s1).

(** Modelled from the spec: [lib/settleAll] is not part of the sources.
    Section 4.4: "settle-all: all must complete; first error is recorded but
    peers continue"; section 7: "peers complete before the first error is
    raised".  [fn] is run on every item in order, threading the state. *)
Fixpoint settleAll {A S : Type} (items : list A) (fn : A -> S -> S * option Exn)
    (s : S) : S * option Exn :=
  match items with
  | [] => (s, None)
  | i :: rest =>
      let '(s1, x1) := fn i s in
      let '(s2, x2) := settleAll rest fn s1 in
      (s2, match x1 with Some e => Some e | None => x2 end)
  end.

(** [for (const model of readWriters) model.setWritable(flag)] *)
Definition setWritable_all (db : ESDB) (flag : bool) (s : Store) : Store :=
  fold_left (fun s m => add_log (FxSetWritable (name m) flag) s) (readWriters db) s.

(** [async ([name, r]) => r && rwStore[name].applyChanges(r)] (line 687) *)
Definition apply_entry (db : ESDB) (entry : string * ReducerResult) (s : Store)
  : Store * option Exn :=
  let '(nm, r) := entry in
  match rwStore db !! nm with
  | Some model =>
      match applyChanges model with
      | Some f =>
          let '(t, x) := f r (tables s) in
          (set_tables t (add_log (FxApplyChanges nm r) s), x)
      | None => (s, Some (Some (new_TypeError "rwStore[name].applyChanges is not a function")))
      end
  | None => (s, Some (Some (new_TypeError "Cannot read property 'applyChanges' of undefined")))
  end.

(** [async model => model.deriver({model, store, event, result, dispatch})]
    (lines 699-707); [dispatch] is [_subDispatch] bound to the event. *)
Definition derive_model (model : Model) (st : Event * Store)
  : (Event * Store) * option Exn :=
  let '(event, s) := st in
  match deriver model with
  | Some f =>
      let '(t, dispatched, x) := f (tables s) event in
      (fold_left (fun e td => _subDispatch e (fst td) (snd td)) dispatched event,
       set_tables t (add_log (FxDeriver (name model) event) s), x)
  | None => (st, Some (Some (new_TypeError "model.deriver is not a function")))
  end.

(** The text of the statement of line 693,
    [`PRAGMA user_version=${event.v}`]. *)
Definition version_statement (event : Event) : Sql :=
  match v event with
  | Some n => PRAGMA_user_version n
  | None => PRAGMA_user_version_undefined
  end.

(** The statement of line 693.  A store fault makes the statement fail. *)
Definition write_version (db : ESDB) (event : Event) (s : Store)
  : Store * option Exn :=
  match store_fault db (length (log s)) with
  | Some e => (add_log (FxRun (version_statement event)) s, Some e)
  | None => (run (version_statement event) s, None)
  end.

(** The [try] block of [_applyEvent] (lines 679-709): the phase reached, the
    exception that left the block if any, the event and the store. *)
Definition applyEvent_try (db : ESDB) (event : Event) (updateVersion : bool)
    (s : Store) : string * option Exn * Event * Store :=
  let s0 := setWritable_all db true s in
  let '(phase1, (s1, x1)) :=
    match result event with
    | Some (entry :: entries) =>
        ("apply", settleAll (entry :: entries) (apply_entry db) s0)
    | _ => ("???", (s0, None))
    end in
  match x1 with
  | Some e => (phase1, Some e, event, s1)
  | None =>
      let '(phase2, (s2, x2)) :=
        if updateVersion then ("version", write_version db event s1)
        else (phase1, (s1, None)) in
      match x2 with
      | Some e => (phase2, Some e, event, s2)
      | None =>
          if negb (has_error event) && negb (bool_decide (deriverModels db = []))
          then
            let '(event3, s3, x3) :=
              settleAll (deriverModels db) derive_model (event, s2) in
            ("derive", x3, event3, s3)
          else (phase2, None, event, s2)
      end
  end.

(** [_applyEvent(event, updateVersion)] (lines 675-723): the [try] block,
    the [catch] clause (lines 710-717) and the [finally] clause. *)
Definition _applyEvent (db : ESDB) (event : Event) (updateVersion : bool)
    (s : Store) : Event * Store :=
  let '(phase, x, event1, s1) := applyEvent_try db event updateVersion s in
  let event2 :=
    match x with
    | Some e =>
        let moved := move_result_to_failedResult event1 in
        set_error
          (Some (<[ "_apply-" +:+ phase := errorToString e ]> (default ∅ (error moved))))
          moved
    | None => event1
    end in
  (event2, setWritable_all db false s1).

(** The recursion guard's return value (lines 633-639). *)
Definition too_deep (origEvent : Event) : Event :=
  set_error
    (Some (<[ "_handle" := "events recursing too deep" ]> (default ∅ (error origEvent))))
    origEvent.

(** The loop over [event.events] (lines 652-669), from index [i] on, for at
    most [n] rounds; [handle] is [_handleEvent] at [depth + 1]. *)
Fixpoint subevents_loop (handle : Event -> Store -> Event * Store) (n i : nat)
    (event : Event) (s : Store) : Event * Store :=
  match n with
  | O => (event, s)
  | S n' =>
      let evs := default [] (events event) in
      match evs !! i with
      | None => (event, s)
      | Some subEvent =>
          let '(doneEvent, s1) := handle (set_v (v event) subEvent) s in
          let doneEvent := set_v None doneEvent in
          if has_error doneEvent
          then
            (set_error
               (Some {[ "_handle" := "subevent " +:+ string_of_nat i +:+ " failed" ]})
               (set_events
                  (Some (<[ i := move_result_to_failedResult doneEvent ]> evs)) event),
             s1)
          else
            subevents_loop handle n' (S i)
              (set_events (Some (<[ i := doneEvent ]> evs)) event) s1
      end
  end.

(** The body of [_handleEvent] below the recursion guard (lines 641-672);
    [handle] is [_handleEvent] at [depth + 1]. *)
Definition handleEvent_body (handle : Event -> Store -> Event * Store)
    (db : ESDB) (origEvent : Event) (depth : nat) (s : Store) : Event * Store :=
  let '(event, origEvent', s1) := _preprocessor db origEvent s in
  if has_error event then (event, s1) else
  let '(event, s2) := _reducer db origEvent' s1 in
  if has_error event then (event, s2) else
  let '(event, s3) := _applyEvent db event (Nat.eqb depth 0) s2 in
  if has_error event then (event, s3) else
  match events event with
  | Some evs => subevents_loop handle (length evs) 0 event s3
  | None => (event, s3)
  end.

(** [_handleEvent] with [k] levels of recursion left below the guard. *)
Fixpoint handleEvent_at (k : nat) (db : ESDB) (origEvent : Event) (depth : nat)
    (s : Store) : Event * Store :=
  if (100 <? depth)%nat then (too_deep origEvent, s)
  else
    match k with
    | O => (too_deep origEvent, s)
    | S k' =>
        handleEvent_body (fun sub => handleEvent_at k' db sub (S depth))
          db origEvent depth s
    end.

(** [_handleEvent(origEvent, depth)] (lines 630-673).  The guard stops the
    recursion at depth 101, so [101 - depth] levels are all it can use; see
    [_handleEvent_unfold] for the source's own equation. *)
Definition _handleEvent (db : ESDB) (origEvent : Event) (depth : nat) (s : Store)
  : Event * Store :=
  handleEvent_at (101 - depth) db origEvent depth s.

(** ** The queue, the waiters and the observers *)

(** A pending or settled future handed out by [handledVersion].  (The
    waiter keeps [resolve] and [reject]; the engine calls the former only.) *)
Inductive Promise :=
| Pending
| Resolved (event : Event)
| Rejected (event : Event).

(** [_waitingFor], [_maxWaitingFor] (lines 375-377); [promises] holds the
    futures created so far, a waiter [o] being the index of its future;
    [scheduled] are the versions whose [queue.get(v).then(...)] of line 414
    has not run yet. *)
Record Waiters := mkWaiters {
  _waitingFor : gmap Z nat;
  _maxWaitingFor : Z;
  promises : list Promise;
  scheduled : list Z
}.

(** [_minVersion], [_isPolling], [_reallyStop], [_stopPollingOnError]; and
    [_waitingP], true while an activation of [_waitForEvent] exists. *)
Record Polling := mkPolling {
  _minVersion : Z;
  _isPolling : bool;
  _reallyStop : bool;
  _stopPollingOnError : bool;
  _waitingP : bool
}.

(** The running engine.  [queue] holds the rows of the queue table by [v];
    a listener is given by the exception it throws, if any. *)
Record Engine := mkEngine {
  rw : Store;
  queue : gmap Z Event;
  polling : Polling;
  waiters : Waiters;
  listeners : gmap string (list (Event -> option Exn))
}.

Definition set_rw (s : Store) (e : Engine) : Engine :=
  mkEngine s (queue e) (polling e) (waiters e) (listeners e).
Definition set_queue (q : gmap Z Event) (e : Engine) : Engine :=
  mkEngine (rw e) q (polling e) (waiters e) (listeners e).
Definition set_polling (p : Polling) (e : Engine) : Engine :=
  mkEngine (rw e) (queue e) p (waiters e) (listeners e).
Definition set_waiters (w : Waiters) (e : Engine) : Engine :=
  mkEngine (rw e) (queue e) (polling e) w (listeners e).
Definition logged (fx : Effect) (e : Engine) : Engine :=
  set_rw (add_log fx (rw e)) e.

(** Modelled from the spec: the event queue ([EventQueue]) is not part of
    the sources.  Section 4.1: [get(v)] is a point lookup by version,
    [set(event)] "upserts by [v]", [getNext(afterV, noBlock)] returns the
    next event with [v > afterV], and [add] "assigns the next [v]"
    ([max(v)+1], section 6).  A row read from the table carries its key as
    [v]. *)
Definition queue_get (n : Z) (e : Engine) : option Event * Engine :=
  (set_v (Some n) <$> queue e !! n, logged (FxQueueGet n) e).

(** Modelled from the spec: [set(event)] "upserts by [v]" (section 4.1) and
    yields the stored event (section 4.6, "resultQueue.set(r) ... return r").
    An event without [v] names no row. *)
Definition queue_set (event : Event) (e : Engine) : Event * Engine :=
  (event,
   logged (FxQueueSet event)
     (match v event with
      | Some n => set_queue (<[ n := event ]> (queue e)) e
      | None => e
      end)).

(** Modelled from the spec: the version [getNext] selects, "WHERE v > ? ORDER
    BY v LIMIT 1" (section 6). *)
Definition next_key (afterV : Z) (q : gmap Z Event) : option Z :=
  foldr (fun k best =>
           if bool_decide (afterV < k)
           then match best with
                | Some b => Some (Z.min k b)
                | None => Some k
                end
           else best)
        None (elements (dom q)).

(** Modelled from the spec: [latestVersion()], the "highest enqueued [v]"
    (section 4.1), 0 for an empty queue. *)
Definition latest_key (q : gmap Z Event) : Z :=
  foldr Z.max 0 (elements (dom q)).

(** Modelled from the spec: [add(type, data, ts)] "appends a new event;
    assigns the next [v]" (section 4.1), [max(v)+1] (section 6). *)
Definition queue_add (t : string) (d : Json) (time : option Z) (e : Engine)
  : Event * Engine :=
  let n := latest_key (queue e) + 1 in
  let event := mkEvent (Some n) t time d None None None None in
  (event, set_queue (<[ n := event ]> (queue e)) e).

(** [getVersion()] (lines 358-368): [PRAGMA user_version]. *)
Definition getVersion (e : Engine) : Z * Engine :=
  (user_version (rw e), logged FxGetVersion e).

(** [listenerCount(name)] and [emit(name, event)] of Node's EventEmitter:
    the listeners run in order of registration and the first exception
    leaves [emit]; emitting ['error'] without a listener throws. *)
Definition listenerCount (nm : string) (e : Engine) : nat :=
  length (default [] (listeners e !! nm)).

Fixpoint first_exception (ls : list (Event -> option Exn)) (event : Event)
  : option Exn :=
  match ls with
  | [] => None
  | l :: rest =>
      match l event with
      | Some x => Some x
      | None => first_exception rest event
      end
  end.

Definition emit (nm : string) (event : Event) (e : Engine) : Engine * option Exn :=
  let ls := default [] (listeners e !! nm) in
  (logged (FxEmit nm event) e,
   match ls with
   | [] => if String.eqb nm "error" then Some (Some (new_Error "Unhandled error.")) else None
   | _ :: _ => first_exception ls event
   end).

(** [try { ... } catch (error) { console.error(...) }] *)
Definition try_ignore (r : Engine * option Exn) : Engine := fst r.

(** [o.resolve(event)] and [o.reject(event)]: a settled future stays as it
    is. *)
Definition settle (id : nat) (p : Promise) (e : Engine) : Engine :=
  let w := waiters e in
  match promises w !! id with
  | Some Pending =>
      set_waiters
        (mkWaiters (_waitingFor w) (_maxWaitingFor w) (<[ id := p ]> (promises w))
                   (scheduled w)) e
  | _ => e
  end.

(** [startPolling(wantVersion)] (lines 291-327); [0] is a falsy argument.
    Starting [_waitForEvent] is recorded in [_waitingP]. *)
Definition startPolling (wantVersion : Z) (e : Engine) : Engine :=
  let p := polling e in
  let p1 :=
    if negb (Z.eqb wantVersion 0)
    then if Z.ltb (_minVersion p) wantVersion
         then mkPolling wantVersion (_isPolling p) (_reallyStop p)
                        (_stopPollingOnError p) (_waitingP p)
         else p
    else if negb (_isPolling p)
         then mkPolling (_minVersion p) true (_reallyStop p)
                        (_stopPollingOnError p) (_waitingP p)
         else p in
  set_polling
    (mkPolling (_minVersion p1) (_isPolling p1) (_reallyStop p1)
               (_stopPollingOnError p1) true) e.

(** What the future returned by [handledVersion] is. *)
Inductive Handled :=
| HUndefined
| HResolved (event : Event)
| HRejected (event : Event)
| HThrown (t : Thrown)
| HWaiting (id : nat).

(** [handledVersion(v)] (lines 379-401). *)
Definition handledVersion (n : Z) (e : Engine) : Handled * Engine :=
  if Z.eqb n 0 then (HUndefined, e)
  else
    let '(version, e1) := getVersion e in
    if Z.leb n version
    then
      let '(row, e2) := queue_get n e1 in
      match row with
      | Some event =>
          if has_error event then (HRejected event, e2) else (HResolved event, e2)
      | None => (HThrown (new_TypeError "Cannot read property 'error' of null"), e2)
      end
    else
      let w := waiters e1 in
      match _waitingFor w !! n with
      | Some id => (HWaiting id, e1)
      | None =>
          let id := length (promises w) in
          let w' :=
            mkWaiters (<[ n := id ]> (_waitingFor w))
                      (if Z.ltb (_maxWaitingFor w) n then n else _maxWaitingFor w)
                      (promises w ++ [Pending]) (scheduled w) in
          (HWaiting id, startPolling n (set_waiters w' e1))
      end.

(** [dispatch(type, data, ts)] (lines 336-339). *)
Definition dispatch (t : string) (d : Json) (time : option Z) (e : Engine)
  : Handled * Engine :=
  let '(event, e1) := queue_add t d time e in
  handledVersion (default 0 (v event)) e1.

(** The sweep of lines 408-417: every waiter at or below [n] is dropped and
    its row is read again later. *)
Definition sweep (n : Z) (e : Engine) : Engine :=
  let w := waiters e in
  if Z.leb (_maxWaitingFor w) n
  then
    let keys :=
      filter (fun k : Z => (k ≤ n)%Z) (merge_sort Z.le (elements (dom (_waitingFor w)))) in
    fold_left (fun e k => logged (FxQueueGet k) e) keys
      (set_waiters
         (mkWaiters (fold_left (fun m k => delete k m) keys (_waitingFor w))
                    (_maxWaitingFor w) (promises w) (scheduled w ++ keys)) e)
  else e.

(** [_triggerEventListeners(event)] (lines 404-437). *)
Definition _triggerEventListeners (event : Event) (e : Engine) : Engine :=
  let o := v event ≫= (fun n => _waitingFor (waiters e) !! n) in
  let e1 :=
    match v event, o with
    | Some n, Some _ =>
        let w := waiters e in
        set_waiters (mkWaiters (delete n (_waitingFor w)) (_maxWaitingFor w)
                               (promises w) (scheduled w)) e
    | _, _ => e
    end in
  let e2 := match v event with Some n => sweep n e1 | None => e1 end in
  if has_error event
  then
    if (0 <? listenerCount "error" e2)%nat
    then try_ignore (emit "error" event e2)
    else e2
  else
    let e3 := try_ignore (emit "result" event e2) in
    match o with
    | Some id => settle id (Resolved event) e3
    | None => e3
    end.

(** The callback of line 414 for the oldest scheduled read: the row is read
    and handed to [_triggerEventListeners]. *)
Definition run_scheduled (e : Engine) : Engine :=
  let w := waiters e in
  match scheduled w with
  | [] => e
  | n :: rest =>
      let e1 :=
        set_waiters (mkWaiters (_waitingFor w) (_maxWaitingFor w) (promises w) rest) e in
      match queue e1 !! n with
      | Some row => _triggerEventListeners (set_v (Some n) row) e1
      | None => e1
      end
  end.

(** ** The polling loop *)

(** The callback given to [rwDb.withTransaction] (lines 479-503), after
    [lastV = event.v].  [None] is the [undefined] returned when the event
    was handled elsewhere. *)
Definition handle_in_transaction (db : ESDB) (event : Event) (e : Engine)
  : option Event * Engine :=
  let '(nowV, e1) := getVersion e in
  if match v event with Some n => Z.leb n nowV | None => false end
  then (None, e1)
  else
    let event := set_result None (set_error None event) in
    let s := run (SAVEPOINT "handle") (rw e1) in
    let '(result, s1) := _handleEvent db event 0 s in
    let '(result, s2) :=
      if has_error result
      then
        let s2 := run (ROLLBACK_TO_SAVEPOINT "handle") s1 in
        (move_result_to_failedResult result, s2)
      else (result, run (RELEASE_SAVEPOINT "handle") s1) in
    let '(stored, e2) := queue_set result (set_rw s2 e1) in
    (Some stored, e2).

(** Modelled from the spec: [withTransaction] belongs to the SQL wrapper,
    which is not part of the sources.  Section 6: "begin+commit or rollback
    on throw".  The transaction fails to begin when the store answers with a
    fault; otherwise the callback runs and the commit closes every
    savepoint.  (The callback itself has no exception left to throw: what the
    pipeline catches is on the event.) *)
Definition withTransaction {A : Type} (db : ESDB) (fn : Engine -> A * Engine)
    (e : Engine) : (Exn + A) * Engine :=
  match store_fault db (length (log (rw e))) with
  | Some x => (inl x, logged FxWithTransaction e)
  | None =>
      let '(a, e1) := fn (logged FxWithTransaction e) in
      (inr a,
       set_rw (mkStore (tables (rw e1)) (user_version (rw e1)) [] (log (rw e1))) e1)
  end.

(** How one round of the [while] loop of [_waitForEvent] ends. *)
Inductive Round :=
| Returns (lastV : option Z)
| Throws (t : Thrown)
| Suspended
| Continues (lastV errorCount : Z).

(** Lines 452-460: the handles that are closed, then the pause. *)
Definition back_off (db : ESDB) (errorCount : Z) (e : Engine) : Engine :=
  let e1 := if negb (String.eqb (rwDb_file db) ":memory:")
            then logged (FxClose H_db) e else e in
  let e2 := if negb (String.eqb (rwDb_file db) ":memory:")
            then logged (FxClose H_rwDb) e1 else e1 in
  let e3 := if negb (String.eqb (queue_db_file db) ":memory:")
            then logged (FxClose H_queue_db) e2 else e2 in
  logged (FxWait (5000 * errorCount)) e3.

(** Modelled from the spec: [queue.getNext(afterV, noBlock)] (section 4.1).
    The outer [None] is a call that does not return: nothing is queued after
    [afterV] and the call blocks. *)
Definition queue_getNext (afterV : Z) (noBlock : bool) (e : Engine)
  : option (option Event) * Engine :=
  let e1 := logged (FxGetNext afterV noBlock) e in
  match next_key afterV (queue e) with
  | Some n => (Some (set_v (Some n) <$> queue e !! n), e1)
  | None => (if noBlock then Some None else None, e1)
  end.

(** Lines 515-532, once the transaction has yielded [resultEvent].  Rows of
    the queue carry [v]; a result without it (where the source computes with
    [undefined]) is read as 0. *)
Definition after_transaction (lastV errorCount : Z) (resultEvent : Event)
    (e : Engine) : Round * Engine :=
  let '(lastV, errorCount) :=
    if has_error resultEvent
    then (default 0 (v resultEvent) - 1, errorCount + 1)
    else (lastV, 0) in
  let e1 := _triggerEventListeners resultEvent e in
  let p := polling e1 in
  if _reallyStop p || (negb (Z.eqb errorCount 0) && _stopPollingOnError p)
  then
    (Returns None,
     set_polling (mkPolling (_minVersion p) (_isPolling p) false
                            (_stopPollingOnError p) (_waitingP p)) e1)
  else (Continues lastV errorCount, e1).

(** One round of the loop of [_waitForEvent] (lines 451-533), entered with
    the loop variables [lastV] and [errorCount].  The database file of the
    read-only handle is the one of [rwDb]. *)
Definition waitForEvent_round (db : ESDB) (lastV errorCount : Z) (e : Engine)
  : Round * Engine :=
  let p := polling e in
  if negb (Z.eqb (_minVersion p) 0 || Z.ltb lastV (_minVersion p))
  then (Returns (Some lastV), e)
  else if negb (Z.eqb errorCount 0) && Z.ltb MAX_RETRY errorCount
  then (Throws (new_Error ("Giving up on processing event " +:+ string_of_Z (lastV + 1))), e)
  else
    let e1 := if negb (Z.eqb errorCount 0) then back_off db errorCount e else e in
    let '(version, e2) := getVersion e1 in
    let noBlock := negb (_isPolling p || negb (Z.eqb (_minVersion p) 0)) in
    match store_fault db (length (log (rw e2))) with
    | Some _ =>
        (Continues lastV (errorCount + 1), logged (FxGetNext version noBlock) e2)
    | None =>
        let '(next, e3) := queue_getNext version noBlock e2 in
        match next with
        | None => (Suspended, e3)
        | Some None => (Returns (Some lastV), e3)
        | Some (Some event) =>
            let '(r, e4) := withTransaction db (handle_in_transaction db event) e3 in
            match r with
            | inl x =>
                after_transaction lastV errorCount
                  (set_error (Some {[ "_SQLite" := errorToString x ]}) event) e4
            | inr None => (Continues (default 0 (v event)) errorCount, e4)
            | inr (Some resultEvent) =>
                after_transaction (default 0 (v event)) errorCount resultEvent e4
            end
        end
    end.

(** [_waitForEvent] (lines 444-536), for at most [rounds] rounds; [None]
    when the loop is still running after them. *)
Fixpoint waitForEvent_from (rounds : nat) (db : ESDB) (lastV errorCount : Z)
    (e : Engine) : option Round * Engine :=
  match rounds with
  | O => (None, e)
  | S rounds' =>
      match waitForEvent_round db lastV errorCount e with
      | (Continues lastV' errorCount', e') =>
          waitForEvent_from rounds' db lastV' errorCount' e'
      | (r, e') => (Some r, e')
      end
  end.

Definition _waitForEvent (rounds : nat) (db : ESDB) (e : Engine)
  : option Round * Engine :=
  waitForEvent_from rounds db 0 0 e.

(** The continuation that [startPolling] attaches to [_waitForEvent()]
    (lines 316-324), given what the loop returned. *)
Definition loop_finished (lastV : option Z) (e : Engine) : Engine :=
  let p := polling e in
  let e1 :=
    set_polling (mkPolling (_minVersion p) (_isPolling p) (_reallyStop p)
                           (_stopPollingOnError p) false) e in
  match lastV with
  | Some n =>
      if negb (Z.eqb (_minVersion p) 0) && Z.ltb n (_minVersion p)
      then startPolling (_minVersion p) e1
      else set_polling (mkPolling 0 (_isPolling p) (_reallyStop p)
                                  (_stopPollingOnError p) false) e1
  | None =>
      set_polling (mkPolling 0 (_isPolling p) (_reallyStop p)
                             (_stopPollingOnError p) false) e1
  end.

(** ** Model registration *)

(** What the constructor looks at in a model class: its static
    [preprocessor], [reducer] and [deriver], and whether instances have a
    [setWritable] method.  The functions themselves do not change the
    outcome of the construction, so only their presence is recorded. *)
Record ModelClass := mkModelClass {
  static_preprocessor : bool;
  static_reducer : bool;
  static_deriver : bool;
  proto_setWritable : bool
}.

(** A value of the [models] option.  [def_name] is a [name] key of the
    definition itself: it is part of [...rest] and, spread after [name],
    replaces the key of the entry in the options of the model.  [def_Model]
    and [def_RWModel] are [None] when left to their defaults. *)
Record ModelDef := mkModelDef {
  def_name : option string;
  def_reducer : bool;
  def_preprocessor : bool;
  def_deriver : bool;
  def_Model : option ModelClass;
  def_RWModel : option ModelClass
}.

(** A model instance in [db.store]. *)
Record Instance := mkInstance {
  inst_name : string;
  inst_class : ModelClass
}.

(** [DB.addModel(Model, options)] (DB.js, lines 76-85).  The model classes
    are not part of the sources: an instance takes the [name] of its
    options. *)
Definition addModel (Model : ModelClass) (options_name : string)
    (store : gmap string Instance) : Thrown + Instance * gmap string Instance :=
  let model := mkInstance options_name Model in
  match store !! inst_name model with
  | Some _ =>
      inl (new_TypeError ("Model name " +:+ inst_name model +:+ " was already added"))
  | None => inr (model, <[ inst_name model := model ]> store)
  end.

(** The fields the constructor fills while it registers the models (lines
    172-181): the stores of the two database objects, and the engine's own
    tables, by name. *)
Record Registry := mkRegistry {
  rwDb_store : gmap string Instance;
  db_store : gmap string Instance;
  reg_rwStore : list string;
  reg_store : list string;
  reg_reducerNames : list string;
  reg_deriverModels : list string;
  reg_preprocModels : list string;
  reg_readWriters : list string
}.

(** The options of [new ESDB({queue, models, queueFile, ...dbOptions})]:
    [opt_db] tells that [dbOptions.db] is truthy, [opt_queue] that a queue
    was passed, [opt_queueFile] is empty when absent. *)
Record Options := mkOptions {
  opt_db : bool;
  opt_models : option (list (string * option ModelDef));
  opt_queue : bool;
  opt_queueFile : string;
  opt_file : string;
  opt_readOnly : bool
}.

(** [this.db === this.rwDb] (lines 106-108). *)
Definition db_is_rwDb (o : Options) : bool :=
  String.eqb (opt_file o) ":memory:" || opt_readOnly o.

(** The [try] block of the loop over [Object.entries(models)] (lines
    186-257) for one entry. *)
Definition register_model (ESModel : ModelClass) (same_db : bool) (key : string)
    (modelDef : option ModelDef) (r : Registry) : Thrown + Registry :=
  match modelDef with
  | None => inl (new_Error "model missing")
  | Some d =>
      let Model := default ESModel (def_Model d) in
      let RWModel := default Model (def_RWModel d) in
      let options_name := default key (def_name d) in
      match addModel RWModel options_name (rwDb_store r) with
      | inl t => inl t
      | inr (rwModel, rwDb_store') =>
          let has_deriver := def_deriver d || static_deriver RWModel in
          match
            (if same_db then inr (rwModel, db_store r)
             else addModel Model options_name (db_store r))
          with
          | inl t => inl t
          | inr (model, db_store') =>
              let has_preprocessor := def_preprocessor d || static_preprocessor Model in
              let has_reducer := def_reducer d || static_reducer Model in
              if negb (has_deriver || has_preprocessor || has_reducer)
              then inl (new_TypeError
                          "undefined: At least one reducer, deriver or preprocessor required")
              else
                inr (mkRegistry
                       rwDb_store'
                       (if same_db then rwDb_store' else db_store')
                       (reg_rwStore r ++ [key])
                       (reg_store r ++ [key])
                       (if has_reducer then reg_reducerNames r ++ [key]
                        else reg_reducerNames r)
                       (if has_deriver then reg_deriverModels r ++ [key]
                        else reg_deriverModels r)
                       (if has_preprocessor then reg_preprocModels r ++ [key]
                        else reg_preprocModels r)
                       (if proto_setWritable RWModel then reg_readWriters r ++ [key]
                        else reg_readWriters r))
          end
      end
  end.

(** [String(error)] once [error.message] has been set to [msg]: the text of
    an error object ends with its message, which is replaced; any other text
    stays. *)
Definition toStr_with_message (t : Thrown) (msg : string) : string :=
  let n := (String.length (toStr t) - String.length (message t))%nat in
  if String.eqb (substring n (String.length (message t)) (toStr t)) (message t)
  then substring 0 n (toStr t) +:+ msg
  else toStr t.

(** The [catch] clause of lines 258-267: the error is thrown again with the
    model's key in front of its message and stack. *)
Definition while_configuring (key : string) (t : Thrown) : Thrown :=
  let pre := "ESDB: while configuring model " +:+ key +:+ ": " in
  mkThrown (if truthy (stack t) then pre +:+ stack t else stack t)
           (if truthy (message t) then pre +:+ message t else message t)
           (if truthy (message t) then toStr_with_message t (pre +:+ message t)
            else toStr t).

(** The loop of lines 184-268. *)
Fixpoint register_models (ESModel : ModelClass) (same_db : bool)
    (models : list (string * option ModelDef)) (r : Registry) : Thrown + Registry :=
  match models with
  | [] => inr r
  | (key, modelDef) :: rest =>
      match register_model ESModel same_db key modelDef r with
      | inl t => inl (while_configuring key t)
      | inr r' => register_models ESModel same_db rest r'
      end
  end.

(** The constructor of [ESDB] (lines 92-273), as far as it can fail and as
    far as it registers models; [ESModel] is the default model class. *)
Definition ESDB_constructor (ESModel : ModelClass) (o : Options) : Thrown + Registry :=
  if opt_db o
  then inl (new_TypeError
    "db is no longer an option, pass the db options instead, e.g. file, verbose, readOnly")
  else
    match opt_models o with
    | None => inl (new_TypeError "models are required")
    | Some models =>
        if truthy (opt_queueFile o) && opt_queue o
        then inl (new_TypeError "Either pass queue or queueFile")
        else register_models ESModel (db_is_rwDb o) models
               (mkRegistry ∅ ∅ [] [] [] [] [] [])
    end.

(** ** Notions used in the statements *)

(** The call that persists the version. *)
Definition is_version_write (fx : Effect) : bool :=
  match fx with
  | FxRun (PRAGMA_user_version _) | FxRun PRAGMA_user_version_undefined => true
  | _ => false
  end.

Definition is_applyChanges (fx : Effect) : bool :=
  match fx with FxApplyChanges _ _ => true | _ => false end.

Definition is_deriver (fx : Effect) : bool :=
  match fx with FxDeriver _ _ => true | _ => false end.

Definition is_emit (fx : Effect) : bool :=
  match fx with FxEmit _ _ => true | _ => false end.

(** A call of one of the user functions of the three phases. *)
Definition is_phase_call (fx : Effect) : bool :=
  match fx with
  | FxPreprocessor _ _ | FxReducer _ _ | FxApplyChanges _ _ | FxDeriver _ _ => true
  | _ => false
  end.

(** The error text a reducer's answer amounts to; empty when it is none. *)
Definition reducer_error (out : ReducerOut) : string :=
  match out with
  | RThrows e => errorToString e
  | RFalsy | RModel => ""
  | RObject _ EventsNotArray => ".events is not an array"
  | RObject o _ => r_error o
  end.

(** What a reducer's answer leaves under its name in [result], if
    anything. *)
Definition result_entry (out : ReducerOut) : option ReducerResult :=
  match out with
  | RThrows e => Some (mkReducerResult (errorToString e) "{}")
  | RFalsy | RModel => None
  | RObject _ EventsNotArray => Some (mkReducerResult ".events is not an array" "{}")
  | RObject o _ => Some o
  end.

(** The model a logged call of a deriver belongs to. *)
Definition called_deriver (fx : Effect) : option string :=
  match fx with
  | FxDeriver m _ => Some m
  | _ => None
  end.

(** The model has a [deriver] function. *)
Definition has_deriver (m : Model) : bool :=
  match deriver m with Some _ => true | None => false end.

(** The [applyChanges] call of an entry of [result]. *)
Definition applyChanges_call (entry : string * ReducerResult) : Effect :=
  FxApplyChanges (fst entry) (snd entry).

(** The apply step of [_applyEvent] alone: the exception with which
    [settleAll] over [Object.entries(result)] ends, if any. *)
Definition apply_phase_error (db : ESDB) (event : Event) (s : Store) : option Exn :=
  match result event with
  | Some (entry :: entries) =>
      snd (settleAll (entry :: entries) (apply_entry db) (setWritable_all db true s))
  | _ => None
  end.

(** The sub-event loop as section 4.4 words it: the list is walked from left
    to right, each sub-event is handled with the parent's [v] and stored
    without it, and the walk stops at the first one that ends in error.
    [done] are the records stored so far; the result is the new list, the
    index of the failed sub-event if any, and the store. *)
Fixpoint sequential_subevents (handle : Event -> Store -> Event * Store)
    (parent_v : option Z) (done todo : list Event) (s : Store)
  : list Event * option nat * Store :=
  match todo with
  | [] => (done, None, s)
  | subEvent :: rest =>
      let '(doneEvent, s1) := handle (set_v parent_v subEvent) s in
      let doneEvent := set_v None doneEvent in
      if has_error doneEvent
      then (done ++ move_result_to_failedResult doneEvent :: rest,
            Some (length done), s1)
      else sequential_subevents handle parent_v (done ++ [doneEvent]) rest s1
  end.

(** The database file behind a handle; the read-only handle is on the file
    of [rwDb]. *)
Definition handle_file (db : ESDB) (h : Handle) : string :=
  match h with
  | H_db | H_rwDb => rwDb_file db
  | H_queue_db => queue_db_file db
  end.

(** The handles the back-off closes, in order: those whose database is not
    [':memory:']. *)
Definition closed_handles (db : ESDB) : list Effect :=
  map FxClose
      (List.filter (fun h => negb (String.eqb (handle_file db h) ":memory:"))
                   [H_db; H_rwDb; H_queue_db]).

(** The engine with every listener replaced by one that returns normally. *)
Definition quiet (e : Engine) : Engine :=
  mkEngine (rw e) (queue e) (polling e) (waiters e)
           ((fun ls : list (Event -> option Exn) =>
               map (fun _ => fun _ : Event => @None Exn) ls) <$> listeners e).

Definition set_listeners (l : gmap string (list (Event -> option Exn)))
    (e : Engine) : Engine :=
  mkEngine (rw e) (queue e) (polling e) (waiters e) l.

(** The name a definition is registered under in the database's store. *)
Definition registered_name (entry : string * option ModelDef) : string :=
  match snd entry with
  | Some d => default (fst entry) (def_name d)
  | None => fst entry
  end.

(** [s'] is [s] after calls that satisfy [P] and leave the savepoints and the
    persisted version alone. *)
Definition steps (P : Effect -> Prop) (s s' : Store) : Prop :=
  savepoints s' = savepoints s /\
  user_version s' = user_version s /\
  exists l, log s' = log s ++ l /\ Forall P l.

(** [s'] is [s] after some calls, none of which touched the savepoints. *)
Definition advances (s s' : Store) : Prop :=
  savepoints s' = savepoints s /\ exists l, log s' = log s ++ l.

Definition no_version_write (fx : Effect) : Prop := is_version_write fx = false.

(** The engine [e'] has logged the calls of [e] and possibly more. *)
Definition log_extends (e e' : Engine) : Prop :=
  exists l, log (rw e') = log (rw e) ++ l.

Definition is_close (fx : Effect) : bool :=
  match fx with FxClose _ => true | _ => false end.

(** No preprocessor changes [v] on the object it is given. *)
Definition preprocessors_keep_v (db : ESDB) : Prop :=
  Forall (fun model =>
            forall f t event, preprocessor model = Some f -> v (fst (f t event)) = v event)
         (preprocModels db).

(** The engines [e] and [e'] have the same tables and persisted version. *)
Definition same_data (e e' : Engine) : Prop :=
  tables (rw e') = tables (rw e) /\ user_version (rw e') = user_version (rw e).

(** The store the pipeline starts from inside the transaction: the version
    has been read and the savepoint [handle] opened. *)
Definition pipeline_start (e : Engine) : Store :=
  run (SAVEPOINT "handle") (rw (snd (getVersion e))).

(** ** Concrete models and events used as examples *)

(** A top-level event as the queue hands it out. *)
Definition example_event (n : Z) (t : string) (d : Json) : Event :=
  mkEvent (Some n) t None d None None None None.

Definition empty_store : Store := mkStore ∅ 0 [] [].

Definition idle_polling : Polling := mkPolling 0 false false false false.

Definition no_waiters : Waiters := mkWaiters ∅ 0 [] [].

(** [({event}) => ({...event, data: 'canonical'})] with the reducer
    [(model, event) => ({set: event.data})]. *)
Definition canonicalizing_model : Model :=
  mkModel "m"
    (Some (fun _ e =>
             (e, PReturns (Some (mkEvent (v e) (type e) (ts e) "canonical" (result e)
                                         (error e) (failedResult e) (events e))))))
    (Some (fun _ e => RObject (mkReducerResult "" (data e)) EventsAbsent))
    (Some (fun r t => (<[ "m" := {[ "last" := r_changes r ]} ]> t, None)))
    None.

Definition canonicalizing_db : ESDB :=
  mkESDB ":memory:" ":memory:" [canonicalizing_model] ["m"]
         {[ "m" := canonicalizing_model ]} [] [] {[ "m" := canonicalizing_model ]}
         (fun _ => None) (fun _ _ => 0%nat).

(** A model whose reducer throws [new Error('boom')]. *)
Definition throwing_model : Model :=
  mkModel "f" None (Some (fun _ _ => RThrows (Some (new_Error "boom")))) None None.

Definition throwing_db : ESDB :=
  mkESDB ":memory:" ":memory:" [] ["f"] {[ "f" := throwing_model ]} [] []
         {[ "f" := throwing_model ]} (fun _ => None) (fun _ _ => 0%nat).

(** An engine with an empty database and queue, nobody waiting, and one
    listener for each of ['result'], ['error'] and ['handled']. *)
Definition fresh_engine : Engine :=
  mkEngine empty_store ∅ idle_polling no_waiters
           {[ "result" := [fun _ => None];
              "error" := [fun _ => None];
              "handled" := [fun _ => None] ]}.

(** The same model on database files. *)
Definition throwing_file_db : ESDB :=
  mkESDB "data.sqlite" "queue.sqlite" [] ["f"] {[ "f" := throwing_model ]} [] []
         {[ "f" := throwing_model ]} (fun _ => None) (fun _ _ => 0%nat).

(** A default model class with a static preprocessor and reducer, and
    instances with [setWritable]. *)
Definition example_ESModel : ModelClass := mkModelClass true true false true.

(** [{reducer}] and [{name, reducer}]. *)
Definition reducer_def (own_name : option string) : ModelDef :=
  mkModelDef own_name true false false None None.

(** [new ESDB({file: ':memory:', models})] *)
Definition memory_options (models : list (string * option ModelDef)) : Options :=
  mkOptions false (Some models) false "" ":memory:" false.

(** Four reducers: [A] throws, [B] returns changes, [C] returns [null] and
    [D] returns the model. *)
Definition reducer_only (nm : string) (f : Tables -> Event -> ReducerOut) : Model :=
  mkModel nm None (Some f) (Some (fun _ t => (t, None))) None.

Definition mixed_db : ESDB :=
  let A := reducer_only "A" (fun _ _ => RThrows (Some (new_Error "boom"))) in
  let B := reducer_only "B" (fun _ e => RObject (mkReducerResult "" (data e)) EventsAbsent) in
  let C := reducer_only "C" (fun _ _ => RFalsy) in
  let D := reducer_only "D" (fun _ _ => RModel) in
  let models : gmap string Model := {[ "A" := A; "B" := B; "C" := C; "D" := D ]} in
  mkESDB ":memory:" ":memory:" [] ["A"; "B"; "C"; "D"] models [] [] models
         (fun _ => None) (fun _ _ => 0%nat).

(** A model with a reducer, [applyChanges] and a deriver that caches the
    event's [data] in a table of its own. *)
Definition deriving_model : Model :=
  mkModel "m" None
    (Some (fun _ e => RObject (mkReducerResult "" (data e)) EventsAbsent))
    (Some (fun r t => (<[ "m" := {[ "last" := r_changes r ]} ]> t, None)))
    (Some (fun t e => (<[ "cache" := {[ "data" := data e ]} ]> t, [], None))).

Definition deriving_db : ESDB :=
  mkESDB ":memory:" ":memory:" [] ["m"] {[ "m" := deriving_model ]}
         [deriving_model] [deriving_model] {[ "m" := deriving_model ]}
         (fun _ => None) (fun _ _ => 0%nat).

(** A model whose preprocessor turns a [PARENT] event into three sub-events
    (it mutates the event through [dispatch] and returns nothing) and whose
    reducer throws on [BAD] events. *)
Definition parent_model : Model :=
  mkModel "X"
    (Some (fun _ e =>
             (if String.eqb (type e) "PARENT"
              then _subDispatch (_subDispatch (_subDispatch e "CHILD" "{}") "BAD" "{}")
                                "NEVER" "{}"
              else e,
              PReturns None)))
    (Some (fun _ e =>
             if String.eqb (type e) "BAD"
             then RThrows (Some (new_Error "bad"))
             else RObject (mkReducerResult "" (type e)) EventsAbsent))
    (Some (fun r t => (<[ "X" := {[ r_changes r := "seen" ]} ]> t, None)))
    None.

Definition parent_db : ESDB :=
  mkESDB ":memory:" ":memory:" [parent_model] ["X"] {[ "X" := parent_model ]} [] []
         {[ "X" := parent_model ]} (fun _ => None) (fun _ _ => 0%nat).


(** A model whose reducer throws a value without text (as [throw []]
    does: no [stack], no [message], and [String([])] is empty). *)
Definition empty_throw_model : Model :=
  mkModel "f" None (Some (fun _ _ => RThrows (Some (mkThrown "" "" "")))) None None.

Definition empty_throw_db : ESDB :=
  mkESDB ":memory:" ":memory:" [] ["f"] {[ "f" := empty_throw_model ]} [] []
         {[ "f" := empty_throw_model ]} (fun _ => None) (fun _ _ => 0%nat).

(** A model whose preprocessor deletes [v] on the event it is given and
    returns a copy that still has it,
    [({event}) => { const copy = {...event}; delete event.v; return copy }],
    with the reducer and [applyChanges] of [deriving_model]. *)
Definition v_deleting_model : Model :=
  mkModel "p"
    (Some (fun _ e => (set_v None e, PReturns (Some e))))
    (Some (fun _ e => RObject (mkReducerResult "" (data e)) EventsAbsent))
    (Some (fun r t => (<[ "p" := {[ "last" := r_changes r ]} ]> t, None)))
    None.

Definition v_deleting_db : ESDB :=
  mkESDB ":memory:" ":memory:" [v_deleting_model] ["p"] {[ "p" := v_deleting_model ]}
         [] [] {[ "p" := v_deleting_model ]} (fun _ => None) (fun _ _ => 0%nat).

(** Two reducers that each return one sub-event, the answer of [B] arriving
    before the one of [A] (as when [A] is an async function that waits for
    the database and [B] is not). *)
Definition racing_db : ESDB :=
  let A := reducer_only "A"
             (fun _ _ => RObject (mkReducerResult "" "a")
                                 (EventsArray [sub_event "FROM_A" "{}"])) in
  let B := reducer_only "B"
             (fun _ _ => RObject (mkReducerResult "" "b")
                                 (EventsArray [sub_event "FROM_B" "{}"])) in
  let models : gmap string Model := {[ "A" := A; "B" := B ]} in
  mkESDB ":memory:" ":memory:" [] ["A"; "B"] models [] [] models
         (fun _ => None)
         (fun _ key => if String.eqb key "A" then 1%nat else 0%nat).

(** ** The rest of the engine's interface *)

(** [stopPolling()] (lines 329-334). *)
Definition stopPolling (e : Engine) : Engine :=
  let p := polling e in
  set_polling (mkPolling (_minVersion p) false true (_stopPollingOnError p)
                         (_waitingP p)) e.

(** [checkForEvents()] (lines 283-285). *)
Definition checkForEvents (e : Engine) : Engine := startPolling 1 e.


(** ** DB.js: migrations *)

(** What a migration's [up(db)] does: it rewrites the tables, or throws. *)
Definition Up := Tables -> Tables * option Exn.

(** A value of the [migrations] object given to [registerMigrations]: a
    function, or an object with or without an [up] attribute. *)
Inductive MigrationDef :=
| MigFunction (f : Up)
| MigObject (up_attr : option Up).

(** An entry of [options.migrations]: [{...obj, runKey}]. *)
Record Migration := mkMigration {
  runKey : string;
  up : Up
}.

(** A row of the table ["{sdb} migrations"]. *)
Record MigrationRow := mkMigrationRow {
  row_runKey : string;
  row_ts : Z;
  row_up : bool
}.

(** The calls [runMigrations] makes, in order. *)
Inductive MigrationEffect :=
| MxSetWritable (model : string) (flag : bool)
| MxUp (key : string)
| MxMark (key : string) (ts : Z).

(** The database object as far as migrations go: the tables of the file,
    the table ["{sdb} migrations"] and its predecessor [_migrations] ([None]
    when the table does not exist), [options.migrations] and
    [migrationsRan]. *)
Record DBState := mkDBState {
  db_tables : Tables;
  sdb_migrations : option (list MigrationRow);
  old_migrations : option (list MigrationRow);
  options_migrations : list Migration;
  migrationsRan : bool;
  db_calls : list MigrationEffect
}.

(** The double quote of the message of line 103. *)
Definition dquote : string := String (ascii_of_nat 34) EmptyString.

(** The key a migration runs under (line 107): [`${key} ${name}`]. *)
Definition make_runKey (key nm : string) : string := key +:+ " " +:+ nm.

(** The loop of [registerMigrations] (lines 97-112) over the entries of
    [migrations] in the order of [Object.keys]; [acc] is
    [options.migrations]. *)
Fixpoint register_entries (nm : string) (entries : list (string * MigrationDef))
    (acc : list Migration) : list Migration * option Thrown :=
  match entries with
  | [] => (acc, None)
  | (key, obj) :: rest =>
      match (match obj with MigFunction f => Some f | MigObject u => u end) with
      | Some f => register_entries nm rest (acc ++ [mkMigration (make_runKey key nm) f])
      | None =>
          (acc,
           Some (new_Error
                   ("Migration " +:+ key +:+ " for " +:+ dquote +:+ nm +:+ dquote
                    +:+ " must be a function or have an " +:+ dquote
                    +:+ "up({db, model, ...rest})" +:+ dquote +:+ " attribute")))
      end
  end.

(** [registerMigrations(name, migrations)] (DB.js, lines 93-113). *)
Definition registerMigrations (nm : string) (migrations : list (string * MigrationDef))
    (d : DBState) : DBState * option Thrown :=
  if migrationsRan d then (d, Some (new_Error "migrations already done"))
  else
    let '(ms, x) := register_entries nm migrations (options_migrations d) in
    (mkDBState (db_tables d) (sdb_migrations d) (old_migrations d) ms
               (migrationsRan d) (db_calls d), x).

(** The row that [SELECT runKey, max(ts) AS ts, up ... GROUP BY runKey]
    (lines 25-27) yields for [key]: the one with the largest [ts], from
    which the bare column [up] is taken.  Where several rows share the
    largest [ts] the first one is taken. *)
Fixpoint latest_row (key : string) (rows : list MigrationRow)
    (best : option MigrationRow) : option MigrationRow :=
  match rows with
  | [] => best
  | r :: rest =>
      latest_row key rest
        (if String.eqb (row_runKey r) key
         then match best with
              | Some b => if Z.ltb (row_ts b) (row_ts r) then Some r else Some b
              | None => Some r
              end
         else best)
  end.

(** [_getRanMigrations(db)] (lines 9-34): the table is renamed or created
    when it is not there, and [didRun] holds the keys whose latest row has
    [up = 1]. *)
Definition _getRanMigrations (d : DBState) : (string -> bool) * DBState :=
  let d1 :=
    match sdb_migrations d with
    | Some _ => d
    | None =>
        match old_migrations d with
        | Some rows =>
            mkDBState (db_tables d) (Some rows) None (options_migrations d)
                      (migrationsRan d) (db_calls d)
        | None =>
            mkDBState (db_tables d) (Some []) None (options_migrations d)
                      (migrationsRan d) (db_calls d)
        end
    end in
  (fun key =>
     match latest_row key (default [] (sdb_migrations d1)) None with
     | Some r => row_up r
     | None => false
     end,
   d1).

(** [_markMigration(db, runKey, up)] (lines 36-40); [now] is
    [Math.round(Date.now() / 1000)].  The statement fails when the table
    does not exist. *)
Definition _markMigration (now : Z) (key : string) (flag : bool) (d : DBState)
  : DBState * option Exn :=
  match sdb_migrations d with
  | Some rows =>
      (mkDBState (db_tables d) (Some (rows ++ [mkMigrationRow key now flag]))
                 (old_migrations d) (options_migrations d) (migrationsRan d)
                 (db_calls d ++ [MxMark key now]),
       None)
  | None =>
      (d, Some (Some (new_Error "SQLITE_ERROR: no such table: {sdb} migrations")))
  end.

(** lodash's [sortBy(migrations, ({runKey}) => runKey)] (line 122): a
    stable sort in ascending order of the keys, strings being compared
    character by character. *)
Fixpoint insert_by_runKey (m : Migration) (l : list Migration) : list Migration :=
  match l with
  | [] => [m]
  | x :: rest =>
      if String.leb (runKey m) (runKey x) then m :: x :: rest
      else x :: insert_by_runKey m rest
  end.

Definition sortBy_runKey (l : list Migration) : list Migration :=
  foldr insert_by_runKey [] l.

(** [for (const model of Object.values(store)) if (model.setWritable)
    model.setWritable(flag)] (lines 125-126 and 135-136). *)
Definition setWritable_models (models : list Instance) (flag : bool) (d : DBState)
  : DBState :=
  fold_left
    (fun d m =>
       if proto_setWritable (inst_class m)
       then mkDBState (db_tables d) (sdb_migrations d) (old_migrations d)
                      (options_migrations d) (migrationsRan d)
                      (db_calls d ++ [MxSetWritable (inst_name m) flag])
       else d)
    models d.

(** The loop of lines 127-134; [clock n] is the time, in seconds, at the
    moment [n] calls have been made. *)
Fixpoint run_pending (clock : nat -> Z) (didRun : string -> bool)
    (ms : list Migration) (d : DBState) : DBState * option Exn :=
  match ms with
  | [] => (d, None)
  | m :: rest =>
      if didRun (runKey m) then run_pending clock didRun rest d
      else
        let '(t, x) := up m (db_tables d) in
        let d1 :=
          mkDBState t (sdb_migrations d) (old_migrations d) (options_migrations d)
                    (migrationsRan d) (db_calls d ++ [MxUp (runKey m)]) in
        match x with
        | Some e => (d1, Some e)
        | None =>
            let '(d2, x2) :=
              _markMigration (clock (length (db_calls d1))) (runKey m) true d1 in
            match x2 with
            | Some e => (d2, Some e)
            | None => run_pending clock didRun rest d2
            end
        end
  end.

(** Modelled from the spec: [db.withTransaction] belongs to the SQL wrapper,
    which is not part of the sources.  Section 6: "begin+commit or rollback
    on throw": when the callback throws, the tables of the file (the
    migrations tables among them) are as they were before. *)
Definition db_withTransaction (fn : DBState -> DBState * option Exn) (d : DBState)
  : DBState * option Exn :=
  let '(d1, x) := fn d in
  match x with
  | Some e =>
      (mkDBState (db_tables d) (sdb_migrations d) (old_migrations d)
                 (options_migrations d1) (migrationsRan d1) (db_calls d1),
       Some e)
  | None => (d1, None)
  end.

(** [runMigrations(db)] (lines 120-142); [models] are
    [Object.values(store)].  When the transaction fails, [migrationsRan] is
    not set. *)
Definition runMigrations (clock : nat -> Z) (models : list Instance) (d : DBState)
  : DBState * option Exn :=
  let migrations := sortBy_runKey (options_migrations d) in
  let '(d4, x) :=
    db_withTransaction
      (fun d =>
         let '(didRun, d1) := _getRanMigrations d in
         let d2 := setWritable_models models true d1 in
         let '(d3, x) := run_pending clock didRun migrations d2 in
         match x with
         | Some e => (d3, Some e)
         | None => (setWritable_models models false d3, None)
         end)
      d in
  match x with
  | Some e => (d4, Some e)
  | None =>
      (mkDBState (db_tables d4) (sdb_migrations d4) (old_migrations d4)
                 (options_migrations d4) true (db_calls d4),
       None)
  end.

(** ** Concrete migrations used as examples *)

(** The database object of a new file: no table, nothing registered. *)
Definition new_DB : DBState := mkDBState ∅ None None [] false [].

(** A migration that notes its name in the table [log]. *)
Definition noting_up (nm : string) : Up :=
  fun t => (<[ "log" := <[ nm := "done" ]> (default ∅ (t !! "log")) ]> t, None).

(** [registerMigrations('a', {1: up})] followed by
    [registerMigrations('b', {1: {up}, 2: up})]. *)
Definition example_DB : DBState :=
  fst (registerMigrations "b"
         [("1", MigObject (Some (noting_up "1b"))); ("2", MigFunction (noting_up "2b"))]
         (fst (registerMigrations "a" [("1", MigFunction (noting_up "1a"))] new_DB))).

(** ** Further notions used in the statements *)

(** The engine [e'] is [e] with more calls logged, and nothing else
    changed. *)
Definition only_logged (e e' : Engine) : Prop :=
  exists l,
    e' = set_rw (mkStore (tables (rw e)) (user_version (rw e)) (savepoints (rw e))
                         (log (rw e) ++ l)) e.

(** The engine once the transaction of [withTransaction] is committed: no
    savepoint is left. *)
Definition committed (e : Engine) : Engine :=
  set_rw (mkStore (tables (rw e)) (user_version (rw e)) [] (log (rw e))) e.

(** The calls of [up] among the calls of [runMigrations]. *)
Definition called_up (fx : MigrationEffect) : option string :=
  match fx with
  | MxUp key => Some key
  | _ => None
  end.

(** The rows [_markMigration] wrote among the calls. *)
Definition called_mark (fx : MigrationEffect) : option string :=
  match fx with
  | MxMark key _ => Some key
  | _ => None
  end.

(** A text whose characters all come after the blank in the order of the
    character codes (no blank, no control character). *)
Fixpoint above_blank (s : string) : bool :=
  match s with
  | EmptyString => true
  | String c rest => Nat.ltb 32 (nat_of_ascii c) && above_blank rest
  end.

(** The rows [_getRanMigrations] reads: those of the migrations table, or of
    its predecessor when it has not been renamed yet. *)
Definition recorded_rows (d : DBState) : list MigrationRow :=
  default [] (sdb_migrations (snd (_getRanMigrations d))).

(** The migrations [runMigrations] has to run, in the order it takes them
    in. *)
Definition pending_migrations (d : DBState) : list Migration :=
  List.filter (fun m => negb (fst (_getRanMigrations d) (runKey m)))
              (sortBy_runKey (options_migrations d)).

(** A text in which white space occurs only as single blanks: every white
    space character is a blank and no two of them are adjacent.
    [after_space] tells that the previous character was white space. *)
Fixpoint single_spaced (after_space : bool) (s : string) : bool :=
  match s with
  | EmptyString => true
  | String c rest =>
      if is_space c
      then Ascii.eqb c " " && negb after_space && single_spaced true rest
      else single_spaced false rest
  end.

(** The characters of a text that are not white space. *)
Fixpoint non_spaces (s : string) : list ascii :=
  match s with
  | EmptyString => []
  | String c rest => if is_space c then non_spaces rest else c :: non_spaces rest
  end.

(** The text [errorToString] starts from (lines 82-84). *)
Definition error_text (error : Exn) : string :=
  match error with
  | Some e => js_or (stack e) (js_or (message e) (toStr e))
  | None => stack (new_Error "missing error")
  end.

(** The model a logged call of a preprocessor belongs to. *)
Definition called_preprocessor (fx : Effect) : option string :=
  match fx with
  | FxPreprocessor m _ => Some m
  | _ => None
  end.

(** The sub-events a reducer's answer asks for. *)
Definition reducer_events (out : ReducerOut) : list Event :=
  match out with
  | RObject _ (EventsArray l) => l
  | _ => []
  end.

Definition is_setWritable (fx : Effect) : bool :=
  match fx with FxSetWritable _ _ => true | _ => false end.

(** The waiter set is well formed: every waiter is at or below
    [_maxWaitingFor], its future is pending, and no other version shares
    it. *)
Definition waiters_ok (w : Waiters) : Prop :=
  forall n id, _waitingFor w !! n = Some id ->
    n <= _maxWaitingFor w /\
    promises w !! id = Some Pending /\
    forall n', _waitingFor w !! n' = Some id -> n' = n.

(** What the constructor finds for one definition (lines 187-250): whether
    the model ends up with a deriver, a preprocessor, a reducer. *)
Definition def_has_deriver (ESModel : ModelClass) (d : ModelDef) : bool :=
  let Model := default ESModel (def_Model d) in
  let RWModel := default Model (def_RWModel d) in
  def_deriver d || static_deriver RWModel.

Definition def_has_preprocessor (ESModel : ModelClass) (d : ModelDef) : bool :=
  def_preprocessor d || static_preprocessor (default ESModel (def_Model d)).

Definition def_has_reducer (ESModel : ModelClass) (d : ModelDef) : bool :=
  def_reducer d || static_reducer (default ESModel (def_Model d)).

(** The keys of the entries whose definition satisfies [p]. *)
Definition keys_where (p : ModelDef -> bool)
    (models : list (string * option ModelDef)) : list string :=
  map fst (List.filter (fun entry => match snd entry with
                                     | Some d => p d
                                     | None => false
                                     end) models).

(** An entry the loop of the constructor accepts, names apart: the
    definition is there and gives the model something to do. *)
Definition usable_entry (ESModel : ModelClass) (entry : string * option ModelDef)
  : bool :=
  match snd entry with
  | Some d =>
      def_has_deriver ESModel d || def_has_preprocessor ESModel d
      || def_has_reducer ESModel d
  | None => false
  end.

(** * Properties *)

(** Membership in a list that has been computed. *)
Ltac in_computed_list :=
  repeat match goal with |- _ \/ _ => (left; reflexivity) || right end.

(** ** The recursion of [_handleEvent] *)

(** The equation the source is written with: below the guard,
    [_handleEvent] runs its body and calls itself at [depth + 1] for the
    sub-events. *)
Lemma _handleEvent_unfold db origEvent depth s :
  _handleEvent db origEvent depth s =
  if (100 <? depth)%nat then (too_deep origEvent, s)
  else handleEvent_body (fun sub => _handleEvent db sub (S depth)) db origEvent depth s.
Proof.
  unfold _handleEvent.
  destruct (100 <? depth)%nat eqn:Hd.
  - destruct (101 - depth)%nat; simpl; rewrite Hd; reflexivity.
  - apply Nat.ltb_ge in Hd.
    replace (101 - depth)%nat with (S (100 - depth)) by lia.
    replace (101 - S depth)%nat with (100 - depth)%nat by lia.
    simpl. rewrite (proj2 (Nat.ltb_ge 100 depth) Hd). reflexivity.
Qed.

(** ** Stores along the pipeline *)

Lemma steps_refl P s : steps P s s.
Proof.
  repeat split; try reflexivity. exists []. rewrite app_nil_r. auto.
Qed.

Lemma steps_trans P s1 s2 s3 : steps P s1 s2 -> steps P s2 s3 -> steps P s1 s3.
Proof.
  intros (Hs1 & Hv1 & l1 & Hl1 & HP1) (Hs2 & Hv2 & l2 & Hl2 & HP2).
  repeat split; try congruence.
  exists (l1 ++ l2). split.
  - rewrite Hl2, Hl1, app_assoc. reflexivity.
  - apply Forall_app; auto.
Qed.

Lemma steps_impl (P Q : Effect -> Prop) s s' :
  (forall fx, P fx -> Q fx) -> steps P s s' -> steps Q s s'.
Proof.
  intros HPQ (Hs & Hv & l & Hl & HP). repeat split; auto.
  exists l. split; auto. eapply Forall_impl; eauto.
Qed.

Lemma steps_add_log (P : Effect -> Prop) fx s : P fx -> steps P s (add_log fx s).
Proof.
  intros HP. repeat split; try reflexivity. exists [fx]. split; auto.
Qed.

Lemma steps_set_tables P t s : steps P s (set_tables t s).
Proof.
  repeat split; try reflexivity. exists []. simpl. rewrite app_nil_r. auto.
Qed.

Lemma steps_advances P s s' : steps P s s' -> advances s s'.
Proof. intros (Hs & _ & l & Hl & _). split; eauto. Qed.

Lemma advances_refl s : advances s s.
Proof. split; auto. exists []. rewrite app_nil_r. reflexivity. Qed.

Lemma advances_trans s1 s2 s3 : advances s1 s2 -> advances s2 s3 -> advances s1 s3.
Proof.
  intros (Hs1 & l1 & Hl1) (Hs2 & l2 & Hl2). split; try congruence.
  exists (l1 ++ l2). rewrite Hl2, Hl1, app_assoc. reflexivity.
Qed.

Lemma preprocessor_loop_steps models orig cur s :
  steps (fun fx => is_phase_call fx = true) s
        (snd (preprocessor_loop models orig cur s)).
Proof.
  revert orig cur s. induction models as [|model rest IH]; intros orig cur s; simpl.
  - apply steps_refl.
  - destruct (match preprocessor model with Some f => _ | None => _ end)
      as [event' out].
    set (s1 := add_log _ s).
    assert (Hs1 : steps (fun fx => is_phase_call fx = true) s s1)
      by (apply steps_add_log; reflexivity).
    destruct (match out with PThrows e => _ | PReturns x => _ end).
    + exact Hs1.
    + destruct out as [e|[n|]]; (eapply steps_trans; [exact Hs1 | apply IH]).
Qed.

(** The calls of the reducers, in the order of [reducerNames]; they leave
    the rest of the store alone. *)
Lemma reducer_calls_log db event s :
  let s' := reducer_calls db event s in
  log s' = log s ++ map (fun key => FxReducer key event) (reducerNames db) /\
  tables s' = tables s /\ user_version s' = user_version s /\
  savepoints s' = savepoints s.
Proof.
  unfold reducer_calls. revert s.
  induction (reducerNames db) as [|key rest IH]; intros s; cbn [fold_left map].
  - rewrite app_nil_r. auto.
  - destruct (IH (add_log (FxReducer key event) s)) as (Hl & Ht & Hu & Hs).
    rewrite Hl, Ht, Hu, Hs. cbn [add_log log tables user_version savepoints].
    rewrite <- app_assoc. auto.
Qed.

Lemma _reducer_store db event s : snd (_reducer db event s) = reducer_calls db event s.
Proof.
  unfold _reducer. destruct (fold_left _ _ _) as [res pushed].
  destruct (existsb _ _); reflexivity.
Qed.

Lemma _reducer_steps db event s :
  steps (fun fx => is_phase_call fx = true) s (snd (_reducer db event s)).
Proof.
  rewrite _reducer_store.
  destruct (reducer_calls_log db event s) as (Hl & _ & Hu & Hs).
  split; [exact Hs|]. split; [exact Hu|].
  eexists. split; [exact Hl|].
  apply Forall_forall. intros fx Hin. apply list_elem_of_In, List.in_map_iff in Hin.
  destruct Hin as (key & <- & _). reflexivity.
Qed.

Lemma settleAll_preserves {A S : Type} (R : S -> S -> Prop)
    (items : list A) (fn : A -> S -> S * option Exn) :
  (forall s, R s s) ->
  (forall s1 s2 s3, R s1 s2 -> R s2 s3 -> R s1 s3) ->
  (forall i s, R s (fst (fn i s))) ->
  forall s, R s (fst (settleAll items fn s)).
Proof.
  intros Hrefl Htrans Hfn. induction items as [|i rest IH]; intros s; simpl.
  - apply Hrefl.
  - pose proof (Hfn i s) as H1. destruct (fn i s) as [s1 x1].
    pose proof (IH s1) as H2. destruct (settleAll rest fn s1) as [s2 x2].
    simpl in *. eapply Htrans; eauto.
Qed.

Lemma setWritable_all_steps db flag s :
  steps (fun fx => is_phase_call fx = false /\ is_version_write fx = false) s
        (setWritable_all db flag s).
Proof.
  unfold setWritable_all. revert s.
  induction (readWriters db) as [|m rest IH]; intros s; simpl.
  - apply steps_refl.
  - eapply steps_trans; [|apply IH]. apply steps_add_log. auto.
Qed.

Lemma apply_entry_steps db entry s :
  steps (fun fx => is_applyChanges fx = true) s (fst (apply_entry db entry s)).
Proof.
  destruct entry as [nm r]. unfold apply_entry.
  destruct (rwStore db !! nm) as [model|]; [|apply steps_refl].
  destruct (applyChanges model) as [f|]; [|apply steps_refl].
  destruct (f r (tables s)) as [t x]. simpl.
  eapply steps_trans; [|apply steps_set_tables]. apply steps_add_log; reflexivity.
Qed.

Lemma settleAll_apply_steps db entries s :
  steps (fun fx => is_applyChanges fx = true) s
        (fst (settleAll entries (apply_entry db) s)).
Proof.
  apply (settleAll_preserves (steps (fun fx => is_applyChanges fx = true))).
  - apply steps_refl.
  - apply steps_trans.
  - apply apply_entry_steps.
Qed.

Lemma derive_model_steps model st :
  steps (fun fx => is_deriver fx = true) (snd st) (snd (fst (derive_model model st))).
Proof.
  destruct st as [event s]. unfold derive_model.
  destruct (deriver model) as [f|]; [|apply steps_refl].
  destruct (f (tables s) event) as [[t dispatched] x]. simpl.
  eapply steps_trans; [|apply steps_set_tables]. apply steps_add_log; reflexivity.
Qed.

Lemma settleAll_derive_steps models st :
  steps (fun fx => is_deriver fx = true) (snd st)
        (snd (fst (settleAll models derive_model st))).
Proof.
  apply (settleAll_preserves
           (fun a b : Event * Store => steps (fun fx => is_deriver fx = true) (snd a) (snd b))).
  - intros; apply steps_refl.
  - intros ? ? ?; apply steps_trans.
  - apply derive_model_steps.
Qed.

(** A deriver only adds sub-events to the event it is given. *)
Lemma subDispatch_fold_fields dispatched event :
  let event' := fold_left (fun e td => _subDispatch e (fst td) (snd td)) dispatched event in
  v event' = v event /\ type event' = type event /\ data event' = data event /\
  result event' = result event /\ error event' = error event /\
  failedResult event' = failedResult event.
Proof.
  revert event. induction dispatched as [|td rest IH]; intros event; simpl.
  - repeat split.
  - specialize (IH (_subDispatch event (fst td) (snd td))). simpl in IH.
    destruct IH as (? & ? & ? & ? & ? & ?). repeat split; congruence.
Qed.

Lemma settleAll_derive_fields models st :
  let event' := fst (fst (settleAll models derive_model st)) in
  v event' = v (fst st) /\ result event' = result (fst st) /\
  error event' = error (fst st) /\ failedResult event' = failedResult (fst st).
Proof.
  apply (settleAll_preserves
           (fun a b : Event * Store =>
              v (fst b) = v (fst a) /\ result (fst b) = result (fst a) /\
              error (fst b) = error (fst a) /\ failedResult (fst b) = failedResult (fst a))).
  - intros; repeat split.
  - intros ? ? ? (? & ? & ? & ?) (? & ? & ? & ?). repeat split; congruence.
  - intros model [event s]. unfold derive_model.
    destruct (deriver model) as [f|]; [|repeat split].
    destruct (f (tables s) event) as [[t dispatched] x]. simpl.
    pose proof (subDispatch_fold_fields dispatched event) as H. simpl in H.
    tauto.
Qed.

Lemma run_advances_log stmt s : log (run stmt s) = log s ++ [FxRun stmt].
Proof.
  unfold run. destruct stmt; simpl; try reflexivity;
    destruct (find_savepoint x (savepoints s)) as [[[t n] rest]|]; reflexivity.
Qed.

Lemma write_version_advances db event s :
  advances s (fst (write_version db event s)).
Proof.
  unfold write_version.
  destruct (store_fault db (length (log s))); cbn [fst].
  - split; auto. exists [FxRun (version_statement event)]. reflexivity.
  - split; [unfold version_statement; destruct (v event); reflexivity|].
    exists [FxRun (version_statement event)]. apply run_advances_log.
Qed.

Lemma phase_call_no_version_write fx : is_phase_call fx = true -> no_version_write fx.
Proof. destruct fx; simpl; intros H; try discriminate; reflexivity. Qed.

Lemma applyChanges_no_version_write fx : is_applyChanges fx = true -> no_version_write fx.
Proof. destruct fx; simpl; intros H; try discriminate; reflexivity. Qed.

Lemma deriver_no_version_write fx : is_deriver fx = true -> no_version_write fx.
Proof. destruct fx; simpl; intros H; try discriminate; reflexivity. Qed.

(** The store after the apply step of [applyEvent_try]. *)
Lemma apply_step_steps db event s :
  steps (fun fx => is_applyChanges fx = true) (setWritable_all db true s)
    (fst (snd (match result event with
               | Some (entry :: entries) =>
                   ("apply", settleAll (entry :: entries) (apply_entry db)
                                       (setWritable_all db true s))
               | _ => ("???", (setWritable_all db true s, None))
               end))).
Proof.
  destruct (result event) as [[|entry entries]|]; simpl; try apply steps_refl.
  apply (settleAll_apply_steps db (entry :: entries)).
Qed.

Lemma applyEvent_try_steps db event upd s :
  let s' := snd (applyEvent_try db event upd s) in
  advances s s' /\ (upd = false -> steps no_version_write s s').
Proof.
  unfold applyEvent_try.
  pose proof (setWritable_all_steps db true s) as H0.
  pose proof (apply_step_steps db event s) as H1.
  set (s0 := setWritable_all db true s) in *.
  destruct (match result event with Some (entry :: entries) => _ | _ => _ end)
    as [phase1 [s1 x1]]. simpl in H1.
  assert (H01 : steps no_version_write s s1).
  { eapply steps_trans.
    - eapply steps_impl; [|exact H0]. intros fx [_ H]; exact H.
    - eapply steps_impl; [|exact H1]. apply applyChanges_no_version_write. }
  destruct x1 as [e|]; simpl.
  { split; [eapply steps_advances; exact H01 | intros _; exact H01]. }
  destruct upd.
  - pose proof (write_version_advances db event s1) as H2.
    destruct (write_version db event s1) as [s2 x2]. simpl in H2.
    assert (H02 : advances s s2)
      by (eapply advances_trans; [eapply steps_advances; exact H01 | exact H2]).
    destruct x2 as [e|]; simpl; [split; [exact H02 | discriminate]|].
    destruct (negb (has_error event) && negb (bool_decide (deriverModels db = []))).
    + pose proof (settleAll_derive_steps (deriverModels db) (event, s2)) as H3.
      destruct (settleAll (deriverModels db) derive_model (event, s2))
        as [[event3 s3] x3]. simpl in *.
      split; [|discriminate].
      eapply advances_trans; [exact H02 | eapply steps_advances; exact H3].
    + simpl. split; [exact H02 | discriminate].
  - simpl.
    destruct (negb (has_error event) && negb (bool_decide (deriverModels db = []))).
    + pose proof (settleAll_derive_steps (deriverModels db) (event, s1)) as H3.
      destruct (settleAll (deriverModels db) derive_model (event, s1))
        as [[event3 s3] x3]. simpl in *.
      assert (H03 : steps no_version_write s s3).
      { eapply steps_trans; [exact H01|].
        eapply steps_impl; [|exact H3]. apply deriver_no_version_write. }
      split; [eapply steps_advances; exact H03 | intros _; exact H03].
    + simpl. split; [eapply steps_advances; exact H01 | intros _; exact H01].
Qed.

Lemma _applyEvent_steps db event upd s :
  let s' := snd (_applyEvent db event upd s) in
  advances s s' /\ (upd = false -> steps no_version_write s s').
Proof.
  unfold _applyEvent.
  pose proof (applyEvent_try_steps db event upd s) as [Ha Hs].
  destruct (applyEvent_try db event upd s) as [[[phase x] event1] s1].
  simpl in *.
  pose proof (setWritable_all_steps db false s1) as Hf.
  split.
  - eapply advances_trans; [exact Ha | eapply steps_advances; exact Hf].
  - intros Hu. eapply steps_trans; [exact (Hs Hu)|].
    eapply steps_impl; [|exact Hf]. intros fx [_ H]; exact H.
Qed.

Lemma subevents_loop_preserves (R : Store -> Store -> Prop) handle :
  (forall s, R s s) ->
  (forall s1 s2 s3, R s1 s2 -> R s2 s3 -> R s1 s3) ->
  (forall ev s, R s (snd (handle ev s))) ->
  forall n i event s, R s (snd (subevents_loop handle n i event s)).
Proof.
  intros Hrefl Htrans Hh. induction n as [|n IH]; intros i event s; simpl.
  - apply Hrefl.
  - destruct (default [] (events event) !! i) as [subEvent|]; [|apply Hrefl].
    pose proof (Hh (set_v (v event) subEvent) s) as H1.
    destruct (handle (set_v (v event) subEvent) s) as [doneEvent s1]. simpl in H1.
    destruct (has_error (set_v None doneEvent)); simpl; [exact H1|].
    eapply Htrans; [exact H1 | apply IH].
Qed.

Lemma handleEvent_body_steps handle db origEvent depth s :
  (forall ev s, steps no_version_write s (snd (handle ev s))) ->
  let s' := snd (handleEvent_body handle db origEvent depth s) in
  advances s s' /\ (depth <> 0%nat -> steps no_version_write s s').
Proof.
  intros Hh. unfold handleEvent_body.
  pose proof (preprocessor_loop_steps (preprocModels db) origEvent None s) as H1.
  unfold _preprocessor.
  destruct (preprocessor_loop (preprocModels db) origEvent None s)
    as [[event1 orig1] s1]. simpl in H1.
  apply (steps_impl _ _ _ _ phase_call_no_version_write) in H1.
  destruct (has_error event1); simpl.
  { split; [eapply steps_advances; exact H1 | intros _; exact H1]. }
  pose proof (_reducer_steps db orig1 s1) as H2.
  destruct (_reducer db orig1 s1) as [event2 s2]. simpl in H2.
  apply (steps_impl _ _ _ _ phase_call_no_version_write) in H2.
  assert (H12 := steps_trans _ _ _ _ H1 H2).
  destruct (has_error event2); simpl.
  { split; [eapply steps_advances; exact H12 | intros _; exact H12]. }
  pose proof (_applyEvent_steps db event2 (Nat.eqb depth 0) s2) as [H3a H3s].
  destruct (_applyEvent db event2 (Nat.eqb depth 0) s2) as [event3 s3].
  simpl in H3a, H3s.
  assert (Ha : advances s s3)
    by (eapply advances_trans; [eapply steps_advances; exact H12 | exact H3a]).
  assert (Hs : depth <> 0%nat -> steps no_version_write s s3).
  { intros Hd. eapply steps_trans; [exact H12|]. apply H3s.
    destruct depth; [congruence | reflexivity]. }
  destruct (has_error event3); simpl; [split; assumption|].
  destruct (events event3) as [evs|]; simpl; [|split; assumption].
  pose proof (subevents_loop_preserves (steps no_version_write) handle
                (steps_refl _) (steps_trans _) Hh (length evs) 0%nat event3 s3) as H4.
  split.
  - eapply advances_trans; [exact Ha | eapply steps_advances; exact H4].
  - intros Hd. eapply steps_trans; [exact (Hs Hd) | exact H4].
Qed.

Lemma handleEvent_at_steps k db origEvent depth s :
  let s' := snd (handleEvent_at k db origEvent depth s) in
  advances s s' /\ (depth <> 0%nat -> steps no_version_write s s').
Proof.
  revert origEvent depth s. induction k as [|k IH]; intros origEvent depth s; simpl.
  - destruct (100 <? depth)%nat; simpl;
      (split; [apply advances_refl | intros _; apply steps_refl]).
  - destruct (100 <? depth)%nat; simpl.
    + split; [apply advances_refl | intros _; apply steps_refl].
    + apply handleEvent_body_steps.
      intros ev s0. apply (IH ev (S depth) s0). discriminate.
Qed.

(** The pipeline leaves the savepoints alone, and below the top level it
    neither writes nor changes the persisted version. *)
Lemma _handleEvent_steps db origEvent depth s :
  let s' := snd (_handleEvent db origEvent depth s) in
  advances s s' /\ (depth <> 0%nat -> steps no_version_write s s').
Proof. apply handleEvent_at_steps. Qed.

(** ** The recursion guard *)

(** C7: an event handled at a depth above 100 comes back at once with the
    error key [_handle] set to "events recursing too deep": the store,
    which holds the log of every call of a preprocessor, reducer,
    [applyChanges] or deriver, is the one the call started with, and the
    event is otherwise unchanged. *)
Theorem C7_recursion_guard db origEvent depth s :
  (100 < depth)%nat ->
  let '(event, s') := _handleEvent db origEvent depth s in
  s' = s /\
  (exists m, error event = Some m /\
             m !! "_handle" = Some "events recursing too deep") /\
  v event = v origEvent /\ type event = type origEvent /\
  data event = data origEvent /\ result event = result origEvent /\
  failedResult event = failedResult origEvent /\ events event = events origEvent.
Proof.
  intros Hd. rewrite _handleEvent_unfold.
  rewrite (proj2 (Nat.ltb_lt 100 depth) Hd).
  split; [reflexivity|]. split; [|repeat split].
  eexists. split; [reflexivity|]. apply lookup_insert_eq.
Qed.

Lemma C7_recursion_guard_witness :
  (100 < 101)%nat /\
  let '(event, s') :=
    _handleEvent canonicalizing_db (example_event 1 "LOOP" "{}") 101 empty_store in
  s' = empty_store /\
  (exists m, error event = Some m /\
             m !! "_handle" = Some "events recursing too deep") /\
  v event = Some 1 /\ type event = "LOOP" /\
  data event = "{}" /\ result event = None /\
  failedResult event = None /\ events event = None.
Proof.
  split; [lia|].
  apply (C7_recursion_guard canonicalizing_db (example_event 1 "LOOP" "{}") 101
           empty_store).
  lia.
Defined.

(** ** Preprocessed events and the reducers *)

(** C4: the source hands the reducers the object [_handleEvent] was called
    with, not the event [_preprocessor] returned.  With a preprocessor that
    returns a new event whose [data] is "canonical", the reducer is still
    called with the original event, and the result is computed from the
    original [data]. *)
Lemma C4_reducer_called_with_original_event :
  let origEvent := example_event 1 "ADD" "raw" in
  let preprocessed := fst (fst (_preprocessor canonicalizing_db origEvent empty_store)) in
  let '(event, s) := _handleEvent canonicalizing_db origEvent 0 empty_store in
  data preprocessed = "canonical" /\
  has_error preprocessed = false /\
  In (FxReducer "m" origEvent) (log s) /\
  ~ In (FxReducer "m" preprocessed) (log s) /\
  result event = Some [("m", mkReducerResult "" "raw")] /\
  data event = "raw".
Proof.
  vm_compute. repeat split; auto.
  intros H. repeat (destruct H as [H|H]; [discriminate H|]). exact H.
Qed.

(** ** Waiters and observers *)

Lemma logged_fold_waiters keys e :
  let e' := fold_left (fun e k => logged (FxQueueGet k) e) keys e in
  waiters e' = waiters e /\ listeners e' = listeners e /\
  queue e' = queue e /\ polling e' = polling e /\
  log (rw e') = log (rw e) ++ map FxQueueGet keys.
Proof.
  revert e. induction keys as [|k rest IH]; intros e; simpl.
  - rewrite app_nil_r. repeat split.
  - destruct (IH (logged (FxQueueGet k) e)) as (Hw & Hl & Hq & Hp & Hlog).
    simpl in *. rewrite Hw, Hl, Hq, Hp, Hlog, <- app_assoc. repeat split.
Qed.

Lemma sweep_frame n e :
  let e' := sweep n e in
  promises (waiters e') = promises (waiters e) /\
  listeners e' = listeners e /\
  exists keys, log (rw e') = log (rw e) ++ map FxQueueGet keys.
Proof.
  unfold sweep. destruct (Z.leb (_maxWaitingFor (waiters e)) n).
  - match goal with
    | |- context [fold_left _ ?keys ?e0] =>
        destruct (logged_fold_waiters keys e0) as (Hw & Hl & _ & _ & Hlog);
        simpl in Hw, Hl, Hlog; simpl; rewrite Hw, Hl; simpl;
        repeat split; exists keys; exact Hlog
    end.
  - repeat split. exists []. simpl. rewrite app_nil_r. reflexivity.
Qed.

Lemma quiet_listenerCount nm e : listenerCount nm (quiet e) = listenerCount nm e.
Proof.
  unfold listenerCount, quiet. simpl. rewrite lookup_fmap.
  destruct (listeners e !! nm) as [ls|]; simpl; [apply length_map | reflexivity].
Qed.

Lemma quiet_fold_logged keys e :
  quiet (fold_left (fun e k => logged (FxQueueGet k) e) keys e) =
  fold_left (fun e k => logged (FxQueueGet k) e) keys (quiet e).
Proof.
  revert e. induction keys as [|k rest IH]; intros e; simpl; [reflexivity|].
  rewrite IH. reflexivity.
Qed.

Lemma quiet_sweep n e : quiet (sweep n e) = sweep n (quiet e).
Proof.
  unfold sweep. simpl.
  destruct (Z.leb (_maxWaitingFor (waiters e)) n); [|reflexivity].
  rewrite quiet_fold_logged. reflexivity.
Qed.

Lemma quiet_settle id p e : quiet (settle id p e) = settle id p (quiet e).
Proof.
  unfold settle. simpl. destruct (promises (waiters e) !! id) as [[| |]|]; reflexivity.
Qed.

(** Replacing the listeners by ones that return normally changes nothing
    else in what [_triggerEventListeners] does. *)
Lemma quiet_triggerEventListeners event e :
  quiet (_triggerEventListeners event e) = _triggerEventListeners event (quiet e).
Proof.
  unfold _triggerEventListeners. simpl.
  set (o := v event ≫= _).
  set (e1 := match v event, o with Some n, Some _ => _ | _, _ => e end).
  set (e1q := match v event, o with Some n, Some _ => _ | _, _ => quiet e end).
  assert (H1 : quiet e1 = e1q).
  { unfold e1, e1q. destruct (v event); [destruct o|]; reflexivity. }
  set (e2 := match v event with Some n => sweep n e1 | None => e1 end).
  set (e2q := match v event with Some n => sweep n e1q | None => e1q end).
  assert (H2 : quiet e2 = e2q).
  { unfold e2, e2q. destruct (v event); [rewrite quiet_sweep|]; rewrite H1; reflexivity. }
  destruct (has_error event).
  - rewrite <- H2, quiet_listenerCount.
    destruct (0 <? listenerCount "error" e2)%nat; reflexivity.
  - rewrite <- H2. destruct o; [rewrite quiet_settle|]; reflexivity.
Qed.

Lemma settle_frame id p e :
  listeners (settle id p e) = listeners e /\ rw (settle id p e) = rw e.
Proof.
  unfold settle. destruct (promises (waiters e) !! id) as [[| |]|]; split; reflexivity.
Qed.

Lemma _triggerEventListeners_listeners event e :
  listeners (_triggerEventListeners event e) = listeners e.
Proof.
  unfold _triggerEventListeners.
  set (o := v event ≫= _).
  set (e1 := match v event, o with Some n, Some _ => _ | _, _ => e end).
  assert (H1 : listeners e1 = listeners e).
  { unfold e1. destruct (v event); [destruct o|]; reflexivity. }
  set (e2 := match v event with Some n => sweep n e1 | None => e1 end).
  assert (H2 : listeners e2 = listeners e).
  { unfold e2. destruct (v event); [|exact H1].
    destruct (sweep_frame z e1) as (_ & Hl & _). simpl in Hl. congruence. }
  destruct (has_error event).
  - destruct (0 <? listenerCount "error" e2)%nat; simpl; exact H2.
  - destruct o; [rewrite (proj1 (settle_frame _ _ _))|]; simpl; exact H2.
Qed.

(** No future is rejected by [_triggerEventListeners], and an event with an
    error leaves every future as it was. *)
Lemma _triggerEventListeners_error_promises event e :
  has_error event = true ->
  promises (waiters (_triggerEventListeners event e)) = promises (waiters e).
Proof.
  intros He. unfold _triggerEventListeners. rewrite He.
  set (o := v event ≫= _).
  set (e1 := match v event, o with Some n, Some _ => _ | _, _ => e end).
  assert (H1 : promises (waiters e1) = promises (waiters e)).
  { unfold e1. destruct (v event); [destruct o|]; reflexivity. }
  set (e2 := match v event with Some n => sweep n e1 | None => e1 end).
  assert (H2 : promises (waiters e2) = promises (waiters e)).
  { unfold e2. destruct (v event); [|exact H1].
    destruct (sweep_frame z e1) as (Hp & _). simpl in Hp. congruence. }
  destruct (0 <? listenerCount "error" e2)%nat; simpl; exact H2.
Qed.

(** C2: the source removes the waiter of a failed event but never calls its
    [reject].  After [dispatch('X', '{}')] on a model whose reducer throws,
    one round of the loop commits event 1 with its error; the waiter is gone
    from [_waitingFor] and the future that [dispatch] returned is still
    pending. *)
Lemma C2_waiter_of_failed_event_stays_pending :
  let '(future, e1) := dispatch "X" "{}" None fresh_engine in
  let '(round, e2) := waitForEvent_round throwing_db 0 0 e1 in
  future = HWaiting 0 /\
  _waitingFor (waiters e1) !! 1 = Some 0%nat /\
  (exists event m, queue e2 !! 1 = Some event /\ error event = Some m /\
                   m !! "reduce_f" = Some "Error: boom") /\
  In (FxEmit "error" (default (example_event 1 "X" "{}") (queue e2 !! 1))) (log (rw e2)) /\
  _waitingFor (waiters e2) !! 1 = None /\
  promises (waiters e2) = [Pending].
Proof.
  vm_compute. repeat split; auto.
  - eexists _, _. repeat split; reflexivity.
  - in_computed_list.
Qed.

Lemma filter_emit_queue_gets keys : List.filter is_emit (map FxQueueGet keys) = [].
Proof. induction keys; simpl; auto. Qed.

(** What [_triggerEventListeners] adds to the log, as far as [emit] is
    concerned. *)
Lemma _triggerEventListeners_emits event e :
  exists l, log (rw (_triggerEventListeners event e)) = log (rw e) ++ l /\
    List.filter is_emit l =
      if has_error event
      then if (0 <? listenerCount "error" e)%nat then [FxEmit "error" event] else []
      else [FxEmit "result" event].
Proof.
  unfold _triggerEventListeners.
  set (o := v event ≫= _).
  set (e1 := match v event, o with Some n, Some _ => _ | _, _ => e end).
  assert (H1 : rw e1 = rw e /\ listeners e1 = listeners e).
  { unfold e1. destruct (v event); [destruct o|]; split; reflexivity. }
  destruct H1 as [H1r H1l].
  set (e2 := match v event with Some n => sweep n e1 | None => e1 end).
  assert (H2 : listeners e2 = listeners e /\
               exists keys, log (rw e2) = log (rw e) ++ map FxQueueGet keys).
  { unfold e2. destruct (v event).
    - destruct (sweep_frame z e1) as (_ & Hl & keys & Hlog). simpl in Hl, Hlog.
      split; [congruence|]. exists keys. rewrite Hlog, H1r. reflexivity.
    - split; [exact H1l|]. exists []. rewrite H1r. simpl.
      rewrite app_nil_r. reflexivity. }
  destruct H2 as (H2l & keys & H2log).
  assert (Hc : listenerCount "error" e2 = listenerCount "error" e)
    by (unfold listenerCount; rewrite H2l; reflexivity).
  destruct (has_error event).
  - rewrite Hc. destruct (0 <? listenerCount "error" e)%nat; simpl.
    + exists (map FxQueueGet keys ++ [FxEmit "error" event]). split.
      * rewrite H2log, <- app_assoc. reflexivity.
      * rewrite List.filter_app, filter_emit_queue_gets. reflexivity.
    + exists (map FxQueueGet keys). split; [exact H2log|].
      apply filter_emit_queue_gets.
  - exists (map FxQueueGet keys ++ [FxEmit "result" event]). split.
    + destruct o; [rewrite (proj2 (settle_frame _ _ _))|];
        simpl; rewrite H2log, <- app_assoc; reflexivity.
    + rewrite List.filter_app, filter_emit_queue_gets. reflexivity.
Qed.

(** C5 (as the source has it): for a processed event the engine emits
    ['result'] when the event has no error, and ['error'] when it has one and
    an ['error'] listener exists; these are all the observer events it emits
    (no ['handled']).  What a listener throws is caught and ignored: the
    engine ends in the state it would reach if every listener had returned
    normally. *)
Theorem C5_observer_events event e :
  let e' := _triggerEventListeners event e in
  (exists l, log (rw e') = log (rw e) ++ l /\
     List.filter is_emit l =
       if has_error event
       then if (0 <? listenerCount "error" e)%nat then [FxEmit "error" event] else []
       else [FxEmit "result" event]) /\
  set_listeners (listeners e) (_triggerEventListeners event (quiet e)) = e'.
Proof.
  split.
  - apply _triggerEventListeners_emits.
  - rewrite <- quiet_triggerEventListeners.
    rewrite <- (_triggerEventListeners_listeners event e).
    destruct (_triggerEventListeners event e). reflexivity.
Qed.

(** C5, the claim as stated fails: with a listener registered for
    ['handled'], handling a successful event emits ['result'] and nothing
    else. *)
Lemma C5_handled_is_never_emitted :
  let event := example_event 1 "ADD" "{}" in
  let e' := _triggerEventListeners event fresh_engine in
  (0 < listenerCount "handled" fresh_engine)%nat /\
  log (rw fresh_engine) = [] /\
  log (rw e') = [FxEmit "result" event] /\
  ~ In (FxEmit "handled" event) (log (rw e')).
Proof.
  vm_compute. repeat split; auto.
  intros [H|[]]. discriminate H.
Qed.

(** ** The polling loop *)

Lemma log_extends_refl e : log_extends e e.
Proof. exists []. rewrite app_nil_r. reflexivity. Qed.

Lemma log_extends_trans e1 e2 e3 :
  log_extends e1 e2 -> log_extends e2 e3 -> log_extends e1 e3.
Proof.
  intros [l1 H1] [l2 H2]. exists (l1 ++ l2). rewrite H2, H1, app_assoc. reflexivity.
Qed.

Lemma log_extends_logged fx e : log_extends e (logged fx e).
Proof. exists [fx]. reflexivity. Qed.

Lemma log_extends_rw e e' : advances (rw e) (rw e') -> log_extends e e'.
Proof. intros [_ H]. exact H. Qed.

Lemma _triggerEventListeners_log_extends event e :
  log_extends e (_triggerEventListeners event e).
Proof.
  destruct (_triggerEventListeners_emits event e) as [l [H _]]. exists l. exact H.
Qed.

Lemma move_result_to_failedResult_fields e :
  let e' := move_result_to_failedResult e in
  v e' = v e /\ error e' = error e /\ result e' = None /\
  failedResult e' = match result e with Some r => Some r | None => failedResult e end.
Proof.
  unfold move_result_to_failedResult.
  destruct (result e) as [r|] eqn:Hr; simpl; repeat split; auto.
Qed.

Lemma handle_in_transaction_log_extends db event e :
  log_extends e (snd (handle_in_transaction db event e)).
Proof.
  unfold handle_in_transaction, getVersion.
  destruct (match v event with Some n => Z.leb n (user_version (rw e)) | None => false end).
  - apply log_extends_logged.
  - set (s := run (SAVEPOINT "handle") _).
    pose proof (proj1 (_handleEvent_steps db
                         (set_result None (set_error None event)) 0 s)) as [_ [l Hl]].
    destruct (_handleEvent db (set_result None (set_error None event)) 0 s)
      as [r s1]. simpl in Hl.
    assert (Hs : log s = log (rw e) ++ [FxGetVersion; FxRun (SAVEPOINT "handle")]).
    { unfold s. rewrite run_advances_log. simpl. rewrite <- app_assoc. reflexivity. }
    destruct (has_error r); unfold queue_set, log_extends.
    + destruct (v (move_result_to_failedResult r));
        cbn [snd logged set_queue set_rw rw add_log log];
        rewrite run_advances_log, Hl; repeat rewrite <- app_assoc;
        eexists; reflexivity.
    + destruct (v r);
        cbn [snd logged set_queue set_rw rw add_log log];
        rewrite run_advances_log, Hl; repeat rewrite <- app_assoc;
        eexists; reflexivity.
Qed.

(** ** The version of the returned event *)

Lemma preprocessor_check_None_v v0 nerror nv ntype :
  preprocessor_check v0 nerror nv ntype = None -> nv = v0.
Proof.
  unfold preprocessor_check. destruct nerror; [discriminate|].
  destruct (bool_decide (nv = v0)) eqn:Hb; simpl; [|discriminate].
  intros _. apply bool_decide_eq_true in Hb. exact Hb.
Qed.

Lemma preprocessor_loop_keeps_v models orig cur s :
  Forall (fun model =>
            forall f t event, preprocessor model = Some f -> v (fst (f t event)) = v event)
         models ->
  v (default orig cur) = v orig ->
  let '(event, orig', _) := preprocessor_loop models orig cur s in
  v event = v orig /\ v orig' = v orig.
Proof.
  intros Hall. revert orig cur s.
  induction Hall as [|model rest Hm Hrest IH]; intros orig cur s Hcur; simpl.
  - split; [exact Hcur | reflexivity].
  - assert (Hcall : v (fst (match preprocessor model with
                            | Some f => f (tables s) (default orig cur)
                            | None => (default orig cur,
                                PThrows (Some (new_TypeError
                                  "model.preprocessor is not a function")))
                            end)) = v orig).
    { destruct (preprocessor model) as [f|] eqn:Hf; simpl; [|exact Hcur].
      rewrite (Hm f _ _ eq_refl). exact Hcur. }
    destruct (match preprocessor model with Some f => _ | None => _ end)
      as [event' out]. simpl in Hcall.
    set (orig' := match cur with None => event' | Some _ => orig end).
    set (cur' := match cur with None => None | Some _ => Some event' end).
    assert (Ho : v orig' = v orig) by (unfold orig'; destruct cur; auto).
    assert (Hc : v (default orig' cur') = v orig')
      by (unfold orig', cur'; destruct cur; simpl; congruence).
    destruct (match out with PThrows e => _ | PReturns x => _ end) as [t|] eqn:Hchk.
    + simpl. split; [exact Hcur | exact Ho].
    + destruct out as [e|[n|]].
      * specialize (IH orig' cur' (add_log (FxPreprocessor (name model) (default orig cur)) s) Hc).
        destruct (preprocessor_loop rest orig' cur' _) as [[ev o] s'].
        destruct IH; split; congruence.
      * apply preprocessor_check_None_v in Hchk.
        assert (Hn : v (default orig' (Some n)) = v orig') by (simpl; congruence).
        specialize (IH orig' (Some n) (add_log (FxPreprocessor (name model) (default orig cur)) s) Hn).
        destruct (preprocessor_loop rest orig' (Some n) _) as [[ev o] s'].
        destruct IH; split; congruence.
      * specialize (IH orig' cur' (add_log (FxPreprocessor (name model) (default orig cur)) s) Hc).
        destruct (preprocessor_loop rest orig' cur' _) as [[ev o] s'].
        destruct IH; split; congruence.
Qed.

Lemma _reducer_keeps_v db event s : v (fst (_reducer db event s)) = v event.
Proof.
  unfold _reducer. destruct (fold_left _ _ _) as [res pushed].
  destruct (existsb _ _); reflexivity.
Qed.

Lemma applyEvent_try_fields db event upd s :
  let event' := snd (fst (applyEvent_try db event upd s)) in
  v event' = v event /\ result event' = result event /\
  error event' = error event /\ failedResult event' = failedResult event.
Proof.
  unfold applyEvent_try.
  destruct (match result event with Some (entry :: entries) => _ | _ => _ end)
    as [phase1 [s1 x1]].
  destruct x1; simpl; [repeat split|].
  destruct (if upd then _ else _) as [phase2 [s2 x2]].
  destruct x2; simpl; [repeat split|].
  destruct (negb (has_error event) && negb (bool_decide (deriverModels db = [])));
    simpl; [|repeat split].
  pose proof (settleAll_derive_fields (deriverModels db) (event, s2)) as H.
  destruct (settleAll (deriverModels db) derive_model (event, s2)) as [[event3 s3] x3].
  exact H.
Qed.

Lemma _applyEvent_keeps_v db event upd s :
  v (fst (_applyEvent db event upd s)) = v event.
Proof.
  unfold _applyEvent.
  pose proof (applyEvent_try_fields db event upd s) as (Hv & _).
  destruct (applyEvent_try db event upd s) as [[[phase x] event1] s1].
  simpl in *. destruct x; simpl; [|exact Hv].
  rewrite (proj1 (move_result_to_failedResult_fields event1)). exact Hv.
Qed.

Lemma subevents_loop_keeps_v handle n i event s :
  v (fst (subevents_loop handle n i event s)) = v event.
Proof.
  revert i event s. induction n as [|n IH]; intros i event s; simpl; [reflexivity|].
  destruct (default [] (events event) !! i) as [subEvent|]; [|reflexivity].
  destruct (handle (set_v (v event) subEvent) s) as [doneEvent s1].
  destruct (has_error (set_v None doneEvent)); simpl; [reflexivity|].
  rewrite IH. reflexivity.
Qed.

(** The pipeline returns the event with the [v] it came with, as long as no
    preprocessor changes [v] on its argument. *)
Lemma _handleEvent_keeps_v db origEvent depth s :
  preprocessors_keep_v db ->
  v (fst (_handleEvent db origEvent depth s)) = v origEvent.
Proof.
  intros Hk. rewrite _handleEvent_unfold.
  destruct (100 <? depth)%nat; [reflexivity|].
  unfold handleEvent_body, _preprocessor.
  pose proof (preprocessor_loop_keeps_v (preprocModels db) origEvent None s Hk eq_refl)
    as H1.
  destruct (preprocessor_loop (preprocModels db) origEvent None s)
    as [[event1 orig1] s1]. destruct H1 as [H1 H1'].
  destruct (has_error event1); [exact H1|].
  pose proof (_reducer_keeps_v db orig1 s1) as H2.
  destruct (_reducer db orig1 s1) as [event2 s2]. simpl in H2.
  destruct (has_error event2); [simpl; congruence|].
  pose proof (_applyEvent_keeps_v db event2 (Nat.eqb depth 0) s2) as H3.
  destruct (_applyEvent db event2 (Nat.eqb depth 0) s2) as [event3 s3]. simpl in H3.
  destruct (has_error event3); [simpl; congruence|].
  destruct (events event3); [|simpl; congruence].
  rewrite subevents_loop_keeps_v. congruence.
Qed.

(** ** Retry and back-off *)

Lemma back_off_frame db errorCount e :
  let e' := back_off db errorCount e in
  log (rw e') = log (rw e) ++ closed_handles db ++ [FxWait (5000 * errorCount)] /\
  user_version (rw e') = user_version (rw e) /\
  polling e' = polling e /\ queue e' = queue e.
Proof.
  unfold back_off, closed_handles. simpl.
  destruct (String.eqb (rwDb_file db) ":memory:");
    destruct (String.eqb (queue_db_file db) ":memory:"); simpl;
    repeat rewrite <- app_assoc; repeat split.
Qed.

Lemma withTransaction_log_extends {A : Type} db (fn : Engine -> A * Engine) e :
  (forall e0, log_extends e0 (snd (fn e0))) ->
  log_extends e (snd (withTransaction db fn e)).
Proof.
  intros Hfn. unfold withTransaction.
  destruct (store_fault db (length (log (rw e)))); [apply log_extends_logged|].
  pose proof (Hfn (logged FxWithTransaction e)) as H.
  destruct (fn (logged FxWithTransaction e)) as [a e1]. simpl in *.
  eapply log_extends_trans; [apply log_extends_logged|].
  destruct H as [l Hl]. exists l. exact Hl.
Qed.

Lemma after_transaction_log_extends lastV errorCount resultEvent e :
  log_extends e (snd (after_transaction lastV errorCount resultEvent e)).
Proof.
  unfold after_transaction.
  destruct (if has_error resultEvent then _ else _) as [lastV' errorCount'].
  pose proof (_triggerEventListeners_log_extends resultEvent e) as H.
  destruct (_reallyStop _ || _); simpl; exact H.
Qed.

(** C8 (as the source has it): a round of the loop entered with a positive
    error count gives up with "Giving up on processing event <lastV+1>" when
    the count exceeds [MAX_RETRY = 38], without any other effect.  Otherwise
    it first closes, among the read-only, read-write and queue handles, those
    whose database is not [':memory:'], then waits 5000 ms times the error
    count, and only then asks the queue for the event after the persisted
    version, the one that failed (a failed round leaves the version where it
    was, [failed_round_same_data]). *)
Theorem C8_back_off_and_give_up db lastV errorCount e :
  0 < errorCount ->
  (_minVersion (polling e) = 0 \/ lastV < _minVersion (polling e)) ->
  let '(round, e') := waitForEvent_round db lastV errorCount e in
  MAX_RETRY = 38 /\
  (MAX_RETRY < errorCount ->
     round = Throws (new_Error ("Giving up on processing event "
                                  +:+ string_of_Z (lastV + 1))) /\
     e' = e) /\
  (errorCount <= MAX_RETRY ->
     exists noBlock rest,
       log (rw e') =
         log (rw e) ++ closed_handles db ++
         [FxWait (5000 * errorCount); FxGetVersion;
          FxGetNext (user_version (rw e)) noBlock] ++ rest).
Proof.
  intros Hpos Hcond. unfold waitForEvent_round.
  assert (Hc : negb (Z.eqb (_minVersion (polling e)) 0
                     || Z.ltb lastV (_minVersion (polling e))) = false).
  { apply negb_false_iff, orb_true_iff.
    destruct Hcond as [H|H]; [left; apply Z.eqb_eq | right; apply Z.ltb_lt]; exact H. }
  rewrite Hc.
  assert (Hnz : Z.eqb errorCount 0 = false) by (apply Z.eqb_neq; lia).
  rewrite Hnz. cbn [negb andb].
  destruct (Z.ltb MAX_RETRY errorCount) eqn:Hmax.
  - apply Z.ltb_lt in Hmax. split; [reflexivity|]. split; [auto | lia].
  - apply Z.ltb_ge in Hmax.
    destruct (back_off_frame db errorCount e) as (Hlog & Hver & Hpol & Hq).
    cbn zeta in Hlog, Hver, Hpol, Hq.
    remember (back_off db errorCount e) as e1 eqn:He1. clear He1.
    unfold getVersion. rewrite Hver.
    set (noBlock := negb (_isPolling (polling e) || negb (Z.eqb (_minVersion (polling e)) 0))).
    remember (logged FxGetVersion e1) as e2 eqn:He2.
    assert (Hlog2 : log (rw e2) =
                    log (rw e) ++ closed_handles db ++
                    [FxWait (5000 * errorCount); FxGetVersion]).
    { rewrite He2. cbn [logged set_rw rw add_log log]. rewrite Hlog.
      repeat rewrite <- app_assoc. reflexivity. }
    clear He2.
    assert (Hgoal : forall e3, log_extends (logged (FxGetNext (user_version (rw e)) noBlock) e2) e3 ->
              exists rest, log (rw e3) =
                log (rw e) ++ closed_handles db ++
                [FxWait (5000 * errorCount); FxGetVersion;
                 FxGetNext (user_version (rw e)) noBlock] ++ rest).
    { intros e3 [l Hl]. exists l. rewrite Hl.
      cbn [logged set_rw rw add_log log]. rewrite Hlog2.
      repeat rewrite <- app_assoc. reflexivity. }
    destruct (store_fault db (length (log (rw e2)))).
    + split; [reflexivity|]. split; [lia|]. intros _. exists noBlock.
      apply Hgoal, log_extends_refl.
    + unfold queue_getNext.
      destruct (next_key (user_version (rw e)) (queue e2)) as [k|].
      * destruct (set_v (Some k) <$> queue e2 !! k) as [event|].
        -- pose proof (withTransaction_log_extends db (handle_in_transaction db event)
                         (logged (FxGetNext (user_version (rw e)) noBlock) e2)
                         (handle_in_transaction_log_extends db event)) as Ht.
           destruct (withTransaction db (handle_in_transaction db event) _) as [r e4].
           cbn [snd] in Ht.
           destruct r as [x|[resultEvent|]].
           ++ pose proof (after_transaction_log_extends lastV errorCount
                            (set_error (Some {[ "_SQLite" := errorToString x ]}) event) e4) as Ha.
              destruct (after_transaction _ _ _ e4) as [round e5].
              split; [reflexivity|]. split; [lia|]. intros _. exists noBlock.
              apply Hgoal. eapply log_extends_trans; eauto.
           ++ pose proof (after_transaction_log_extends (default 0 (v event)) errorCount
                            resultEvent e4) as Ha.
              destruct (after_transaction _ _ _ e4) as [round e5].
              split; [reflexivity|]. split; [lia|]. intros _. exists noBlock.
              apply Hgoal. eapply log_extends_trans; eauto.
           ++ split; [reflexivity|]. split; [lia|]. intros _. exists noBlock.
              apply Hgoal. exact Ht.
        -- split; [reflexivity|]. split; [lia|]. intros _. exists noBlock.
           apply Hgoal, log_extends_refl.
      * destruct noBlock eqn:Hnb;
          (split; [reflexivity|]; split; [lia|]; intros _; eexists;
           apply Hgoal, log_extends_refl).
Qed.

Lemma C8_back_off_and_give_up_witness :
  let e := snd (dispatch "X" "{}" None fresh_engine) in
  0 < 1 /\
  (_minVersion (polling e) = 0 \/ 0 < _minVersion (polling e)) /\
  let '(round, e') := waitForEvent_round throwing_file_db 0 1 e in
  MAX_RETRY = 38 /\
  (MAX_RETRY < 1 ->
     round = Throws (new_Error ("Giving up on processing event "
                                  +:+ string_of_Z (0 + 1))) /\
     e' = e) /\
  (1 <= MAX_RETRY ->
     exists noBlock rest,
       log (rw e') =
         log (rw e) ++ closed_handles throwing_file_db ++
         [FxWait (5000 * 1); FxGetVersion;
          FxGetNext (user_version (rw e)) noBlock] ++ rest).
Proof.
  intros e.
  split; [lia|]. split; [right; vm_compute; reflexivity|].
  apply (C8_back_off_and_give_up throwing_file_db 0 1 e).
  - lia.
  - right; vm_compute; reflexivity.
Defined.

(** C8, the claim as stated fails: with the database and the queue in
    memory, the round entered after a first failure (error count 1) waits
    5000 ms and takes the failed event up again, but closes no handle. *)
Lemma C8_memory_handles_stay_open :
  let e1 := snd (dispatch "X" "{}" None fresh_engine) in
  let '(round1, e2) := waitForEvent_round throwing_db 0 0 e1 in
  let '(round2, e3) := waitForEvent_round throwing_db 0 1 e2 in
  round1 = Continues 0 1 /\
  round2 = Continues 0 2 /\
  In (FxWait 5000) (log (rw e3)) /\
  List.filter is_close (log (rw e3)) = [].
Proof.
  vm_compute. repeat split; auto.
  in_computed_list.
Qed.

(** ** Model names *)

Lemma addModel_taken Model nm store :
  is_Some (store !! nm) -> exists t, addModel Model nm store = inl t.
Proof.
  intros [inst Hi]. unfold addModel. simpl. rewrite Hi. eauto.
Qed.

Lemma addModel_added Model nm store model store' :
  addModel Model nm store = inr (model, store') -> store' = <[ nm := model ]> store.
Proof.
  unfold addModel. simpl. destruct (store !! nm); [discriminate|].
  intros H. inversion H. reflexivity.
Qed.

Lemma register_model_taken ESModel same key modelDef r :
  is_Some (rwDb_store r !! registered_name (key, modelDef)) ->
  exists t, register_model ESModel same key modelDef r = inl t.
Proof.
  intros Hin. unfold register_model. destruct modelDef as [d|]; [|eauto].
  simpl in Hin.
  destruct (addModel_taken (default (default ESModel (def_Model d)) (def_RWModel d))
              (default key (def_name d)) (rwDb_store r) Hin) as [t Ht].
  rewrite Ht. eauto.
Qed.

Lemma register_model_store ESModel same key modelDef r r' :
  register_model ESModel same key modelDef r = inr r' ->
  forall nm, is_Some (rwDb_store r !! nm) \/ nm = registered_name (key, modelDef) ->
             is_Some (rwDb_store r' !! nm).
Proof.
  unfold register_model. destruct modelDef as [d|]; [|discriminate].
  destruct (addModel _ (default key (def_name d)) (rwDb_store r))
    as [t|[rwModel store']] eqn:Ha; [discriminate|].
  apply addModel_added in Ha.
  destruct (if same then _ else _) as [t|[model dstore']]; [discriminate|].
  destruct (negb _); [discriminate|].
  intros H. inversion H. subst r'. simpl. intros nm [Hin|Heq].
  - rewrite Ha. destruct (decide (default key (def_name d) = nm)) as [->|Hne].
    + rewrite lookup_insert_eq. eauto.
    + rewrite lookup_insert_ne by exact Hne. exact Hin.
  - subst nm. rewrite Ha. simpl. rewrite lookup_insert_eq. eauto.
Qed.

Lemma register_models_taken ESModel same models r i entry :
  models !! i = Some entry ->
  is_Some (rwDb_store r !! registered_name entry) ->
  exists t, register_models ESModel same models r = inl t.
Proof.
  revert r i. induction models as [|[key modelDef] rest IH]; intros r i Hi Hin.
  - rewrite lookup_nil in Hi. discriminate.
  - simpl. destruct (register_model ESModel same key modelDef r) as [t|r'] eqn:Hr;
      [eauto|].
    destruct i as [|i]; simpl in Hi.
    + inversion Hi. subst entry.
      destruct (register_model_taken ESModel same key modelDef r Hin) as [t Ht].
      congruence.
    + apply (IH r' i Hi).
      apply (register_model_store _ _ _ _ _ _ Hr). left. exact Hin.
Qed.

Lemma register_models_duplicate ESModel same models r i j entry1 entry2 :
  (i < j)%nat ->
  models !! i = Some entry1 -> models !! j = Some entry2 ->
  registered_name entry1 = registered_name entry2 ->
  exists t, register_models ESModel same models r = inl t.
Proof.
  revert r i j. induction models as [|[key modelDef] rest IH]; intros r i j Hij Hi Hj Heq.
  - rewrite lookup_nil in Hi. discriminate.
  - simpl. destruct (register_model ESModel same key modelDef r) as [t|r'] eqn:Hr;
      [eauto|].
    destruct j as [|j]; [lia|]. simpl in Hj.
    destruct i as [|i]; simpl in Hi.
    + inversion Hi. subst entry1.
      apply (register_models_taken ESModel same rest r' j entry2 Hj).
      apply (register_model_store _ _ _ _ _ _ Hr). right. symmetry. exact Heq.
    + apply (IH r' i j); auto. lia.
Qed.

(** C10 (as the source has it): the construction of the engine fails when
    two of the models are registered under the same name. *)
Theorem C10_duplicate_model_names_rejected ESModel o models i j entry1 entry2 :
  opt_models o = Some models ->
  i <> j ->
  models !! i = Some entry1 -> models !! j = Some entry2 ->
  registered_name entry1 = registered_name entry2 ->
  exists t, ESDB_constructor ESModel o = inl t.
Proof.
  intros Hm Hij Hi Hj Heq. unfold ESDB_constructor.
  destruct (opt_db o); [eauto|]. rewrite Hm.
  destruct (truthy (opt_queueFile o) && opt_queue o); [eauto|].
  destruct (Nat.lt_total i j) as [Hlt|[->|Hlt]]; [|congruence|].
  - eapply register_models_duplicate; eauto.
  - eapply register_models_duplicate; eauto.
Qed.

Lemma C10_duplicate_model_names_rejected_witness :
  let models := [("a", Some (reducer_def (Some "shared")));
                 ("b", Some (reducer_def (Some "shared")))] in
  opt_models (memory_options models) = Some models /\
  0%nat <> 1%nat /\
  models !! 0%nat = Some ("a", Some (reducer_def (Some "shared"))) /\
  models !! 1%nat = Some ("b", Some (reducer_def (Some "shared"))) /\
  registered_name ("a", Some (reducer_def (Some "shared"))) =
    registered_name ("b", Some (reducer_def (Some "shared"))) /\
  exists t, ESDB_constructor example_ESModel (memory_options models) = inl t.
Proof.
  intros models.
  split; [reflexivity|]. split; [lia|]. split; [reflexivity|].
  split; [reflexivity|]. split; [reflexivity|].
  apply (C10_duplicate_model_names_rejected example_ESModel (memory_options models)
           models 0%nat 1%nat
           ("a", Some (reducer_def (Some "shared")))
           ("b", Some (reducer_def (Some "shared")))).
  - reflexivity.
  - lia.
  - reflexivity.
  - reflexivity.
  - reflexivity.
Defined.

(** C10, the claim as stated fails: a model registered under the name
    [metadata] is accepted like any other. *)
Lemma C10_metadata_is_accepted :
  exists r,
    ESDB_constructor example_ESModel
      (memory_options [("metadata", Some (reducer_def None))]) = inr r /\
    reg_reducerNames r = ["metadata"] /\
    reg_rwStore r = ["metadata"] /\
    inst_name <$> rwDb_store r !! "metadata" = Some "metadata".
Proof.
  eexists. split; [vm_compute; reflexivity|]. vm_compute. repeat split.
Qed.

(** ** The reduce phase *)

Lemma alist_get_set_eq {A} key (x : A) o : alist_get key (alist_set key x o) = Some x.
Proof.
  induction o as [|[k y] rest IH]; simpl.
  - rewrite String.eqb_refl. reflexivity.
  - destruct (String.eqb k key) eqn:Hk; simpl; rewrite Hk; auto.
Qed.

Lemma alist_get_set_ne {A} key key' (x : A) o :
  key <> key' -> alist_get key' (alist_set key x o) = alist_get key' o.
Proof.
  intros Hne. induction o as [|[k y] rest IH]; simpl.
  - destruct (String.eqb key key') eqn:Hk; [|reflexivity].
    apply String.eqb_eq in Hk. contradiction.
  - destruct (String.eqb k key) eqn:Hk; simpl.
    + apply String.eqb_eq in Hk. subst k.
      destruct (String.eqb key key') eqn:Hk'; [|reflexivity].
      apply String.eqb_eq in Hk'. contradiction.
    + destruct (String.eqb k key'); auto.
Qed.

(** The callbacks go on in a rearrangement of the order of the calls. *)
Lemma insert_by_rank_Permutation rank a l : insert_by_rank rank a l ≡ₚ a :: l.
Proof.
  induction l as [|b rest IH]; cbn [insert_by_rank]; [reflexivity|].
  destruct (Nat.leb (rank (fst a)) (rank (fst b))); [reflexivity|].
  rewrite IH. apply Permutation_swap.
Qed.

Lemma settle_order_Permutation rank l : settle_order rank l ≡ₚ l.
Proof.
  unfold settle_order. induction l as [|a rest IH]; cbn [foldr]; [reflexivity|].
  rewrite insert_by_rank_Permutation, IH. reflexivity.
Qed.

(** One callback of [_reducer]: [result] gets the entry of the reducer's
    answer. *)
Lemma reducer_step_spec res pushed key out :
  forall key',
    alist_get key' (fst (reducer_step (res, pushed) (key, out))) =
      if decide (key = key')
      then match result_entry out with
           | Some x => Some x
           | None => alist_get key' res
           end
      else alist_get key' res.
Proof.
  intros key'. unfold reducer_step.
  destruct out as [e| | |o [| |l|]]; cbn [fst result_entry];
    destruct (decide (key = key')) as [<-|Hne];
    rewrite ?alist_get_set_eq; try rewrite alist_get_set_ne by exact Hne; reflexivity.
Qed.

Lemma reducer_fold_spec (answer : string -> ReducerOut) l :
  Forall (fun a => snd a = answer (fst a)) l ->
  forall res pushed key,
    alist_get key (fst (fold_left reducer_step l (res, pushed))) =
      if decide (key ∈ map fst l)
      then match result_entry (answer key) with
           | Some x => Some x
           | None => alist_get key res
           end
      else alist_get key res.
Proof.
  induction 1 as [|[n out] rest Hn Hrest IH]; intros res pushed key;
    cbn [fold_left map fst].
  - destruct (decide (key ∈ [])) as [Hin|]; [|reflexivity].
    apply elem_of_nil in Hin. contradiction.
  - cbn [fst snd] in Hn. subst out.
    pose proof (reducer_step_spec res pushed n (answer n)) as H1.
    destruct (reducer_step (res, pushed) (n, answer n)) as [res1 pushed1].
    cbn [fst] in H1. rewrite IH, H1.
    destruct (decide (n = key)) as [Heq|Hne].
    + subst n. destruct (decide (key ∈ key :: map fst rest)) as [_|Hnor];
        [|exfalso; apply Hnor, elem_of_cons; left; reflexivity].
      destruct (decide (key ∈ map fst rest));
        destruct (result_entry (answer key)); reflexivity.
    + destruct (decide (key ∈ map fst rest)) as [Hin|Hnin];
        destruct (decide (key ∈ n :: map fst rest)) as [Hor|Hnor];
        try reflexivity; exfalso.
      * apply Hnor, elem_of_cons. right. exact Hin.
      * apply elem_of_cons in Hor. destruct Hor as [Hk|Hk]; [congruence|contradiction].
Qed.

(** The answers in the order of the callbacks: each is the answer of its
    reducer, and every reducer of [reducerNames] has one. *)
Lemma settle_order_answers rank (answer : string -> ReducerOut) names :
  let l := settle_order rank (map (fun key => (key, answer key)) names) in
  Forall (fun a => snd a = answer (fst a)) l /\ map fst l ≡ₚ names.
Proof.
  cbv zeta.
  pose proof (settle_order_Permutation rank (map (fun key => (key, answer key)) names))
    as Hp.
  split.
  - rewrite Hp. apply Forall_forall. intros a Hin.
    apply list_elem_of_In, List.in_map_iff in Hin. destruct Hin as (key & <- & _).
    reflexivity.
  - rewrite Hp. clear Hp. induction names as [|n rest IH]; cbn [map fst]; [reflexivity|].
    rewrite IH. reflexivity.
Qed.

Lemma result_entry_error out :
  match result_entry out with
  | Some r => r_error r = reducer_error out
  | None => reducer_error out = ""
  end.
Proof. destruct out as [e| | |o [| |l|]]; reflexivity. Qed.

Lemma truthy_iff s : truthy s = true <-> s <> "".
Proof. destruct s; simpl; split; congruence. Qed.

Lemma reduce_prefix_inj n n' : "reduce_" +:+ n = "reduce_" +:+ n' -> n = n'.
Proof. intros H. simplify_eq/=. reflexivity. Qed.

(** The error object of lines 612-618 has exactly the entries of the
    reducers whose [result] entry has a truthy [error]. *)
Lemma reduce_errors_spec names res k e :
  reduce_errors names res !! k = Some e <->
  exists n r, n ∈ names /\ k = "reduce_" +:+ n /\ alist_get n res = Some r /\
              e = r_error r /\ e <> "".
Proof.
  unfold reduce_errors. induction names as [|n rest IH] using rev_ind.
  - simpl. rewrite lookup_empty. split; [discriminate|].
    intros (n & r & Hin & _). apply elem_of_nil in Hin. contradiction.
  - rewrite fold_left_app. simpl.
    destruct (alist_get n res) as [r|] eqn:Hr.
    + destruct (truthy (r_error r)) eqn:Ht.
      * destruct (decide ("reduce_" +:+ n = k)) as [<-|Hne].
        -- rewrite lookup_insert_eq. split.
           ++ intros H. inversion H. subst e. exists n, r.
              repeat split; auto;
                [apply elem_of_app; right; apply list_elem_of_singleton; reflexivity|].
              apply truthy_iff. exact Ht.
           ++ intros (n' & r' & _ & Hk & Hr' & He & _).
              apply reduce_prefix_inj in Hk. subst n'. congruence.
        -- rewrite lookup_insert_ne by exact Hne. rewrite IH. split.
           ++ intros (n' & r' & Hin & H). exists n', r'. split; [apply elem_of_app; left; exact Hin|exact H].
           ++ intros (n' & r' & Hin & Hk & H). exists n', r'.
              apply elem_of_app in Hin. destruct Hin as [Hin|Hin]; [auto|].
              apply list_elem_of_singleton in Hin. congruence.
      * rewrite IH. split.
        -- intros (n' & r' & Hin & H). exists n', r'. split; [apply elem_of_app; left; exact Hin|exact H].
        -- intros (n' & r' & Hin & Hk & Hr' & He & Hne). exists n', r'.
           apply elem_of_app in Hin. destruct Hin as [Hin|Hin]; [auto|].
           apply list_elem_of_singleton in Hin. subst n'.
           rewrite Hr in Hr'. inversion Hr'. subst r'.
           apply truthy_iff in Hne. congruence.
    + rewrite IH. split.
      * intros (n' & r' & Hin & H). exists n', r'. split; [apply elem_of_app; left; exact Hin|exact H].
      * intros (n' & r' & Hin & Hk & Hr' & H). exists n', r'.
        apply elem_of_app in Hin. destruct Hin as [Hin|Hin]; [auto|].
        apply list_elem_of_singleton in Hin. congruence.
Qed.

Lemma reducer_fold_get db event s :
  forall key, In key (reducerNames db) ->
    alist_get key
      (fst (fold_left reducer_step
              (settle_order (settled_at db (length (log s)))
                 (map (fun key => (key, reducer_out db (tables s) event key))
                      (reducerNames db)))
              ([], []))) =
    result_entry (reducer_out db (tables s) event key).
Proof.
  intros key Hin.
  destruct (settle_order_answers (settled_at db (length (log s)))
              (reducer_out db (tables s) event) (reducerNames db)) as [Hall Hperm].
  cbv zeta in Hall, Hperm.
  rewrite (reducer_fold_spec _ _ Hall).
  destruct (decide (key ∈ _)) as [_|Hn].
  - destruct (result_entry _); reflexivity.
  - exfalso. apply Hn. rewrite Hperm. apply list_elem_of_In. exact Hin.
Qed.

(** What [_reducer] returns: with a failing reducer, the event with the
    aggregated errors and nothing else changed but [events]; without one,
    the event with the collected [result]. *)
Lemma _reducer_spec db event s :
  let out := reducer_out db (tables s) event in
  let failed := fun key => In key (reducerNames db) /\ reducer_error (out key) <> "" in
  let r := fst (_reducer db event s) in
  ((exists key, failed key) ->
     exists m, error r = Some m /\
       (forall k e, m !! k = Some e <->
          exists key, failed key /\ k = "reduce_" +:+ key /\ e = reducer_error (out key)) /\
       result r = result event) /\
  ((~ exists key, failed key) ->
     error r = error event /\
     exists res, result r = Some res /\
       forall key, In key (reducerNames db) -> alist_get key res = result_entry (out key)).
Proof.
  intros out failed r. subst r. unfold _reducer.
  pose proof (reducer_fold_get db event s) as Hget.
  destruct (fold_left _ _ _) as [res pushed]. cbn [fst] in Hget.
  assert (Hfail : forall key, In key (reducerNames db) ->
            reducer_failed res key = true <-> reducer_error (out key) <> "").
  { intros key Hin. unfold reducer_failed. rewrite (Hget key Hin).
    pose proof (result_entry_error (out key)) as He. fold out.
    destruct (result_entry (out key)) as [x|].
    - rewrite He. apply truthy_iff.
    - rewrite He. split; [discriminate | congruence]. }
  destruct (existsb (reducer_failed res) (reducerNames db)) eqn:Hex.
  - split; [|intros Hno; exfalso; apply Hno].
    + intros _. simpl. eexists. split; [reflexivity|]. split; [|reflexivity].
      intros k e. rewrite reduce_errors_spec. split.
      * intros (n & x & Hin & Hk & Hx & He & Hne).
        apply list_elem_of_In in Hin. exists n.
        assert (Hr : e = reducer_error (out n)).
        { pose proof (result_entry_error (out n)) as H. unfold out in *.
          rewrite <- (Hget n Hin), Hx in H. congruence. }
        repeat split; auto. congruence.
      * intros (n & [Hin Hne] & Hk & He). 
        pose proof (result_entry_error (out n)) as H. unfold out in *.
        rewrite <- (Hget n Hin) in H.
        destruct (alist_get n res) as [x|] eqn:Hx; [|congruence].
        exists n, x. repeat split; auto; [apply list_elem_of_In; exact Hin | congruence | congruence].
    + apply List.existsb_exists in Hex. destruct Hex as (n & Hin & Hn).
      exists n. split; [exact Hin|]. apply (Hfail n Hin). exact Hn.
  - split.
    + intros (n & Hin & Hne). exfalso.
      assert (Ht : existsb (reducer_failed res) (reducerNames db) = true).
      { apply List.existsb_exists. exists n. split; [exact Hin|].
        apply (Hfail n Hin). exact Hne. }
      congruence.
    + intros _. simpl. split; [reflexivity|]. exists res. split; [reflexivity|].
      exact Hget.
Qed.

(** C9 (as the source has it): in the reduce phase a reducer that throws an
    error whose text is not empty contributes the entry [reduce_<name>] with
    that text; when at least one reducer fails, the returned event's [error]
    is the map of the entries of all the failing reducers and of nothing
    else, and the event does not get the collected [result]: its [result] is
    the one it came in with, none for an event that enters the phase without
    one; a reducer that returns a falsy value or the model itself leaves no
    entry in [result] and none in [error]. *)
Theorem C9_reducer_errors db event s :
  let out := reducer_out db (tables s) event in
  let failed := fun key => In key (reducerNames db) /\ reducer_error (out key) <> "" in
  let r := fst (_reducer db event s) in
  (forall key x, In key (reducerNames db) -> out key = RThrows x ->
     errorToString x <> "" ->
     exists m, error r = Some m /\ m !! ("reduce_" +:+ key) = Some (errorToString x)) /\
  ((exists key, failed key) ->
     exists m, error r = Some m /\
       (forall k e, m !! k = Some e <->
          exists key, failed key /\ k = "reduce_" +:+ key /\ e = reducer_error (out key)) /\
       result r = result event /\
       (result event = None -> result r = None)) /\
  (forall key, In key (reducerNames db) -> out key = RFalsy \/ out key = RModel ->
     ((exists key', failed key') ->
        forall m, error r = Some m -> m !! ("reduce_" +:+ key) = None) /\
     ((~ exists key', failed key') ->
        error r = error event /\
        exists res, result r = Some res /\ alist_get key res = None)).
Proof.
  intros out failed r.
  destruct (_reducer_spec db event s) as [HA HB]. fold out in HA, HB.
  fold failed in HA, HB. fold r in HA, HB.
  split; [|split].
  - intros key x Hin Hout Hne.
    assert (Hf : failed key) by (split; [exact Hin | rewrite Hout; exact Hne]).
    destruct (HA (ex_intro _ key Hf)) as (m & Hm & Hspec & _).
    exists m. split; [exact Hm|]. apply Hspec. exists key.
    rewrite Hout. repeat split; auto.
  - intros Hex. destruct (HA Hex) as (m & Hm & Hspec & Hres).
    exists m. split; [exact Hm|]. split; [exact Hspec|].
    split; [exact Hres | congruence].
  - intros key Hin Hout. split.
    + intros Hex m Hm. destruct (HA Hex) as (m' & Hm' & Hspec & _).
      assert (m' = m) by congruence. subst m'.
      destruct (m !! ("reduce_" +:+ key)) as [e|] eqn:He; [|reflexivity].
      apply Hspec in He. destruct He as (key' & [_ Hne] & Hk & _).
      apply reduce_prefix_inj in Hk. subst key'.
      destruct Hout as [Ho|Ho]; rewrite Ho in Hne; simpl in Hne; congruence.
    + intros Hno. destruct (HB Hno) as (He & res & Hres & Hget).
      split; [exact He|]. exists res. split; [exact Hres|].
      rewrite (Hget key Hin). destruct Hout as [Ho|Ho]; rewrite Ho; reflexivity.
Qed.

(** The statement of C9 at four reducers, of which [A] throws, [C] returns
    [null] and [D] the model: the error map is [{reduce_A: "Error: boom"}]
    and the event carries no result. *)
Lemma C9_reducer_errors_witness :
  let event := example_event 1 "ADD" "{}" in
  let r := fst (_reducer mixed_db event empty_store) in
  error r = Some {[ "reduce_A" := "Error: boom" ]} /\
  result r = None /\
  (exists m, error r = Some m /\ m !! "reduce_A" = Some "Error: boom") /\
  (forall m, error r = Some m -> m !! "reduce_C" = None /\ m !! "reduce_D" = None).
Proof.
  intros event r.
  destruct (C9_reducer_errors mixed_db event empty_store) as (H1 & H2 & H3).
  assert (Hex : exists key, In key (reducerNames mixed_db) /\
                  reducer_error (reducer_out mixed_db (tables empty_store) event key) <> "").
  { exists "A". split; [left; reflexivity | vm_compute; discriminate]. }
  split; [vm_compute; reflexivity|]. split; [vm_compute; reflexivity|]. split.
  - apply (H1 "A" (Some (new_Error "boom"))).
    + left; reflexivity.
    + reflexivity.
    + vm_compute; discriminate.
  - intros m Hm. split.
    + apply (proj1 (H3 "C" ltac:(simpl; tauto) ltac:(left; reflexivity)) Hex m Hm).
    + apply (proj1 (H3 "D" ltac:(simpl; tauto) ltac:(right; reflexivity)) Hex m Hm).
Defined.

(** C9, the claim as stated fails.  An event that enters the reduce phase
    with a [result] (a sub-event record of an earlier attempt, handled again
    when its parent is retried) keeps it when a reducer fails: the returned
    event has [error] set and still carries a [result], which its caller
    then moves to [failedResult].  And a reducer that throws a value without
    text (as [throw []] does) contributes no error entry: its [error]
    property is the empty string, which line 611 does not count. *)
Lemma C9_incoming_result_is_kept :
  let event := set_result (Some [("f", mkReducerResult "" "earlier")])
                          (sub_event "X" "{}") in
  let r := fst (_reducer throwing_db event empty_store) in
  let event' := example_event 1 "X" "{}" in
  let r' := fst (_reducer empty_throw_db event' empty_store) in
  (reducer_out throwing_db (tables empty_store) event "f"
     = RThrows (Some (new_Error "boom")) /\
   error r = Some {[ "reduce_f" := "Error: boom" ]} /\
   result r = Some [("f", mkReducerResult "" "earlier")]) /\
  (reducer_out empty_throw_db (tables empty_store) event' "f"
     = RThrows (Some (mkThrown "" "" "")) /\
   error r' = None /\
   result r' = Some [("f", mkReducerResult "" "{}")]).
Proof. vm_compute. repeat split; reflexivity. Qed.

(** ** The version write *)

Lemma write_version_ok db event s n :
  v event = Some n ->
  store_fault db (length (log s)) = None ->
  write_version db event s =
    (mkStore (tables s) n (savepoints s) (log s ++ [FxRun (PRAGMA_user_version n)]),
     None).
Proof.
  intros Hv Hf. unfold write_version, version_statement. rewrite Hv, Hf. reflexivity.
Qed.

(** When no [applyChanges] call failed, there was one for every entry of
    [result], in the order of the entries. *)
Lemma settleAll_apply_log db entries s :
  snd (settleAll entries (apply_entry db) s) = None ->
  log (fst (settleAll entries (apply_entry db) s)) =
    log s ++ map applyChanges_call entries.
Proof.
  revert s. induction entries as [|[nm r] rest IH]; intros s; cbn [settleAll map].
  - intros _. rewrite app_nil_r. reflexivity.
  - destruct (apply_entry db (nm, r) s) as [s1 x1] eqn:H1.
    specialize (IH s1).
    destruct (settleAll rest (apply_entry db) s1) as [s2 x2]. cbn [fst snd] in *.
    destruct x1 as [e|]; [intros H; discriminate H|]. intros Hx2.
    rewrite (IH Hx2).
    assert (Hs1 : log s1 = log s ++ [FxApplyChanges nm r]).
    { revert H1. unfold apply_entry.
      destruct (rwStore db !! nm) as [model|]; [|intros H; discriminate H].
      destruct (applyChanges model) as [f|]; [|intros H; discriminate H].
      destruct (f r (tables s)) as [t x]. intros [= <- _]. reflexivity. }
    rewrite Hs1, <- app_assoc. reflexivity.
Qed.

(** The derivers that are called: those of [deriverModels], in order. *)
Lemma settleAll_derive_log models :
  forall event s,
    let s' := snd (fst (settleAll models derive_model (event, s))) in
    exists derived,
      log s' = log s ++ derived /\
      Forall (fun fx => is_deriver fx = true) derived /\
      omap called_deriver derived = map name (List.filter has_deriver models).
Proof.
  induction models as [|m rest IH]; intros event s; cbn [settleAll].
  - exists []. rewrite app_nil_r. repeat split. constructor.
  - destruct (derive_model m (event, s)) as [[event1 s1] x1] eqn:H1.
    specialize (IH event1 s1).
    destruct (settleAll rest derive_model (event1, s1)) as [[event2 s2] x2].
    cbn [fst snd] in *. destruct IH as (l & Hl & Hd & Hc).
    revert H1. unfold derive_model. cbn [List.filter]. unfold has_deriver at 1.
    destruct (deriver m) as [f|].
    + destruct (f (tables s) event) as [[t dispatched] x]. intros [= _ <- _].
      exists (FxDeriver (name m) event :: l).
      split; [rewrite Hl; cbn [set_tables add_log log]; rewrite <- app_assoc; reflexivity|].
      split; [constructor; [reflexivity | exact Hd]|].
      cbn [omap list_omap called_deriver map]. rewrite Hc. reflexivity.
    + intros [= _ <- _]. exists l. auto.
Qed.

Lemma setWritable_all_log db flag s :
  let s' := setWritable_all db flag s in
  log s' = log s ++ map (fun m => FxSetWritable (name m) flag) (readWriters db) /\
  tables s' = tables s /\ user_version s' = user_version s /\
  savepoints s' = savepoints s.
Proof.
  unfold setWritable_all. revert s.
  induction (readWriters db) as [|m rest IH]; intros s; cbn [fold_left map].
  - rewrite app_nil_r. auto.
  - destruct (IH (add_log (FxSetWritable (name m) flag) s)) as (Hl & Ht & Hu & Hs).
    rewrite Hl, Ht, Hu, Hs. cbn [add_log log tables user_version savepoints].
    rewrite <- app_assoc. auto.
Qed.

(** The apply phase of a top-level event that came in without error and
    whose [applyChanges] calls all succeeded, call by call. *)
Lemma _applyEvent_version_write db event s n :
  v event = Some n ->
  has_error event = false ->
  apply_phase_error db event s = None ->
  (forall k, store_fault db k = None) ->
  let s' := snd (_applyEvent db event true s) in
  user_version s' = n /\
  exists derived,
    log s' =
      log s ++ map (fun m => FxSetWritable (name m) true) (readWriters db)
            ++ map applyChanges_call (default [] (result event))
            ++ [FxRun (PRAGMA_user_version n)] ++ derived
            ++ map (fun m => FxSetWritable (name m) false) (readWriters db) /\
    Forall (fun fx => is_deriver fx = true) derived /\
    omap called_deriver derived = map name (List.filter has_deriver (deriverModels db)).
Proof.
  intros Hv He Hok Hfault. unfold _applyEvent, applyEvent_try.
  destruct (setWritable_all_log db true s) as (Hl0 & _).
  unfold apply_phase_error in Hok.
  set (s0 := setWritable_all db true s) in *.
  assert (Happ : exists phase1 s1,
            (match result event with
             | Some (entry :: entries) =>
                 ("apply", settleAll (entry :: entries) (apply_entry db) s0)
             | _ => ("???", (s0, None))
             end) = (phase1, (s1, None)) /\
            log s1 = log s0 ++ map applyChanges_call (default [] (result event))).
  { destruct (result event) as [[|entry entries]|].
    - exists "???", s0. split; [reflexivity|]. cbn. rewrite app_nil_r. reflexivity.
    - pose proof (settleAll_apply_log db (entry :: entries) s0 Hok) as Hlog.
      destruct (settleAll (entry :: entries) (apply_entry db) s0) as [s1 x1].
      cbn [fst snd] in Hok, Hlog. subst x1.
      exists "apply", s1. split; [reflexivity | exact Hlog].
    - exists "???", s0. split; [reflexivity|]. cbn. rewrite app_nil_r. reflexivity. }
  destruct Happ as (phase1 & s1 & -> & Hl1).
  rewrite (write_version_ok db event s1 n Hv (Hfault _)).
  rewrite He. cbn [negb andb].
  set (s2 := mkStore (tables s1) n (savepoints s1)
                     (log s1 ++ [FxRun (PRAGMA_user_version n)])).
  assert (Hfinal : forall s3 derived,
            user_version s3 = n -> log s3 = log s2 ++ derived ->
            Forall (fun fx => is_deriver fx = true) derived ->
            omap called_deriver derived =
              map name (List.filter has_deriver (deriverModels db)) ->
            user_version (setWritable_all db false s3) = n /\
            exists derived,
              log (setWritable_all db false s3) =
                log s ++ map (fun m => FxSetWritable (name m) true) (readWriters db)
                      ++ map applyChanges_call (default [] (result event))
                      ++ [FxRun (PRAGMA_user_version n)] ++ derived
                      ++ map (fun m => FxSetWritable (name m) false) (readWriters db) /\
              Forall (fun fx => is_deriver fx = true) derived /\
              omap called_deriver derived =
                map name (List.filter has_deriver (deriverModels db))).
  { intros s3 derived Hu3 Hl3 Hd Hc.
    destruct (setWritable_all_log db false s3) as (Hl4 & _ & Hu4 & _).
    split; [congruence|]. exists derived. split; [|split; assumption].
    rewrite Hl4, Hl3. unfold s2. cbn [log]. rewrite Hl1, Hl0, <- !app_assoc. reflexivity. }
  destruct (bool_decide (deriverModels db = [])) eqn:Hd; cbn [negb].
  - apply bool_decide_eq_true in Hd. cbn [fst snd].
    apply (Hfinal s2 []); [reflexivity | rewrite app_nil_r; reflexivity | constructor|].
    rewrite Hd. reflexivity.
  - pose proof (settleAll_derive_log (deriverModels db) event s2) as H3.
    pose proof (settleAll_derive_steps (deriverModels db) (event, s2)) as H3s.
    destruct (settleAll (deriverModels db) derive_model (event, s2))
      as [[event3 s3] x3]. cbn [fst snd] in H3, H3s |- *.
    destruct H3 as (derived & Hl3 & Hdv & Hc).
    destruct H3s as (_ & Hu3 & _).
    apply (Hfinal s3 derived); auto.
Qed.

(** The preprocessors do not change the store: they are only called. *)
Lemma preprocessor_loop_calls_only models orig cur s :
  steps (fun fx => is_applyChanges fx = false /\ is_deriver fx = false /\
                   is_version_write fx = false) s
        (snd (preprocessor_loop models orig cur s)).
Proof.
  revert orig cur s. induction models as [|model rest IH]; intros orig cur s; simpl.
  - apply steps_refl.
  - destruct (match preprocessor model with Some f => _ | None => _ end)
      as [event' out].
    set (s1 := add_log _ s).
    assert (Hs1 : steps (fun fx => is_applyChanges fx = false /\ is_deriver fx = false /\
                                   is_version_write fx = false) s s1)
      by (apply steps_add_log; repeat split).
    destruct (match out with PThrows e => _ | PReturns x => _ end).
    + exact Hs1.
    + destruct out as [e|[n|]]; (eapply steps_trans; [exact Hs1 | apply IH]).
Qed.

Lemma filter_none {A} (p : A -> bool) l :
  Forall (fun x => p x = false) l -> List.filter p l = [].
Proof.
  induction 1 as [|x l Hx _ IH]; cbn [List.filter]; [reflexivity|].
  rewrite Hx. exact IH.
Qed.

Lemma filter_all {A} (p : A -> bool) l :
  Forall (fun x => p x = true) l -> List.filter p l = l.
Proof.
  induction 1 as [|x l Hx _ IH]; cbn [List.filter]; [reflexivity|].
  rewrite Hx, IH. reflexivity.
Qed.

Lemma omap_none {A B} (f : A -> option B) l :
  Forall (fun x => f x = None) l -> omap f l = [].
Proof.
  induction 1 as [|x l Hx _ IH]; cbn [omap list_omap]; [reflexivity|].
  rewrite Hx. exact IH.
Qed.

(** C3: when a top-level event (depth 0) has come through the preprocess
    and reduce phases without error and its [applyChanges] calls all
    succeed, [_handleEvent] runs the statement that sets [user_version] to
    the event's [v] once: every [applyChanges] call of the event's [result]
    has been made before it and no deriver call, every deriver call comes
    after it, and the version is the event's [v] when [_handleEvent]
    returns, the sub-events handled after the apply phase not writing it;
    handling an event at a depth above 0 neither runs that statement nor
    changes the version. *)
Theorem C3_version_write db :
  (forall origEvent s event1 orig1 s1 event2 s2 n,
     _preprocessor db origEvent s = (event1, orig1, s1) -> has_error event1 = false ->
     _reducer db orig1 s1 = (event2, s2) -> has_error event2 = false ->
     v event2 = Some n ->
     apply_phase_error db event2 s2 = None ->
     (forall k, store_fault db k = None) ->
     let s' := snd (_handleEvent db origEvent 0 s) in
     user_version s' = n /\
     exists before after rest,
       log s' = log s ++ before ++ [FxRun (PRAGMA_user_version n)] ++ after ++ rest /\
       Forall (fun fx => is_deriver fx = false /\ is_version_write fx = false) before /\
       List.filter is_applyChanges before =
         map applyChanges_call (default [] (result event2)) /\
       Forall (fun fx => is_applyChanges fx = false /\ is_version_write fx = false) after /\
       omap called_deriver after =
         map name (List.filter has_deriver (deriverModels db)) /\
       Forall (fun fx => is_version_write fx = false) rest) /\
  (forall origEvent depth s,
     depth <> 0%nat ->
     let s' := snd (_handleEvent db origEvent depth s) in
     user_version s' = user_version s /\
     exists l, log s' = log s ++ l /\ Forall (fun fx => is_version_write fx = false) l).
Proof.
  split.
  - intros origEvent s event1 orig1 s1 event2 s2 n Hp He1 Hr He2 Hv Hok Hfault.
    pose proof (preprocessor_loop_calls_only (preprocModels db) origEvent None s) as H1.
    fold (_preprocessor db origEvent s) in H1. rewrite Hp in H1. cbn [snd] in H1.
    destruct H1 as (_ & _ & l1 & Hl1 & HP1).
    pose proof (_reducer_store db orig1 s1) as H2. rewrite Hr in H2. cbn [snd] in H2.
    destruct (reducer_calls_log db orig1 s1) as (Hl2 & _). rewrite <- H2 in Hl2.
    destruct (_applyEvent_version_write db event2 s2 n Hv He2 Hok Hfault)
      as (Hu3 & derived & Hl3 & Hd & Hc).
    cbv zeta. rewrite _handleEvent_unfold. change (100 <? 0)%nat with false. cbv iota.
    unfold handleEvent_body. rewrite Hp, He1, Hr, He2. change (Nat.eqb 0 0) with true.
    destruct (_applyEvent db event2 true s2) as [event3 s3]. cbn [snd] in Hu3, Hl3.
    set (setT := map (fun m => FxSetWritable (name m) true) (readWriters db)) in *.
    set (setF := map (fun m => FxSetWritable (name m) false) (readWriters db)) in *.
    set (reds := map (fun key => FxReducer key orig1) (reducerNames db)) in *.
    set (applied := map applyChanges_call (default [] (result event2))) in *.
    assert (Hgoal : forall s' rest,
              user_version s' = user_version s3 -> log s' = log s3 ++ rest ->
              Forall (fun fx => is_version_write fx = false) rest ->
              user_version s' = n /\
              exists before after rest,
                log s' = log s ++ before ++ [FxRun (PRAGMA_user_version n)] ++ after ++ rest /\
                Forall (fun fx => is_deriver fx = false /\ is_version_write fx = false) before /\
                List.filter is_applyChanges before = applied /\
                Forall (fun fx => is_applyChanges fx = false /\ is_version_write fx = false)
                       after /\
                omap called_deriver after =
                  map name (List.filter has_deriver (deriverModels db)) /\
                Forall (fun fx => is_version_write fx = false) rest).
    { intros s' rest Hu Hl Hrest. split; [congruence|].
      exists (l1 ++ reds ++ setT ++ applied), (derived ++ setF), rest.
      split; [rewrite Hl, Hl3, Hl2, Hl1, <- !app_assoc; reflexivity|].
      split; [|split; [|split; [|split; [|exact Hrest]]]].
      - rewrite !Forall_app. split; [|split; [|split]].
        + eapply Forall_impl; [exact HP1|]. intros fx (_ & Hx & Hy). auto.
        + apply Forall_forall. intros fx Hin.
          apply list_elem_of_In, List.in_map_iff in Hin. destruct Hin as (k & <- & _). auto.
        + apply Forall_forall. intros fx Hin.
          apply list_elem_of_In, List.in_map_iff in Hin. destruct Hin as (k & <- & _). auto.
        + apply Forall_forall. intros fx Hin.
          apply list_elem_of_In, List.in_map_iff in Hin. destruct Hin as (k & <- & _). auto.
      - rewrite !List.filter_app.
        rewrite (filter_none is_applyChanges l1)
          by (eapply Forall_impl; [exact HP1|]; intros fx (Hx & _); exact Hx).
        rewrite (filter_none is_applyChanges reds)
          by (apply Forall_forall; intros fx Hin;
              apply list_elem_of_In, List.in_map_iff in Hin;
              destruct Hin as (k & <- & _); reflexivity).
        rewrite (filter_none is_applyChanges setT)
          by (apply Forall_forall; intros fx Hin;
              apply list_elem_of_In, List.in_map_iff in Hin;
              destruct Hin as (k & <- & _); reflexivity).
        rewrite (filter_all is_applyChanges applied)
          by (apply Forall_forall; intros fx Hin;
              apply list_elem_of_In, List.in_map_iff in Hin;
              destruct Hin as (k & <- & _); reflexivity).
        reflexivity.
      - rewrite Forall_app. split.
        + eapply Forall_impl; [exact Hd|]. intros [] Hx; try discriminate Hx. auto.
        + apply Forall_forall. intros fx Hin.
          apply list_elem_of_In, List.in_map_iff in Hin. destruct Hin as (k & <- & _). auto.
      - rewrite omap_app, (omap_none called_deriver setF), app_nil_r; [exact Hc|].
        apply Forall_forall. intros fx Hin.
        apply list_elem_of_In, List.in_map_iff in Hin. destruct Hin as (k & <- & _).
        reflexivity. }
    destruct (has_error event3);
      [cbn [snd]; apply (Hgoal s3 []); [reflexivity | rewrite app_nil_r; reflexivity | constructor]|].
    destruct (events event3) as [evs|];
      [|cbn [snd]; apply (Hgoal s3 []); [reflexivity | rewrite app_nil_r; reflexivity | constructor]].
    pose proof (subevents_loop_preserves (steps no_version_write)
                  (fun sub => _handleEvent db sub 1)
                  (steps_refl _) (steps_trans _)
                  (fun ev s0 => proj2 (_handleEvent_steps db ev 1 s0) (Nat.neq_succ_0 0))
                  (length evs) 0%nat event3 s3) as (_ & Hu4 & rest & Hl4 & Hrest).
    apply (Hgoal _ rest); assumption.
  - intros origEvent depth s Hd.
    destruct (proj2 (_handleEvent_steps db origEvent depth s) Hd) as (_ & Hv & l & Hl & HP).
    split; [exact Hv|]. exists l. split; [exact Hl | exact HP].
Qed.

Lemma C3_version_write_witness :
  let origEvent := example_event 1 "ADD" "x" in
  let p := _preprocessor deriving_db origEvent empty_store in
  let r := _reducer deriving_db (snd (fst p)) (snd p) in
  let s' := snd (_handleEvent deriving_db origEvent 0 empty_store) in
  let sub := snd (_handleEvent deriving_db (example_event 1 "SUB" "y") 1 empty_store) in
  has_error (fst (fst p)) = false /\ has_error (fst r) = false /\
  v (fst r) = Some 1 /\
  apply_phase_error deriving_db (fst r) (snd r) = None /\
  (forall k, store_fault deriving_db k = None) /\
  log s' = [FxReducer "m" origEvent; FxSetWritable "m" true;
            FxApplyChanges "m" (mkReducerResult "" "x");
            FxRun (PRAGMA_user_version 1); FxDeriver "m" (fst r);
            FxSetWritable "m" false] /\
  (user_version s' = 1 /\
   exists before after rest,
     log s' = log empty_store ++ before ++ [FxRun (PRAGMA_user_version 1)]
              ++ after ++ rest /\
     Forall (fun fx => is_deriver fx = false /\ is_version_write fx = false) before /\
     List.filter is_applyChanges before =
       map applyChanges_call (default [] (result (fst r))) /\
     Forall (fun fx => is_applyChanges fx = false /\ is_version_write fx = false) after /\
     omap called_deriver after =
       map name (List.filter has_deriver (deriverModels deriving_db)) /\
     Forall (fun fx => is_version_write fx = false) rest) /\
  (user_version sub = user_version empty_store /\
   exists l, log sub = log empty_store ++ l /\
             Forall (fun fx => is_version_write fx = false) l).
Proof.
  intros origEvent p r s' sub.
  split; [reflexivity|]. split; [reflexivity|]. split; [reflexivity|].
  split; [reflexivity|]. split; [reflexivity|]. split; [reflexivity|]. split.
  - apply (proj1 (C3_version_write deriving_db) origEvent empty_store
             (fst (fst p)) (snd (fst p)) (snd p) (fst r) (snd r) 1);
      reflexivity.
  - apply (proj2 (C3_version_write deriving_db) (example_event 1 "SUB" "y") 1%nat
             empty_store).
    discriminate.
Defined.

(** ** Sub-events *)

Lemma set_events_same event evs : events event = Some evs -> set_events (Some evs) event = event.
Proof. intros H. destruct event. simpl in *. subst. reflexivity. Qed.

(** The loop of the source, started at index [length done] on the list
    [done ++ todo], does what the sequential walk over [todo] does. *)
Lemma subevents_loop_sequential handle todo :
  forall done event s,
    events event = Some (done ++ todo) ->
    subevents_loop handle (length todo) (length done) event s =
    let '(evs', failed, s') := sequential_subevents handle (v event) done todo s in
    (match failed with
     | Some i =>
         set_error
           (Some {[ "_handle" := "subevent " +:+ string_of_nat i +:+ " failed" ]})
           (set_events (Some evs') event)
     | None => set_events (Some evs') event
     end, s').
Proof.
  induction todo as [|subEvent rest IH]; intros done event s Hev.
  - simpl. rewrite app_nil_r in Hev. rewrite (set_events_same _ _ Hev). reflexivity.
  - cbn [length subevents_loop sequential_subevents]. rewrite Hev.
    cbn [from_option id].
    assert (Hi : (done ++ subEvent :: rest) !! length done = Some subEvent).
    { rewrite lookup_app_r by lia. rewrite Nat.sub_diag. reflexivity. }
    rewrite Hi.
    assert (Hins : forall x, <[ length done := x ]> (done ++ subEvent :: rest) =
                             done ++ x :: rest).
    { intros x. rewrite insert_app_r_alt by lia. rewrite Nat.sub_diag. reflexivity. }
    destruct (handle (set_v (v event) subEvent) s) as [doneEvent s1].
    rewrite !Hins.
    destruct (has_error (set_v None doneEvent)) eqn:He.
    + reflexivity.
    + specialize (IH (done ++ [set_v None doneEvent])
                     (set_events (Some (done ++ set_v None doneEvent :: rest)) event) s1).
      rewrite length_app in IH. simpl in IH.
      replace (length done + 1)%nat with (S (length done)) in IH by lia.
      rewrite IH by (simpl; rewrite <- app_assoc; reflexivity).
      cbn [v set_events].
      destruct (sequential_subevents handle (v event) (done ++ [set_v None doneEvent])
                  rest s1) as [[evs' failed] s'].
      destruct failed; reflexivity.
Qed.

(** What the sequential walk leaves in the list: the records before the
    failed one (or all of them) are without error and without [v]; the
    failed one has its error, no [v] and no [result]; those after it are
    the sub-events as they were. *)
Lemma sequential_subevents_records handle parent_v todo :
  forall done s,
    Forall (fun d => has_error d = false /\ v d = None) done ->
    let '(evs', failed, _) := sequential_subevents handle parent_v done todo s in
    length evs' = (length done + length todo)%nat /\
    match failed with
    | Some i =>
        (length done <= i < length done + length todo)%nat /\
        Forall (fun d => has_error d = false /\ v d = None) (take i evs') /\
        (exists d, evs' !! i = Some d /\ has_error d = true /\ v d = None /\
                   result d = None) /\
        (forall j, (i < j)%nat -> evs' !! j = (done ++ todo) !! j)
    | None => Forall (fun d => has_error d = false /\ v d = None) evs'
    end.
Proof.
  induction todo as [|subEvent rest IH]; intros done s Hdone; simpl.
  - split; [lia | exact Hdone].
  - destruct (handle (set_v parent_v subEvent) s) as [doneEvent s1].
    destruct (has_error (set_v None doneEvent)) eqn:He.
    + split; [rewrite length_app; simpl; lia|]. split; [lia|].
      split; [|split].
      * rewrite take_app_length. exact Hdone.
      * exists (move_result_to_failedResult (set_v None doneEvent)).
        rewrite lookup_app_r by lia. rewrite Nat.sub_diag. split; [reflexivity|].
        destruct (move_result_to_failedResult_fields (set_v None doneEvent))
          as (Hv & Herr & Hres & _).
        cbn zeta in Hv, Herr, Hres. unfold has_error in *. rewrite Herr.
        repeat split; auto.
      * intros j Hj. rewrite !lookup_app_r by lia.
        destruct (j - length done)%nat as [|k] eqn:Hk; [lia | reflexivity].
    + specialize (IH (done ++ [set_v None doneEvent]) s1).
      assert (Hd : Forall (fun d => has_error d = false /\ v d = None)
                          (done ++ [set_v None doneEvent])).
      { apply Forall_app. split; [exact Hdone|]. constructor; [|constructor].
        split; [exact He | reflexivity]. }
      specialize (IH Hd).
      destruct (sequential_subevents handle parent_v (done ++ [set_v None doneEvent])
                  rest s1) as [[evs' failed] s'].
      rewrite length_app in IH. simpl in IH.
      destruct IH as [Hlen IH]. split; [lia|].
      destruct failed as [i|]; [|exact IH].
      destruct IH as (Hi & Htake & Hd' & Hafter).
      split; [lia|]. split; [exact Htake|]. split; [exact Hd'|].
      intros j Hj. rewrite (Hafter j Hj). rewrite <- app_assoc.
      rewrite (lookup_app_r done (subEvent :: rest)) by lia.
      rewrite (lookup_app_r done ([set_v None doneEvent] ++ rest)) by lia.
      destruct (j - length done)%nat as [|k] eqn:Hk; [lia | reflexivity].
Qed.

(** C6: once the apply phase of an event has succeeded, [_handleEvent] does
    with the event's [events] what the sequential walk does: the sub-events
    are handled one after the other, in order, each at [depth + 1] with the
    parent's [v], and stored without [v]; at the first sub-event [i] that
    ends in error the parent's error becomes
    [{_handle: "subevent <i> failed"}] and the sub-events after [i] stay as
    they were, unhandled. *)
Theorem C6_subevents_in_order db origEvent depth s event1 orig1 s1 event2 s2
    event3 s3 evs :
  (depth <= 100)%nat ->
  _preprocessor db origEvent s = (event1, orig1, s1) -> has_error event1 = false ->
  _reducer db orig1 s1 = (event2, s2) -> has_error event2 = false ->
  _applyEvent db event2 (Nat.eqb depth 0) s2 = (event3, s3) ->
  has_error event3 = false ->
  events event3 = Some evs ->
  let '(evs', failed, s') :=
    sequential_subevents (fun sub => _handleEvent db sub (S depth)) (v event3)
                         [] evs s3 in
  _handleEvent db origEvent depth s =
    (match failed with
     | Some i =>
         set_error
           (Some {[ "_handle" := "subevent " +:+ string_of_nat i +:+ " failed" ]})
           (set_events (Some evs') event3)
     | None => set_events (Some evs') event3
     end, s') /\
  length evs' = length evs /\
  match failed with
  | Some i =>
      (i < length evs)%nat /\
      Forall (fun d => has_error d = false /\ v d = None) (take i evs') /\
      (exists d, evs' !! i = Some d /\ has_error d = true /\ v d = None /\
                 result d = None) /\
      (forall j, (i < j)%nat -> evs' !! j = evs !! j)
  | None => Forall (fun d => has_error d = false /\ v d = None) evs'
  end.
Proof.
  intros Hd Hp He1 Hr He2 Ha He3 Hev.
  pose proof (subevents_loop_sequential (fun sub => _handleEvent db sub (S depth))
                evs [] event3 s3 Hev) as Hloop.
  pose proof (sequential_subevents_records (fun sub => _handleEvent db sub (S depth))
                (v event3) evs [] s3 (Forall_nil_2 _)) as Hrec.
  destruct (sequential_subevents _ (v event3) [] evs s3) as [[evs' failed] s'].
  simpl in Hloop, Hrec. split; [|split; [apply Hrec|]].
  - rewrite _handleEvent_unfold.
    rewrite (proj2 (Nat.ltb_ge 100 depth) Hd).
    unfold handleEvent_body. rewrite Hp, He1, Hr, He2, Ha, He3, Hev. exact Hloop.
  - destruct Hrec as [_ Hrec]. destruct failed as [i|]; [|exact Hrec].
    destruct Hrec as (Hi & Htake & Hd' & Hafter). repeat split; auto. lia.
Qed.

Lemma C6_subevents_in_order_witness :
  let origEvent := example_event 1 "PARENT" "{}" in
  let p := _preprocessor parent_db origEvent empty_store in
  let r := _reducer parent_db (snd (fst p)) (snd p) in
  let a := _applyEvent parent_db (fst r) (Nat.eqb 0 0) (snd r) in
  let evs := [sub_event "CHILD" "{}"; sub_event "BAD" "{}"; sub_event "NEVER" "{}"] in
  (0 <= 100)%nat /\
  has_error (fst (fst p)) = false /\ has_error (fst r) = false /\
  has_error (fst a) = false /\ events (fst a) = Some evs /\
  (let '(evs', failed, s') :=
     sequential_subevents (fun sub => _handleEvent parent_db sub 1) (v (fst a))
                          [] evs (snd a) in
   _handleEvent parent_db origEvent 0 empty_store =
     (match failed with
      | Some i =>
          set_error
            (Some {[ "_handle" := "subevent " +:+ string_of_nat i +:+ " failed" ]})
            (set_events (Some evs') (fst a))
      | None => set_events (Some evs') (fst a)
      end, s') /\
   length evs' = length evs /\
   match failed with
   | Some i =>
       (i < length evs)%nat /\
       Forall (fun d => has_error d = false /\ v d = None) (take i evs') /\
       (exists d, evs' !! i = Some d /\ has_error d = true /\ v d = None /\
                  result d = None) /\
       (forall j, (i < j)%nat -> evs' !! j = evs !! j)
   | None => Forall (fun d => has_error d = false /\ v d = None) evs'
   end) /\
  error (fst (_handleEvent parent_db origEvent 0 empty_store)) =
    Some {[ "_handle" := "subevent 1 failed" ]} /\
  (events (fst (_handleEvent parent_db origEvent 0 empty_store)) ≫= (fun l => l !! 2%nat))
    = Some (sub_event "NEVER" "{}").
Proof.
  intros origEvent p r a evs.
  split; [lia|]. split; [reflexivity|]. split; [reflexivity|].
  split; [reflexivity|]. split; [reflexivity|]. split; [|split; reflexivity].
  apply (C6_subevents_in_order parent_db origEvent 0 empty_store
           (fst (fst p)) (snd (fst p)) (snd p) (fst r) (snd r) (fst a) (snd a) evs).
  - lia.
  - reflexivity.
  - reflexivity.
  - reflexivity.
  - reflexivity.
  - reflexivity.
  - reflexivity.
  - reflexivity.
Defined.

(** ** The event the reducers see, in general *)

(** As long as every preprocessor returns a falsy value (it changes the
    event in place), the event that [_preprocessor] returns is the content of
    the object it was called with. *)
Lemma preprocessor_loop_in_place models orig s :
  (forall model f t e, In model models -> preprocessor model = Some f ->
                       snd (f t e) = PReturns None) ->
  let '(event, orig', _) := preprocessor_loop models orig None s in
  has_error event = false -> event = orig'.
Proof.
  revert orig s. induction models as [|model rest IH]; intros orig s Hall; simpl.
  - reflexivity.
  - destruct (preprocessor model) as [f|] eqn:Hf.
    + pose proof (Hall model f (tables s) orig (or_introl eq_refl) Hf) as Hout.
      destruct (f (tables s) orig) as [event' out]. simpl in Hout. subst out.
      destruct (preprocessor_check (v orig) (thrown_of_map <$> error event')
                  (v event') (type event')) as [t|].
      * simpl. discriminate.
      * apply IH. intros m g t e Hin. apply Hall. right. exact Hin.
    + simpl. discriminate.
Qed.

(** Whatever event [_preprocessor] returns, every reducer is called with the
    content of the object that was passed to [_handleEvent]. *)
Lemma _handleEvent_reduces_original_object db origEvent depth s event1 orig1 s1 :
  (depth <= 100)%nat ->
  _preprocessor db origEvent s = (event1, orig1, s1) ->
  has_error event1 = false ->
  forall key, In key (reducerNames db) ->
    In (FxReducer key orig1) (log (snd (_handleEvent db origEvent depth s))).
Proof.
  intros Hd Hp He key Hin.
  assert (Hred : In (FxReducer key orig1) (log (snd (_reducer db orig1 s1)))).
  { rewrite _reducer_store. destruct (reducer_calls_log db orig1 s1) as (Hl & _).
    rewrite Hl. apply in_or_app. right. apply List.in_map_iff. exists key. auto. }
  rewrite _handleEvent_unfold, (proj2 (Nat.ltb_ge 100 depth) Hd).
  unfold handleEvent_body. rewrite Hp, He.
  destruct (_reducer db orig1 s1) as [event2 s2]. simpl in Hred.
  destruct (has_error event2); [exact Hred|].
  pose proof (proj1 (_applyEvent_steps db event2 (Nat.eqb depth 0) s2)) as [_ [l3 Hl3]].
  destruct (_applyEvent db event2 (Nat.eqb depth 0) s2) as [event3 s3]. simpl in Hl3.
  assert (H3 : In (FxReducer key orig1) (log s3))
    by (rewrite Hl3; apply in_or_app; left; exact Hred).
  destruct (has_error event3); [exact H3|].
  destruct (events event3) as [evs|]; [|exact H3].
  pose proof (subevents_loop_preserves advances
                (fun sub => _handleEvent db sub (S depth))
                advances_refl advances_trans
                (fun ev s0 => proj1 (_handleEvent_steps db ev (S depth) s0))
                (length evs) 0%nat event3 s3) as [_ [l4 Hl4]].
  rewrite Hl4. apply in_or_app. left. exact H3.
Qed.

(** ** A failed round leaves the data as it was *)

Lemma same_data_refl e : same_data e e.
Proof. split; reflexivity. Qed.

Lemma same_data_trans e1 e2 e3 : same_data e1 e2 -> same_data e2 e3 -> same_data e1 e3.
Proof. intros [? ?] [? ?]. split; congruence. Qed.

Lemma logged_fold_same_data keys e :
  same_data e (fold_left (fun e k => logged (FxQueueGet k) e) keys e).
Proof.
  revert e. induction keys as [|k rest IH]; intros e; simpl.
  - apply same_data_refl.
  - eapply same_data_trans; [|apply IH]. split; reflexivity.
Qed.

Lemma sweep_same_data n e : same_data e (sweep n e).
Proof.
  unfold sweep. destruct (Z.leb (_maxWaitingFor (waiters e)) n);
    [|apply same_data_refl].
  eapply same_data_trans; [|apply logged_fold_same_data]. split; reflexivity.
Qed.

Lemma _triggerEventListeners_same_data event e :
  same_data e (_triggerEventListeners event e).
Proof.
  unfold _triggerEventListeners.
  set (o := v event ≫= _).
  set (e1 := match v event, o with Some n, Some _ => _ | _, _ => e end).
  assert (H1 : same_data e e1).
  { unfold e1. destruct (v event); [destruct o|]; split; reflexivity. }
  set (e2 := match v event with Some n => sweep n e1 | None => e1 end).
  assert (H2 : same_data e e2).
  { unfold e2. destruct (v event); [|exact H1].
    eapply same_data_trans; [exact H1 | apply sweep_same_data]. }
  destruct (has_error event).
  - destruct (0 <? listenerCount "error" e2)%nat; [|exact H2].
    eapply same_data_trans; [exact H2|]. split; reflexivity.
  - destruct o as [id|].
    + unfold same_data. rewrite (proj2 (settle_frame _ _ _)). exact H2.
    + eapply same_data_trans; [exact H2|]. split; reflexivity.
Qed.

(** Inside the transaction, an event that is skipped or that ends in error
    leaves tables and version as they were. *)
Lemma handle_in_transaction_same_data db event e :
  match fst (handle_in_transaction db event e) with
  | Some stored => has_error stored = true
  | None => True
  end ->
  same_data e (snd (handle_in_transaction db event e)).
Proof.
  unfold handle_in_transaction, getVersion.
  destruct (match v event with Some n => Z.leb n (user_version (rw e)) | None => false end).
  - intros _. split; reflexivity.
  - set (s := run (SAVEPOINT "handle") _).
    pose proof (proj1 (_handleEvent_steps db
                         (set_result None (set_error None event)) 0 s)) as [Hsp _].
    destruct (_handleEvent db (set_result None (set_error None event)) 0 s)
      as [r s1]. cbn [snd] in Hsp.
    destruct (has_error r) eqn:He.
    + intros _.
      assert (Hroll : tables (run (ROLLBACK_TO_SAVEPOINT "handle") s1) = tables (rw e) /\
                      user_version (run (ROLLBACK_TO_SAVEPOINT "handle") s1)
                        = user_version (rw e)).
      { unfold run. cbn [add_log savepoints tables user_version log].
        rewrite Hsp. unfold s. simpl. split; reflexivity. }
      unfold queue_set. destruct (v (move_result_to_failedResult r)); exact Hroll.
    + unfold queue_set. destruct (v r); cbn [fst]; congruence.
Qed.

Lemma after_transaction_same_data lastV errorCount resultEvent e :
  same_data e (snd (after_transaction lastV errorCount resultEvent e)).
Proof.
  unfold after_transaction.
  destruct (if has_error resultEvent then _ else _) as [lastV' errorCount'].
  pose proof (_triggerEventListeners_same_data resultEvent e) as H.
  destruct (_reallyStop (polling (_triggerEventListeners resultEvent e)) || _);
    exact H.
Qed.

Lemma after_transaction_failed lastV errorCount resultEvent e lastV' errorCount' e' :
  after_transaction lastV errorCount resultEvent e = (Continues lastV' errorCount', e') ->
  errorCount' <> 0 ->
  has_error resultEvent = true.
Proof.
  unfold after_transaction. destruct (has_error resultEvent); [reflexivity|].
  destruct (_reallyStop (polling (_triggerEventListeners resultEvent e)) || _);
    intros H Hne; inversion H. congruence.
Qed.

(** A round that ends with a positive error count has changed neither the
    tables nor the persisted version: the next round asks the queue for the
    same event. *)
Lemma failed_round_same_data db lastV errorCount e lastV' errorCount' e' :
  waitForEvent_round db lastV errorCount e = (Continues lastV' errorCount', e') ->
  errorCount' <> 0 ->
  same_data e e'.
Proof.
  unfold waitForEvent_round.
  destruct (negb (Z.eqb (_minVersion (polling e)) 0 || _));
    [intros H; discriminate H|].
  destruct (negb (Z.eqb errorCount 0) && Z.ltb MAX_RETRY errorCount);
    [intros H; discriminate H|].
  set (e1 := if negb (Z.eqb errorCount 0) then back_off db errorCount e else e).
  assert (H1 : same_data e e1).
  { unfold e1. destruct (negb (Z.eqb errorCount 0)); [|apply same_data_refl].
    destruct (back_off_frame db errorCount e) as (_ & Hv & _).
    unfold back_off in *.
    destruct (negb (String.eqb (rwDb_file db) ":memory:"));
      destruct (negb (String.eqb (queue_db_file db) ":memory:")); split; reflexivity. }
  unfold getVersion.
  set (e2 := logged FxGetVersion e1).
  assert (H2 : same_data e e2)
    by (eapply same_data_trans; [exact H1 | split; reflexivity]).
  destruct (store_fault db (length (log (rw e2)))).
  { intros H _. inversion H. subst. eapply same_data_trans; [exact H2 | split; reflexivity]. }
  unfold queue_getNext.
  set (e3 := logged (FxGetNext _ _) e2).
  assert (H3 : same_data e e3)
    by (eapply same_data_trans; [exact H2 | split; reflexivity]).
  destruct (next_key (user_version (rw e1)) (queue e2)) as [k|];
    [|destruct (negb (_isPolling (polling e) || _)); cbn iota; intros H; discriminate H].
  destruct (set_v (Some k) <$> queue e2 !! k) as [event|];
    [|intros H; discriminate H].
  unfold withTransaction.
  destruct (store_fault db (length (log (rw e3)))) as [x|].
  - intros H Hne.
    pose proof (after_transaction_same_data lastV errorCount
                  (set_error (Some {[ "_SQLite" := errorToString x ]}) event)
                  (logged FxWithTransaction e3)) as Ha.
    rewrite H in Ha. cbn [snd] in Ha.
    eapply same_data_trans; [exact H3|].
    eapply same_data_trans; [|exact Ha]. split; reflexivity.
  - pose proof (handle_in_transaction_same_data db event (logged FxWithTransaction e3))
      as Ht.
    destruct (handle_in_transaction db event (logged FxWithTransaction e3))
      as [r e4]. cbn [fst snd] in Ht.
    set (e5 := set_rw _ e4).
    assert (H45 : same_data e4 e5) by (split; reflexivity).
    assert (H34 : same_data e3 (logged FxWithTransaction e3)) by (split; reflexivity).
    destruct r as [resultEvent|].
    + intros H Hne.
      pose proof (after_transaction_failed _ _ _ _ _ _ _ H Hne) as He.
      pose proof (after_transaction_same_data (default 0 (v event)) errorCount
                    resultEvent e5) as Ha.
      rewrite H in Ha. cbn [snd] in Ha.
      eapply same_data_trans; [exact H3|].
      eapply same_data_trans; [exact H34|].
      eapply same_data_trans; [exact (Ht He)|].
      eapply same_data_trans; [exact H45 | exact Ha].
    + intros H Hne. inversion H. subst.
      eapply same_data_trans; [exact H3|].
      eapply same_data_trans; [exact H34|].
      eapply same_data_trans; [exact (Ht I)|]. exact H45.
Qed.

(** ** Failed events *)

Lemma only_logged_refl e : only_logged e e.
Proof.
  exists []. destruct e as [[t u sp lg] q p w ls]. cbn. rewrite app_nil_r. reflexivity.
Qed.

Lemma only_logged_logged fx e e' : only_logged e e' -> only_logged e (logged fx e').
Proof.
  intros [l ->]. exists (l ++ [fx]).
  cbn [logged set_rw rw add_log tables user_version savepoints log queue polling
       waiters listeners].
  rewrite app_assoc. reflexivity.
Qed.

Lemma only_logged_fields e e' :
  only_logged e e' ->
  tables (rw e') = tables (rw e) /\ user_version (rw e') = user_version (rw e) /\
  savepoints (rw e') = savepoints (rw e) /\ queue e' = queue e /\
  polling e' = polling e /\ waiters e' = waiters e /\ listeners e' = listeners e.
Proof. intros [l ->]. repeat split; reflexivity. Qed.

Lemma only_logged_same_data e e' : only_logged e e' -> same_data e e'.
Proof. intros H. destruct (only_logged_fields e e' H) as (Ht & Hu & _). split; assumption. Qed.

Lemma back_off_only_logged db errorCount e : only_logged e (back_off db errorCount e).
Proof.
  unfold back_off.
  destruct (negb (String.eqb (rwDb_file db) ":memory:"));
    destruct (negb (String.eqb (queue_db_file db) ":memory:"));
    repeat apply only_logged_logged; apply only_logged_refl.
Qed.

Lemma sweep_polling n e :
  polling (sweep n e) = polling e /\ queue (sweep n e) = queue e.
Proof.
  unfold sweep. destruct (Z.leb (_maxWaitingFor (waiters e)) n); [|auto].
  match goal with
  | |- context [fold_left _ ?keys ?e0] =>
      destruct (logged_fold_waiters keys e0) as (_ & _ & Hq & Hp & _);
      cbv zeta in Hq, Hp; rewrite Hq, Hp; auto
  end.
Qed.

Lemma settle_polling id p e :
  polling (settle id p e) = polling e /\ queue (settle id p e) = queue e.
Proof.
  unfold settle. destruct (promises (waiters e) !! id) as [[]|]; auto.
Qed.

(** [_triggerEventListeners] leaves the polling state and the queue as they
    are. *)
Lemma _triggerEventListeners_polling event e :
  polling (_triggerEventListeners event e) = polling e /\
  queue (_triggerEventListeners event e) = queue e.
Proof.
  unfold _triggerEventListeners.
  set (o := v event ≫= _).
  set (e1 := match v event, o with Some n, Some _ => _ | _, _ => e end).
  assert (H1 : polling e1 = polling e /\ queue e1 = queue e)
    by (unfold e1; destruct (v event); [destruct o|]; auto).
  set (e2 := match v event with Some n => sweep n e1 | None => e1 end).
  assert (H2 : polling e2 = polling e /\ queue e2 = queue e).
  { unfold e2. destruct (v event); [|exact H1].
    destruct (sweep_polling z e1) as [Hp Hq]. destruct H1. split; congruence. }
  destruct (has_error event).
  - destruct (0 <? listenerCount "error" e2)%nat; exact H2.
  - destruct o as [id|]; [|exact H2].
    destruct (settle_polling id (Resolved event) (try_ignore (emit "result" event e2)))
      as [Hp Hq].
    rewrite Hp, Hq. exact H2.
Qed.






(** * Further properties of the engine and of DB.js *)

(** ** Error texts *)

Lemma collapse_spaces_single_spaced b s : single_spaced b (collapse_spaces b s) = true.
Proof.
  revert b. induction s as [|c rest IH]; intros b; [reflexivity|].
  cbn [collapse_spaces]. destruct (is_space c) eqn:Hc.
  - destruct b; [apply IH|].
    cbn [single_spaced]. change (is_space " ") with true. cbv iota.
    rewrite Ascii.eqb_refl. cbn [negb andb]. apply IH.
  - cbn [single_spaced]. rewrite Hc. apply IH.
Qed.

Lemma collapse_spaces_non_spaces b s : non_spaces (collapse_spaces b s) = non_spaces s.
Proof.
  revert b. induction s as [|c rest IH]; intros b; [reflexivity|].
  cbn [collapse_spaces non_spaces]. destruct (is_space c) eqn:Hc.
  - destruct b; [apply IH|].
    cbn [non_spaces]. change (is_space " ") with true. cbv iota. apply IH.
  - cbn [non_spaces]. rewrite Hc. f_equal. apply IH.
Qed.

Lemma collapse_spaces_fixed b s : single_spaced b s = true -> collapse_spaces b s = s.
Proof.
  revert b. induction s as [|c rest IH]; intros b; [reflexivity|].
  cbn [collapse_spaces single_spaced]. destruct (is_space c) eqn:Hc.
  - intros H. apply andb_prop in H as [H Hrest]. apply andb_prop in H as [Heq Hb].
    apply Ascii.eqb_eq in Heq. destruct b; [discriminate Hb|].
    rewrite (IH true Hrest). congruence.
  - intros H. rewrite (IH false H). reflexivity.
Qed.

(** X1: for an error whose text is Latin-1 (code units below 256, the
    texts a string of this development holds), the text [errorToString]
    returns has white space only as single blanks (no tab, no line break, no
    no-break space, no two blanks in a row), keeps every other character of
    the error's text in order, and is left as it is when [errorToString]'s
    replacement is applied to it again. *)
Theorem X1_errorToString_single_line error :
  single_spaced false (errorToString error) = true /\
  non_spaces (errorToString error) = non_spaces (error_text error) /\
  collapse_spaces false (errorToString error) = errorToString error.
Proof.
  assert (H : single_spaced false (errorToString error) = true).
  { unfold errorToString. apply collapse_spaces_single_spaced. }
  split; [exact H|]. split.
  - unfold errorToString, error_text. destruct error; apply collapse_spaces_non_spaces.
  - apply collapse_spaces_fixed. exact H.
Qed.

(** ** The preprocess phase *)

Lemma preprocessor_check_None_error {A} v0 (f : A -> Thrown) (err : option A) nv ntype :
  preprocessor_check v0 (f <$> err) nv ntype = None -> err = None.
Proof. destruct err; [discriminate | reflexivity]. Qed.

Lemma preprocessor_check_None_type v0 nerror nv ntype :
  preprocessor_check v0 nerror nv ntype = None -> truthy ntype = true.
Proof.
  unfold preprocessor_check. destruct nerror; [discriminate|].
  destruct (bool_decide (nv = v0)); [|discriminate].
  destruct (truthy ntype); [reflexivity | discriminate].
Qed.

Lemma preprocessor_check_thrown v0 e : preprocessor_check v0 e None "" <> None.
Proof.
  unfold preprocessor_check. destruct e; [discriminate|].
  destruct (bool_decide (None = v0)); discriminate.
Qed.

(** What the loop of [_preprocessor] yields: the calls it made, and either
    the event that passed every check or the error of the first model whose
    check failed. *)
Lemma preprocessor_loop_calls models orig cur s :
  let '(r, _, s') := preprocessor_loop models orig cur s in
  v r = v (default orig cur) /\
  exists k l,
    (k <= length models)%nat /\
    log s' = log s ++ l /\
    map called_preprocessor l = map (fun m => Some (name m)) (take k models) /\
    ((k = length models /\
      (models = [] -> r = default orig cur) /\
      (models <> [] -> has_error r = false /\ truthy (type r) = true))
     \/ (exists i model msg,
           k = S i /\ models !! i = Some model /\
           error r = Some {[ "_preprocess_" +:+ name model := msg ]})).
Proof.
  revert orig cur s. induction models as [|model rest IH]; intros orig cur s.
  - cbn [preprocessor_loop]. split; [reflexivity|].
    exists 0%nat, []. rewrite app_nil_r.
    repeat split; try reflexivity.
    left. split; [reflexivity|]. split; [reflexivity|]. intros Hne; congruence.
  - cbn [preprocessor_loop].
    destruct (match preprocessor model with Some f => _ | None => _ end)
      as [event' out].
    set (fx := FxPreprocessor (name model) (default orig cur)).
    set (orig' := match cur with None => event' | Some _ => orig end).
    set (cur' := match cur with None => None | Some _ => Some event' end).
    assert (Hd : default orig' cur' = event') by (unfold orig', cur'; destruct cur; reflexivity).
    destruct (match out with PThrows e => _ | PReturns x => _ end) as [t|] eqn:Hchk.
    + split; [reflexivity|].
      exists 1%nat, [fx]. repeat split; try reflexivity.
      * cbn [length]. lia.
      * right. exists 0%nat, model, (errorToString (Some t)).
        repeat split; reflexivity.
    + assert (Hnext : exists cur2,
                (match out with
                 | PReturns (Some n) => preprocessor_loop rest orig' (Some n) (add_log fx s)
                 | _ => preprocessor_loop rest orig' cur' (add_log fx s)
                 end) = preprocessor_loop rest orig' cur2 (add_log fx s) /\
                v (default orig' cur2) = v (default orig cur) /\
                has_error (default orig' cur2) = false /\
                truthy (type (default orig' cur2)) = true).
      { destruct out as [e|[n|]].
        - exfalso. exact (preprocessor_check_thrown _ _ Hchk).
        - exists (Some n). split; [reflexivity|]. cbn [default from_option id].
          split; [exact (preprocessor_check_None_v _ _ _ _ Hchk)|]. split.
          + unfold has_error. rewrite (preprocessor_check_None_error _ _ _ _ _ Hchk).
            reflexivity.
          + exact (preprocessor_check_None_type _ _ _ _ Hchk).
        - exists cur'. split; [reflexivity|]. rewrite Hd.
          split; [exact (preprocessor_check_None_v _ _ _ _ Hchk)|]. split.
          + unfold has_error. rewrite (preprocessor_check_None_error _ _ _ _ _ Hchk).
            reflexivity.
          + exact (preprocessor_check_None_type _ _ _ _ Hchk). }
      destruct Hnext as (cur2 & -> & Hv & He & Ht).
      specialize (IH orig' cur2 (add_log fx s)).
      destruct (preprocessor_loop rest orig' cur2 (add_log fx s)) as [[r o] s'].
      destruct IH as (Hvr & k & l & Hk & Hlog & Hcalls & Hout).
      split; [congruence|].
      exists (S k), (fx :: l). split; [cbn [length]; lia|].
      split; [rewrite Hlog; cbn [add_log log]; rewrite <- app_assoc; reflexivity|].
      split; [cbn [map take]; f_equal; exact Hcalls|].
      destruct Hout as [(Hall & Hnil & Hcons)|(i & m & msg & Hi & Hm & Herr)].
      * left. split; [cbn [length]; congruence|]. split; [discriminate|].
        intros _. destruct rest as [|m' rest'].
        -- rewrite (Hnil eq_refl). split; assumption.
        -- apply Hcons. discriminate.
      * right. exists (S i), m, msg. repeat split; [congruence | exact Hm | exact Herr].
Qed.

(** X2: whatever the preprocessors do, the event [_preprocessor] returns
    carries the [v] of the event it was given; when at least one preprocessor
    is registered and the returned event has no error, its [type] is
    non-empty. *)
Theorem X2_preprocessor_keeps_version_and_type db event s :
  let r := fst (fst (_preprocessor db event s)) in
  v r = v event /\
  (preprocModels db <> [] -> has_error r = false -> truthy (type r) = true).
Proof.
  unfold _preprocessor.
  pose proof (preprocessor_loop_calls (preprocModels db) event None s) as H.
  destruct (preprocessor_loop (preprocModels db) event None s) as [[r o] s'].
  cbn [fst]. destruct H as (Hv & k & l & _ & _ & _ & Hout).
  split; [exact Hv|]. intros Hne Herr.
  destruct Hout as [(_ & _ & Hcons)|(i & m & msg & _ & _ & Hm)].
  - apply Hcons. exact Hne.
  - unfold has_error in Herr. rewrite Hm in Herr. discriminate.
Qed.

(** X3: the preprocessors are called one after the other in the order of
    [preprocModels], and the first one whose outcome is rejected ends the
    phase: the calls made are those of the first [k] models, [k] is their
    number when the returned event has no error, and otherwise the error
    object has the single key [_preprocess_<name>] of the [k]-th model. *)
Theorem X3_preprocessor_stops_at_first_failure db event s :
  let '(r, _, s') := _preprocessor db event s in
  exists k l,
    (k <= length (preprocModels db))%nat /\
    log s' = log s ++ l /\
    map called_preprocessor l = map (fun m => Some (name m)) (take k (preprocModels db)) /\
    (has_error r = false -> k = length (preprocModels db)) /\
    (preprocModels db <> [] -> has_error r = true ->
       exists i model msg,
         k = S i /\ preprocModels db !! i = Some model /\
         error r = Some {[ "_preprocess_" +:+ name model := msg ]}).
Proof.
  unfold _preprocessor.
  pose proof (preprocessor_loop_calls (preprocModels db) event None s) as H.
  destruct (preprocessor_loop (preprocModels db) event None s) as [[r o] s'].
  destruct H as (_ & k & l & Hk & Hlog & Hcalls & Hout).
  exists k, l. repeat split; try assumption.
  - intros Herr. destruct Hout as [(Hall & _)|(i & m & msg & _ & _ & Hm)]; [exact Hall|].
    unfold has_error in Herr. rewrite Hm in Herr. discriminate.
  - intros Hne Herr. destruct Hout as [(_ & _ & Hcons)|Hfail]; [|exact Hfail].
    destruct (Hcons Hne) as [Hno _]. congruence.
Qed.

(** ** The reduce phase: calls and sub-events *)

(** The events the callbacks push, in the order in which they go on. *)
Lemma reducer_fold_pushed l :
  forall res pushed,
    snd (fold_left reducer_step l (res, pushed)) =
      pushed ++ concat (map (fun a => reducer_events (snd a)) l).
Proof.
  induction l as [|[key out] rest IH]; intros res pushed; cbn [fold_left map concat].
  - rewrite app_nil_r. reflexivity.
  - assert (Hstep : exists res1,
              reducer_step (res, pushed) (key, out) =
                (res1, pushed ++ reducer_events out)).
    { unfold reducer_step. destruct out as [e| | |o [| |l|]];
        cbn [reducer_events]; rewrite ?app_nil_r; eexists; reflexivity. }
    destruct Hstep as [res1 ->]. rewrite IH. cbn [snd]. rewrite <- app_assoc. reflexivity.
Qed.

(** X4: [_reducer] calls every reducer of [reducerNames] exactly once, in
    that order and each with the event as it was passed in (none sees what
    another one returned); the calls leave the tables, the persisted version
    and the savepoints as they were. *)
Theorem X4_reducers_called_once_in_order db event s :
  let s' := snd (_reducer db event s) in
  log s' = log s ++ map (fun key => FxReducer key event) (reducerNames db) /\
  tables s' = tables s /\ user_version s' = user_version s /\
  savepoints s' = savepoints s.
Proof.
  cbv zeta. rewrite _reducer_store. apply reducer_calls_log.
Qed.

(** X5: the sub-events the reducers return are appended to the [events]
    array of the event when it has one (also when a reducer failed, the
    array being shared with the argument), the sub-events of one reducer
    together and in its order, the reducers one after the other in the order
    in which their answers arrive, which is some rearrangement of
    [reducerNames]; an event without [events] gets the array of the returned
    sub-events when no reducer failed and there is at least one, and no
    [events] key otherwise. *)
Theorem X5_reducer_subevents db event s :
  let r := fst (_reducer db event s) in
  exists order,
    order ≡ₚ reducerNames db /\
    let pushed :=
      concat (map (fun key => reducer_events (reducer_out db (tables s) event key))
                  order) in
    match events event with
    | Some l => events r = Some (l ++ pushed)
    | None =>
        (has_error r = false ->
         events r = match pushed with [] => None | _ :: _ => Some pushed end) /\
        (has_error event = false -> has_error r = true -> events r = None)
    end.
Proof.
  cbv zeta. unfold _reducer.
  destruct (settle_order_answers (settled_at db (length (log s)))
              (reducer_out db (tables s) event) (reducerNames db)) as [Hall Hperm].
  cbv zeta in Hall, Hperm.
  set (l := settle_order _ _) in *.
  exists (map fst l). split; [exact Hperm|].
  assert (Hblocks : map (fun a => reducer_events (snd a)) l =
                    map (fun key => reducer_events (reducer_out db (tables s) event key))
                        (map fst l)).
  { clear Hperm. induction Hall as [|a rest Ha _ IH]; cbn [map]; [reflexivity|].
    rewrite Ha, IH. reflexivity. }
  rewrite <- Hblocks. clear Hblocks.
  destruct (fold_left reducer_step l ([], [])) as [res pushed] eqn:Hf.
  assert (Hp : pushed = concat (map (fun a => reducer_events (snd a)) l)).
  { change pushed with (snd (res, pushed)). rewrite <- Hf.
    apply (reducer_fold_pushed l [] []). }
  rewrite <- Hp. clear Hp Hf.
  destruct (existsb (reducer_failed res) (reducerNames db)); cbn [fst].
  - destruct (events event) as [l0|] eqn:He;
      cbn [set_error set_events events fmap option_fmap option_map];
      [reflexivity|].
    split; [intros H; discriminate H | intros _ _; reflexivity].
  - destruct (events event) as [l0|] eqn:He;
      cbn [set_result set_events events fmap option_fmap option_map default from_option id app].
    + destruct (l0 ++ pushed) eqn:Hall'; reflexivity.
    + split.
      * intros _. destruct pushed; reflexivity.
      * intros H0 H1. unfold has_error in *.
        destruct pushed; cbn in H1; destruct (error event); discriminate.
Qed.

(** The statement of X5 at two reducers of which the second answers first:
    the reducers are called in the order of [reducerNames], and the
    sub-events and the entries of [result] come in the order of the
    answers. *)
Lemma X5_reducer_subevents_witness :
  let event := example_event 1 "X" "{}" in
  let p := _reducer racing_db event empty_store in
  log (snd p) = [FxReducer "A" event; FxReducer "B" event] /\
  events (fst p) = Some [sub_event "FROM_B" "{}"; sub_event "FROM_A" "{}"] /\
  result (fst p) = Some [("B", mkReducerResult "" "b"); ("A", mkReducerResult "" "a")] /\
  exists order,
    order ≡ₚ reducerNames racing_db /\
    let pushed :=
      concat (map (fun key => reducer_events
                                (reducer_out racing_db (tables empty_store) event key))
                  order) in
    match events event with
    | Some l => events (fst p) = Some (l ++ pushed)
    | None =>
        (has_error (fst p) = false ->
         events (fst p) = match pushed with [] => None | _ :: _ => Some pushed end) /\
        (has_error event = false -> has_error (fst p) = true -> events (fst p) = None)
    end.
Proof.
  intros event p.
  split; [reflexivity|]. split; [reflexivity|]. split; [reflexivity|].
  exact (X5_reducer_subevents racing_db event empty_store).
Defined.

(** ** The apply phase: phases, errors and the writable flag *)

(** The last step of the [try] block of [_applyEvent]: the derivers. *)
Lemma derive_tail_trace db event phase2 s2 :
  let '(phase, x, _, s3) :=
    (if negb (has_error event) && negb (bool_decide (deriverModels db = []))
     then
       let '(event3, s3, x3) :=
         settleAll (deriverModels db) derive_model (event, s2) in
       ("derive", x3, event3, s3)
     else (phase2, None, event, s2)) in
  (x = None \/ phase = "derive") /\
  user_version s3 = user_version s2 /\
  exists derived, log s3 = log s2 ++ derived /\
                  Forall (fun fx => is_deriver fx = true) derived.
Proof.
  destruct (negb (has_error event) && negb (bool_decide (deriverModels db = []))).
  - pose proof (settleAll_derive_steps (deriverModels db) (event, s2)) as H.
    destruct (settleAll (deriverModels db) derive_model (event, s2))
      as [[event3 s3] x3]. cbn [fst snd] in H.
    destruct H as (_ & Hu & l & Hl & Hd).
    split; [right; reflexivity|]. split; [exact Hu|]. exists l. auto.
  - split; [left; reflexivity|]. split; [reflexivity|].
    exists []. rewrite app_nil_r. auto.
Qed.

(** The first step of the [try] block: the changes are applied. *)
Lemma apply_head_trace db event s0 :
  exists phase1 s1 x1,
    (match result event with
     | Some (entry :: entries) =>
         ("apply", settleAll (entry :: entries) (apply_entry db) s0)
     | _ => ("???", (s0, None))
     end) = (phase1, (s1, x1)) /\
    (x1 <> None -> phase1 = "apply") /\
    user_version s1 = user_version s0 /\
    exists applied, log s1 = log s0 ++ applied /\
                    Forall (fun fx => is_applyChanges fx = true) applied.
Proof.
  destruct (result event) as [[|entry entries]|].
  - exists "???", s0, None. repeat split; [congruence|].
    exists []. rewrite app_nil_r. auto.
  - pose proof (settleAll_apply_steps db (entry :: entries) s0) as H.
    destruct (settleAll (entry :: entries) (apply_entry db) s0) as [s1 x1].
    cbn [fst] in H. destruct H as (_ & Hu & l & Hl & Ha).
    exists "apply", s1, x1. repeat split; [exact Hu|]. exists l. auto.
  - exists "???", s0, None. repeat split; [congruence|].
    exists []. rewrite app_nil_r. auto.
Qed.

Lemma version_statement_write event :
  is_version_write (FxRun (version_statement event)) = true.
Proof. unfold version_statement. destruct (v event); reflexivity. Qed.

Lemma version_statement_run event s :
  user_version (run (version_statement event) s) = default 0 (v event).
Proof. unfold version_statement. destruct (v event); reflexivity. Qed.

(** The calls of the [try] block of [_applyEvent], by phase, and the phase
    in which an exception left it. *)
Lemma applyEvent_try_trace db event upd s :
  let '(phase, x, _, s1) := applyEvent_try db event upd s in
  exists applied written derived,
    log s1 = log (setWritable_all db true s) ++ applied ++ written ++ derived /\
    Forall (fun fx => is_applyChanges fx = true) applied /\
    Forall (fun fx => is_version_write fx = true) written /\
    Forall (fun fx => is_deriver fx = true) derived /\
    (upd = false -> written = []) /\
    match x with
    | None => upd = true -> user_version s1 = default 0 (v event)
    | Some _ =>
        (phase = "apply" /\ written = [] /\ derived = []) \/
        (phase = "version" /\ upd = true /\ derived = []) \/
        phase = "derive"
    end.
Proof.
  unfold applyEvent_try. set (s0 := setWritable_all db true s).
  destruct (apply_head_trace db event s0)
    as (phase1 & s1 & x1 & -> & Hp1 & Hu1 & applied & Hl1 & Ha).
  destruct x1 as [e|].
  { exists applied, [], []. rewrite !app_nil_r.
    split; [exact Hl1|]. split; [exact Ha|]. do 3 (split; [auto|]).
    left. split; [apply Hp1; discriminate | auto]. }
  destruct upd.
  - unfold write_version.
    destruct (store_fault db (length (log s1))) as [e|].
    + exists applied, [FxRun (version_statement event)], [].
      cbn [add_log log]. rewrite Hl1, app_nil_r, <- app_assoc.
      split; [reflexivity|]. split; [exact Ha|].
      split; [constructor; [apply version_statement_write | constructor]|].
      split; [constructor|]. split; [discriminate|]. right; left. auto.
    + pose proof (derive_tail_trace db event "version" (run (version_statement event) s1))
        as Ht.
      destruct (if negb (has_error event) && negb (bool_decide (deriverModels db = []))
                then _ else _) as [[[phase x] event3] s3].
      cbv beta iota in Ht. destruct Ht as (Hx & Hu & derived & Hl & Hd).
      exists applied, [FxRun (version_statement event)], derived.
      rewrite Hl, run_advances_log, Hl1, <- !app_assoc.
      split; [reflexivity|]. split; [exact Ha|].
      split; [constructor; [apply version_statement_write | constructor]|].
      split; [exact Hd|]. split; [discriminate|].
      destruct x as [e|].
      * right; right. destruct Hx as [Hx|Hx]; [discriminate | exact Hx].
      * intros _. rewrite Hu. apply version_statement_run.
  - pose proof (derive_tail_trace db event phase1 s1) as Ht.
    destruct (if negb (has_error event) && negb (bool_decide (deriverModels db = []))
              then _ else _) as [[[phase x] event3] s3].
    cbv beta iota in Ht. destruct Ht as (Hx & Hu & derived & Hl & Hd).
    exists applied, [], derived. rewrite Hl, Hl1, <- !app_assoc. cbn [app].
    split; [reflexivity|]. split; [exact Ha|]. split; [constructor|].
    split; [exact Hd|]. split; [reflexivity|].
    destruct x as [e|]; [|discriminate].
    right; right. destruct Hx as [Hx|Hx]; [discriminate | exact Hx].
Qed.

Lemma Forall_map_setWritable (P : Effect -> Prop) flag (ms : list Model) :
  (forall m, P (FxSetWritable (name m) flag)) ->
  Forall P (map (fun m => FxSetWritable (name m) flag) ms).
Proof. intros H. induction ms; constructor; auto. Qed.

(** An event that [_applyEvent] fails carries the key of one phase. *)
Lemma _applyEvent_failure db event upd s :
  has_error event = false ->
  has_error (fst (_applyEvent db event upd s)) = true ->
  exists phase msg,
    error (fst (_applyEvent db event upd s)) = Some {[ "_apply-" +:+ phase := msg ]}.
Proof.
  intros Hev. unfold _applyEvent.
  pose proof (applyEvent_try_fields db event upd s) as Hf.
  destruct (applyEvent_try db event upd s) as [[[phase x] event1] s1].
  cbn [fst snd] in Hf. destruct Hf as (_ & _ & Hfe & _).
  destruct x as [e|]; cbn [fst].
  - intros _. exists phase, (errorToString e).
    destruct (move_result_to_failedResult_fields event1) as (_ & Hme & _).
    cbn zeta in Hme. cbn [set_error error]. rewrite Hme, Hfe.
    unfold has_error in Hev. destruct (error event); [discriminate Hev|].
    cbn [default from_option id]. rewrite insert_empty. reflexivity.
  - intros Herr. unfold has_error in Hev, Herr. rewrite Hfe in Herr.
    destruct (error event); discriminate.
Qed.

(** X6: when [_applyEvent] fails an event that came in without error, the
    error object has the single key [_apply-<phase>] of the phase the
    exception came from (apply, version or derive), [result] is moved to
    [failedResult] and [v] is kept; an exception of the apply phase means
    that neither the version write nor a deriver was reached, one of the
    version phase means that no deriver was called. *)
Theorem X6_apply_failure db event upd s :
  has_error event = false ->
  let '(r, s') := _applyEvent db event upd s in
  has_error r = true ->
  exists phase msg,
    In phase ["apply"; "version"; "derive"] /\
    error r = Some {[ "_apply-" +:+ phase := msg ]} /\
    result r = None /\
    failedResult r =
      match result event with Some x => Some x | None => failedResult event end /\
    v r = v event /\
    exists l, log s' = log s ++ l /\
      (phase = "apply" ->
         Forall (fun fx => is_version_write fx = false /\ is_deriver fx = false) l) /\
      (phase = "version" ->
         upd = true /\ Forall (fun fx => is_deriver fx = false) l).
Proof.
  intros Hev. unfold _applyEvent.
  pose proof (applyEvent_try_trace db event upd s) as Ht.
  pose proof (applyEvent_try_fields db event upd s) as Hf.
  destruct (applyEvent_try db event upd s) as [[[phase x] event1] s1].
  cbv beta iota zeta in Ht. cbn [fst snd] in Hf.
  destruct Hf as (Hfv & Hfr & Hfe & Hff).
  destruct Ht as (applied & written & derived & Hl & Ha & Hw & Hd & Hupd & Hx).
  destruct (setWritable_all_log db true s) as (Hl0 & _).
  destruct (setWritable_all_log db false s1) as (Hl1 & _).
  destruct x as [e|].
  - intros _.
    destruct (move_result_to_failedResult_fields event1) as (Hmv & Hme & Hmr & Hmf).
    cbn zeta in Hmv, Hme, Hmr, Hmf.
    assert (Hnone : error event = None)
      by (unfold has_error in Hev; destruct (error event); [discriminate | reflexivity]).
    exists phase, (errorToString e).
    split; [destruct Hx as [(-> & _)|[(-> & _)| ->]]; simpl; auto|].
    split; [cbn [set_error error]; rewrite Hme, Hfe, Hnone; cbn [default from_option id];
            rewrite insert_empty; reflexivity|].
    split; [cbn [set_error result]; exact Hmr|].
    split; [cbn [set_error failedResult]; rewrite Hmf, Hfr, Hff; reflexivity|].
    split; [cbn [set_error v]; congruence|].
    eexists. split; [rewrite Hl1, Hl, Hl0, <- !app_assoc; reflexivity|].
    split.
    + intros ->.
      destruct Hx as [(_ & -> & ->)|[(Hp & _)|Hp]]; [|discriminate Hp|discriminate Hp].
      rewrite !app_nil_l, !Forall_app. split; [|split].
      * apply Forall_map_setWritable. intros m; split; reflexivity.
      * eapply Forall_impl; [exact Ha|]. intros [] Hfx; try discriminate Hfx.
        split; reflexivity.
      * apply Forall_map_setWritable. intros m; split; reflexivity.
    + intros ->.
      destruct Hx as [(Hp & _)|[(_ & Hu & ->)|Hp]]; [discriminate Hp| |discriminate Hp].
      split; [exact Hu|].
      rewrite !app_nil_l, !Forall_app. split; [|split; [|split]].
      * apply Forall_map_setWritable. intros m; reflexivity.
      * eapply Forall_impl; [exact Ha|]. intros [] Hfx; try discriminate Hfx. reflexivity.
      * eapply Forall_impl; [exact Hw|]. intros [] Hfx; try discriminate Hfx. reflexivity.
      * apply Forall_map_setWritable. intros m; reflexivity.
  - intros Herr. unfold has_error in Hev, Herr. rewrite Hfe in Herr.
    destruct (error event); discriminate.
Qed.

Lemma X6_apply_failure_witness :
  let event := set_result (Some [("f", mkReducerResult "" "x")])
                          (example_event 1 "ADD" "x") in
  has_error event = false /\
  error (fst (_applyEvent throwing_db event true empty_store)) =
    Some {[ "_apply-apply" := "TypeError: rwStore[name].applyChanges is not a function" ]} /\
  let '(r, s') := _applyEvent throwing_db event true empty_store in
  has_error r = true ->
  exists phase msg,
    In phase ["apply"; "version"; "derive"] /\
    error r = Some {[ "_apply-" +:+ phase := msg ]} /\
    result r = None /\
    failedResult r =
      match result event with Some x => Some x | None => failedResult event end /\
    v r = v event /\
    exists l, log s' = log empty_store ++ l /\
      (phase = "apply" ->
         Forall (fun fx => is_version_write fx = false /\ is_deriver fx = false) l) /\
      (phase = "version" ->
         true = true /\ Forall (fun fx => is_deriver fx = false) l).
Proof.
  intros event. split; [reflexivity|]. split; [vm_compute; reflexivity|].
  exact (X6_apply_failure throwing_db event true empty_store eq_refl).
Defined.

(** X7: [_applyEvent] makes every read-writer writable first and read-only
    again last, whatever happens in between: its calls are
    [setWritable(true)] on each of [readWriters], then the calls of the
    phases, then [setWritable(false)] on each of them. *)
Theorem X7_writable_only_while_applying db event upd s :
  let s' := snd (_applyEvent db event upd s) in
  exists mid,
    log s' =
      log s ++ map (fun m => FxSetWritable (name m) true) (readWriters db) ++ mid
            ++ map (fun m => FxSetWritable (name m) false) (readWriters db) /\
    Forall (fun fx => is_setWritable fx = false) mid.
Proof.
  unfold _applyEvent.
  pose proof (applyEvent_try_trace db event upd s) as Ht.
  destruct (applyEvent_try db event upd s) as [[[phase x] event1] s1].
  cbv beta iota zeta in Ht. cbn [snd].
  destruct Ht as (applied & written & derived & Hl & Ha & Hw & Hd & _).
  destruct (setWritable_all_log db true s) as (Hl0 & _).
  destruct (setWritable_all_log db false s1) as (Hl1 & _).
  exists (applied ++ written ++ derived).
  split; [rewrite Hl1, Hl, Hl0, <- !app_assoc; reflexivity|].
  rewrite !Forall_app. split; [|split].
  - eapply Forall_impl; [exact Ha|]. intros [] Hfx; try discriminate Hfx. reflexivity.
  - eapply Forall_impl; [exact Hw|]. intros [] Hfx; try discriminate Hfx. reflexivity.
  - eapply Forall_impl; [exact Hd|]. intros [] Hfx; try discriminate Hfx. reflexivity.
Qed.

(** ** Events that were handled without error *)

Lemma _applyEvent_ok db event s r s' :
  _applyEvent db event true s = (r, s') ->
  has_error r = false ->
  user_version s' = default 0 (v event) /\ result r = result event /\ v r = v event.
Proof.
  unfold _applyEvent.
  pose proof (applyEvent_try_trace db event true s) as Ht.
  pose proof (applyEvent_try_fields db event true s) as Hf.
  destruct (applyEvent_try db event true s) as [[[phase x] event1] s1].
  cbv beta iota zeta in Ht. cbn [fst snd] in Hf.
  destruct Hf as (Hfv & Hfr & Hfe & Hff).
  destruct Ht as (applied & written & derived & _ & _ & _ & _ & _ & Hx).
  destruct (setWritable_all_log db false s1) as (_ & _ & Hu & _).
  destruct x as [e|]; intros H Herr; inversion H; subst r s'.
  - discriminate Herr.
  - rewrite Hu. auto.
Qed.

Lemma _reducer_ok db event s :
  has_error (fst (_reducer db event s)) = false ->
  is_Some (result (fst (_reducer db event s))).
Proof.
  unfold _reducer. destruct (fold_left _ _ _) as [res pushed].
  destruct (existsb (reducer_failed res) (reducerNames db)); cbn [fst].
  - intros H. discriminate H.
  - intros _. eexists. reflexivity.
Qed.

Lemma subevents_loop_keeps_result handle n i event s :
  result (fst (subevents_loop handle n i event s)) = result event.
Proof.
  revert i event s. induction n as [|n IH]; intros i event s; simpl; [reflexivity|].
  destruct (default [] (events event) !! i) as [subEvent|]; [|reflexivity].
  destruct (handle (set_v (v event) subEvent) s) as [doneEvent s1].
  destruct (has_error (set_v None doneEvent)); simpl; [reflexivity|].
  rewrite IH. reflexivity.
Qed.

Lemma steps_user_version P s s' : steps P s s' -> user_version s' = user_version s.
Proof. intros (_ & H & _). exact H. Qed.

(** A top-level event that went through the pipeline without error: the
    persisted version is its [v], and 0 when it has none. *)
Lemma _handleEvent_ok db origEvent s r s' :
  _handleEvent db origEvent 0 s = (r, s') ->
  has_error r = false ->
  user_version s' = default 0 (v r) /\ is_Some (result r) /\ savepoints s' = savepoints s.
Proof.
  intros H Herr.
  pose proof (_handleEvent_steps db origEvent 0 s) as [[Hsp _] _].
  rewrite H in Hsp. cbn [snd] in Hsp.
  split; [|split; [|exact Hsp]]; revert H Herr; clear Hsp;
    rewrite _handleEvent_unfold; change (100 <? 0)%nat with false; cbv iota;
    unfold handleEvent_body;
    (destruct (_preprocessor db origEvent s) as [[event1 orig1] s1]);
    (destruct (has_error event1) eqn:H1; [intros H Herr; inversion H; congruence|]);
    pose proof (_reducer_ok db orig1 s1) as Hr;
    (destruct (_reducer db orig1 s1) as [event2 s2]); cbn [fst] in Hr;
    (destruct (has_error event2) eqn:H2; [intros H Herr; inversion H; congruence|]);
    specialize (Hr eq_refl);
    change (Nat.eqb 0 0) with true;
    (destruct (_applyEvent db event2 true s2) as [event3 s3] eqn:Ha);
    (destruct (has_error event3) eqn:H3; [intros H Herr; inversion H; congruence|]);
    destruct (_applyEvent_ok _ _ _ _ _ Ha H3) as (Hu & Hres & Hv);
    (destruct (events event3) as [evs|];
     [|intros H Herr; inversion H; subst; congruence]);
    intros H Herr;
    pose proof (subevents_loop_keeps_v (fun sub => _handleEvent db sub 1)
                  (length evs) 0 event3 s3) as Hkv;
    pose proof (subevents_loop_keeps_result (fun sub => _handleEvent db sub 1)
                  (length evs) 0 event3 s3) as Hkr;
    pose proof (subevents_loop_preserves
                  (fun a b => user_version b = user_version a)
                  (fun sub => _handleEvent db sub 1)
                  (fun _ => eq_refl)
                  (fun a b c Hab Hbc => eq_trans Hbc Hab)
                  (fun ev s0 => steps_user_version _ _ _
                     (proj2 (_handleEvent_steps db ev 1 s0) (Nat.neq_succ_0 0)))
                  (length evs) 0%nat event3 s3) as Hku;
    rewrite H in Hkv, Hkr, Hku; cbn [fst snd] in Hkv, Hkr, Hku; congruence.
Qed.

(** X8: when [_handleEvent] returns a top-level event without error, the
    persisted version is the [v] of the returned event, and 0 when the
    returned event has no [v] (a preprocessor has deleted it on its
    argument, and the statement sent is [PRAGMA user_version=undefined]);
    the event carries its [result], and the savepoints are those it started
    with. *)
Theorem X8_handled_event_sets_version db origEvent s :
  let '(r, s') := _handleEvent db origEvent 0 s in
  has_error r = false ->
  (forall n, v r = Some n -> user_version s' = n) /\
  (v r = None -> user_version s' = 0) /\
  is_Some (result r) /\ savepoints s' = savepoints s.
Proof.
  destruct (_handleEvent db origEvent 0 s) as [r s'] eqn:H.
  intros Herr. destruct (_handleEvent_ok db origEvent s r s' H Herr) as (Hu & Hr & Hs).
  split; [intros n Hn; rewrite Hu, Hn; reflexivity|].
  split; [intros Hn; rewrite Hu, Hn; reflexivity|].
  split; assumption.
Qed.

(** The statement of X8 at an event whose [v] a preprocessor deletes on its
    argument: event 6 is handled without error on a database at version 5,
    the statement sent is [PRAGMA user_version=undefined], and the
    persisted version is 0 afterwards. *)
Lemma X8_handled_event_sets_version_witness :
  let s := mkStore ∅ 5 [] [] in
  let p := _handleEvent v_deleting_db (example_event 6 "X" "{}") 0 s in
  has_error (fst p) = false /\ v (fst p) = None /\
  user_version (snd p) = 0 /\
  log (snd p) =
    [FxPreprocessor "p" (example_event 6 "X" "{}");
     FxReducer "p" (set_v None (example_event 6 "X" "{}"));
     FxApplyChanges "p" (mkReducerResult "" "{}");
     FxRun PRAGMA_user_version_undefined] /\
  let '(r, s') := p in
  has_error r = false ->
  (forall n, v r = Some n -> user_version s' = n) /\
  (v r = None -> user_version s' = 0) /\
  is_Some (result r) /\ savepoints s' = savepoints s.
Proof.
  intros s p.
  split; [reflexivity|]. split; [reflexivity|]. split; [reflexivity|].
  split; [reflexivity|].
  exact (X8_handled_event_sets_version v_deleting_db (example_event 6 "X" "{}") s).
Defined.

(** ** Committed events *)

Lemma set_v_same e n : v e = Some n -> set_v (Some n) e = e.
Proof. destruct e; cbn; intros ->; reflexivity. Qed.

Lemma move_result_to_failedResult_has_error e :
  has_error (move_result_to_failedResult e) = has_error e.
Proof. unfold move_result_to_failedResult. destruct (result e); reflexivity. Qed.

(** The callback of the transaction, for an event that ended without
    error. *)
Lemma handle_in_transaction_committed db event e stored e' :
  handle_in_transaction db event e = (Some stored, e') ->
  has_error stored = false ->
  user_version (rw e') = default 0 (v stored) /\
  (forall n, v stored = Some n -> queue e' !! n = Some stored) /\
  is_Some (result stored) /\
  savepoints (rw e') = savepoints (rw e) /\
  polling e' = polling e /\ waiters e' = waiters e /\ listeners e' = listeners e /\
  stored = fst (_handleEvent db (set_result None (set_error None event)) 0
                  (pipeline_start e)) /\
  exists l, log (rw e') = log (rw e) ++ l /\
            In (FxRun (RELEASE_SAVEPOINT "handle")) l /\
            In (FxQueueSet stored) l.
Proof.
  unfold pipeline_start, handle_in_transaction, getVersion.
  destruct (match v event with Some n => Z.leb n (user_version (rw e)) | None => false end);
    [intros H; discriminate H|].
  cbn [snd].
  set (s := run (SAVEPOINT "handle") (rw (logged FxGetVersion e))).
  pose proof (proj1 (_handleEvent_steps db (set_result None (set_error None event)) 0 s))
    as [Hsp [l Hl]].
  destruct (_handleEvent db (set_result None (set_error None event)) 0 s)
    as [r s1] eqn:Hh.
  cbn [fst snd] in *.
  assert (Hfind : savepoints s1 =
                  ("handle", (tables (rw e), user_version (rw e))) :: savepoints (rw e)).
  { rewrite Hsp. reflexivity. }
  assert (Hrel : run (RELEASE_SAVEPOINT "handle") s1 =
                 mkStore (tables s1) (user_version s1) (savepoints (rw e))
                         (log s1 ++ [FxRun (RELEASE_SAVEPOINT "handle")])).
  { unfold run. cbn [add_log savepoints tables user_version log]. rewrite Hfind.
    reflexivity. }
  destruct (has_error r) eqn:He.
  - unfold queue_set. intros [= <- _] Hs.
    rewrite move_result_to_failedResult_has_error in Hs. congruence.
  - rewrite Hrel. unfold queue_set. intros [= <- <-] Hs.
    destruct (_handleEvent_ok _ _ _ _ _ Hh He) as (Hu & Hres & _).
    split; [destruct (v r); exact Hu|].
    split; [intros n Hn; rewrite Hn; cbn [logged set_queue set_rw queue];
            apply lookup_insert_eq|].
    split; [exact Hres|].
    split; [destruct (v r); reflexivity|].
    split; [destruct (v r); reflexivity|].
    split; [destruct (v r); reflexivity|].
    split; [destruct (v r); reflexivity|].
    split; [reflexivity|].
    exists ([FxGetVersion; FxRun (SAVEPOINT "handle")] ++ l
            ++ [FxRun (RELEASE_SAVEPOINT "handle"); FxQueueSet r]).
    split.
    + destruct (v r); cbn [logged set_queue set_rw rw add_log log]; rewrite Hl;
        unfold s; rewrite run_advances_log; cbn [logged set_rw rw add_log log];
        rewrite <- !app_assoc; reflexivity.
    + split; apply in_or_app; right; apply in_or_app; right; simpl; auto.
Qed.

(** X9: when the callback of the transaction ends with an event without
    error, the savepoint [handle] was released, the persisted version is the
    [v] of the stored event (0 when that event has no [v]), the row of that
    [v] in the queue is the stored event with its [result], and the waiters
    and the polling state are untouched; when no preprocessor changes [v] on
    its argument, the stored event has the [v] of the event that was
    handled. *)
Theorem X9_successful_event_is_committed db event e stored e' :
  handle_in_transaction db event e = (Some stored, e') ->
  has_error stored = false ->
  user_version (rw e') = default 0 (v stored) /\
  (preprocessors_keep_v db -> v stored = v event) /\
  (forall n, v stored = Some n -> queue e' !! n = Some stored) /\
  is_Some (result stored) /\
  savepoints (rw e') = savepoints (rw e) /\
  polling e' = polling e /\ waiters e' = waiters e /\
  exists l, log (rw e') = log (rw e) ++ l /\
            In (FxRun (RELEASE_SAVEPOINT "handle")) l /\
            In (FxQueueSet stored) l.
Proof.
  intros H Hs.
  destruct (handle_in_transaction_committed db event e stored e' H Hs)
    as (H1 & H2 & H3 & H4 & H5 & H6 & _ & Hst & H7).
  split; [exact H1|].
  split; [intros Hk; rewrite Hst, (_handleEvent_keeps_v db _ 0 _ Hk); reflexivity|].
  auto 10.
Qed.

Lemma X9_successful_event_is_committed_witness :
  let event := example_event 1 "X" "payload" in
  let e := snd (dispatch "X" "payload" None fresh_engine) in
  let stored := default event (fst (handle_in_transaction deriving_db event e)) in
  let e' := snd (handle_in_transaction deriving_db event e) in
  handle_in_transaction deriving_db event e = (Some stored, e') /\
  has_error stored = false /\
  result stored = Some [("m", mkReducerResult "" "payload")] /\
  user_version (rw e') = 1 /\
  user_version (rw e') = default 0 (v stored) /\
  (preprocessors_keep_v deriving_db -> v stored = v event) /\
  (forall n, v stored = Some n -> queue e' !! n = Some stored) /\
  is_Some (result stored) /\
  savepoints (rw e') = savepoints (rw e) /\
  polling e' = polling e /\ waiters e' = waiters e /\
  exists l, log (rw e') = log (rw e) ++ l /\
            In (FxRun (RELEASE_SAVEPOINT "handle")) l /\
            In (FxQueueSet stored) l.
Proof.
  intros event e stored e'.
  assert (H : handle_in_transaction deriving_db event e = (Some stored, e'))
    by (vm_compute; reflexivity).
  assert (Hs : has_error stored = false) by (vm_compute; reflexivity).
  split; [exact H|]. split; [exact Hs|].
  split; [vm_compute; reflexivity|]. split; [vm_compute; reflexivity|].
  exact (X9_successful_event_is_committed deriving_db event e stored e' H Hs).
Defined.

Lemma handle_in_transaction_committed_v db event e stored e' n :
  preprocessors_keep_v db ->
  v event = Some n ->
  handle_in_transaction db event e = (Some stored, e') ->
  has_error stored = false ->
  v stored = Some n /\ user_version (rw e') = n /\ user_version (rw e) < n.
Proof.
  intros Hk Hn H Hs.
  destruct (handle_in_transaction_committed db event e stored e' H Hs)
    as (Hu & _ & _ & _ & _ & _ & _ & Hst & _).
  assert (Hv : v stored = Some n).
  { rewrite Hst, (_handleEvent_keeps_v db _ 0 _ Hk). exact Hn. }
  split; [exact Hv|]. rewrite Hv in Hu. cbn [default from_option id] in Hu.
  split; [exact Hu|].
  revert H. unfold handle_in_transaction, getVersion. rewrite Hn.
  destruct (Z.leb n (user_version (rw e))) eqn:Hle;
    [intros H; discriminate H|].
  intros _. apply Z.leb_gt. exact Hle.
Qed.

(** X10: an event is applied at most once.  When the callback of the
    transaction has handled an event of the queue (it carries its [v])
    without error, no preprocessor having changed [v] on its argument,
    running it again for the same event finds the persisted version at the
    event's [v] and returns at once: it leaves the engine as it was and
    calls no model. *)
Theorem X10_event_handled_at_most_once db event e stored e1 n :
  preprocessors_keep_v db ->
  v event = Some n ->
  handle_in_transaction db event e = (Some stored, e1) ->
  has_error stored = false ->
  handle_in_transaction db event e1 = (None, logged FxGetVersion e1).
Proof.
  intros Hk Hn H Hs.
  destruct (handle_in_transaction_committed_v db event e stored e1 n Hk Hn H Hs)
    as (_ & Hv & _).
  unfold handle_in_transaction, getVersion. rewrite Hn, Hv, Z.leb_refl. reflexivity.
Qed.

Lemma deriving_db_keeps_v : preprocessors_keep_v deriving_db.
Proof. constructor. Qed.

Lemma X10_event_handled_at_most_once_witness :
  let event := example_event 1 "X" "payload" in
  let e := snd (dispatch "X" "payload" None fresh_engine) in
  let stored := default event (fst (handle_in_transaction deriving_db event e)) in
  let e1 := snd (handle_in_transaction deriving_db event e) in
  v event = Some 1 /\
  handle_in_transaction deriving_db event e = (Some stored, e1) /\
  has_error stored = false /\
  handle_in_transaction deriving_db event e1 = (None, logged FxGetVersion e1).
Proof.
  intros event e stored e1.
  assert (H : handle_in_transaction deriving_db event e = (Some stored, e1))
    by (vm_compute; reflexivity).
  assert (Hs : has_error stored = false) by (vm_compute; reflexivity).
  split; [reflexivity|]. split; [exact H|]. split; [exact Hs|].
  exact (X10_event_handled_at_most_once deriving_db event e stored e1 1
           deriving_db_keeps_v eq_refl H Hs).
Defined.

(** X11: once an event has been handled without error, [handledVersion]
    for its version answers at once with the stored event: it reads the
    version and the row, registers no waiter and does not touch the polling
    state. *)
Theorem X11_handled_event_resolves_at_once db event e stored e1 n :
  preprocessors_keep_v db ->
  v event = Some n -> n <> 0 ->
  handle_in_transaction db event e = (Some stored, e1) ->
  has_error stored = false ->
  handledVersion n e1 =
    (HResolved stored, logged (FxQueueGet n) (logged FxGetVersion e1)).
Proof.
  intros Hk Hv Hn H Hs.
  destruct (handle_in_transaction_committed db event e stored e1 H Hs)
    as (_ & Hq & _).
  destruct (handle_in_transaction_committed_v db event e stored e1 n Hk Hv H Hs)
    as (Hvs & Hun & _).
  unfold handledVersion, getVersion, queue_get.
  rewrite (proj2 (Z.eqb_neq n 0) Hn), Hun, Z.leb_refl.
  cbn [logged set_rw queue fst snd].
  rewrite (Hq n) by congruence. cbn [fmap option_fmap option_map].
  rewrite (set_v_same stored n) by congruence. rewrite Hs. reflexivity.
Qed.

Lemma X11_handled_event_resolves_at_once_witness :
  let event := example_event 1 "X" "payload" in
  let e := snd (dispatch "X" "payload" None fresh_engine) in
  let stored := default event (fst (handle_in_transaction deriving_db event e)) in
  let e1 := snd (handle_in_transaction deriving_db event e) in
  v event = Some 1 /\ 1 <> 0 /\
  handle_in_transaction deriving_db event e = (Some stored, e1) /\
  has_error stored = false /\
  handledVersion 1 e1 =
    (HResolved stored, logged (FxQueueGet 1) (logged FxGetVersion e1)).
Proof.
  intros event e stored e1.
  assert (H : handle_in_transaction deriving_db event e = (Some stored, e1))
    by (vm_compute; reflexivity).
  assert (Hs : has_error stored = false) by (vm_compute; reflexivity).
  assert (Hn : 1 <> 0) by discriminate.
  split; [reflexivity|]. split; [exact Hn|]. split; [exact H|]. split; [exact Hs|].
  exact (X11_handled_event_resolves_at_once deriving_db event e stored e1 1
           deriving_db_keeps_v eq_refl Hn H Hs).
Defined.

(** ** Rounds of the polling loop *)

(** The callback of the transaction leaves the waiters, the polling state
    and the listeners as they are. *)
Lemma handle_in_transaction_frame db event e :
  let e' := snd (handle_in_transaction db event e) in
  polling e' = polling e /\ waiters e' = waiters e /\ listeners e' = listeners e.
Proof.
  unfold handle_in_transaction, getVersion.
  destruct (match v event with Some n => Z.leb n (user_version (rw e)) | None => false end);
    [repeat split|].
  destruct (_handleEvent db _ 0 _) as [r s1].
  destruct (has_error r); unfold queue_set; cbn [snd];
    match goal with |- context [match v ?x with _ => _ end] => destruct (v x) end;
    repeat split.
Qed.

Lemma handle_in_transaction_not_raced db event e n :
  v event = Some n -> user_version (rw e) < n ->
  exists stored e', handle_in_transaction db event e = (Some stored, e').
Proof.
  intros Hv Hlt. unfold handle_in_transaction, getVersion.
  rewrite Hv, (proj2 (Z.leb_gt n (user_version (rw e))) Hlt).
  destruct (_handleEvent db _ 0 _) as [r s1].
  destruct (has_error r); destruct (queue_set _ _) as [stored e']; eauto.
Qed.

Lemma next_key_gt afterV q n :
  next_key afterV q = Some n -> afterV < n /\ is_Some (q !! n).
Proof.
  unfold next_key. rewrite <- elem_of_dom, <- elem_of_elements.
  generalize (elements (dom q)). intros l. revert n.
  induction l as [|k l IH]; intros n; cbn [foldr]; [discriminate|].
  destruct (bool_decide (afterV < k)) eqn:Hk.
  - apply bool_decide_eq_true in Hk.
    destruct (foldr _ None l) as [b|].
    + intros [= <-]. destruct (IH b eq_refl) as [Hb Hin].
      split; [lia|]. destruct (Z.min_spec k b) as [[_ ->]|[_ ->]];
        [left | right; exact Hin].
    + intros [= <-]. split; [exact Hk | left].
  - intros H. destruct (IH n H) as [Hn Hin]. split; [exact Hn | right; exact Hin].
Qed.

(** How a round of the loop can end: it returns because the wanted version
    is reached or nothing is queued, it suspends in [getNext], it gives up,
    it goes on after a failed read of the queue, or it has taken the next
    event of the queue into a transaction that failed to begin or whose
    callback stored a result. *)
Lemma waitForEvent_round_cases db lastV ec e :
  let '(r, e') := waitForEvent_round db lastV ec e in
  (r = Returns (Some lastV) /\ only_logged e e' /\
   ((_minVersion (polling e) <> 0 /\ _minVersion (polling e) <= lastV) \/
    (next_key (user_version (rw e)) (queue e) = None /\
     _isPolling (polling e) = false /\ _minVersion (polling e) = 0))) \/
  (MAX_RETRY < ec /\ e' = e /\ exists t, r = Throws t) \/
  (r = Continues lastV (ec + 1) /\ only_logged e e' /\
   exists k, store_fault db k <> None) \/
  (r = Suspended /\ only_logged e e' /\
   next_key (user_version (rw e)) (queue e) = None /\
   (_isPolling (polling e) = true \/ _minVersion (polling e) <> 0)) \/
  exists n row e3,
    next_key (user_version (rw e)) (queue e) = Some n /\
    queue e !! n = Some row /\
    only_logged e e3 /\
    ((exists x k,
        store_fault db k = Some x /\
        (r, e') = after_transaction lastV ec
                    (set_error (Some {[ "_SQLite" := errorToString x ]})
                               (set_v (Some n) row)) e3) \/
     (exists resultEvent e4,
        handle_in_transaction db (set_v (Some n) row) e3 = (Some resultEvent, e4) /\
        (r, e') = after_transaction n ec resultEvent (committed e4))).
Proof.
  unfold waitForEvent_round.
  destruct (negb (Z.eqb (_minVersion (polling e)) 0 || _)) eqn:Hc1.
  { left. split; [reflexivity|]. split; [apply only_logged_refl|]. left.
    apply negb_true_iff, orb_false_iff in Hc1 as [H0 Hlt].
    apply Z.eqb_neq in H0. apply Z.ltb_ge in Hlt. auto. }
  destruct (negb (Z.eqb ec 0) && Z.ltb MAX_RETRY ec) eqn:Hc2.
  { right; left. apply andb_prop in Hc2 as [_ Hlt]. apply Z.ltb_lt in Hlt.
    split; [exact Hlt|]. split; [reflexivity|]. eexists; reflexivity. }
  set (e1 := if negb (Z.eqb ec 0) then back_off db ec e else e).
  assert (H1 : only_logged e e1).
  { unfold e1. destruct (negb (Z.eqb ec 0));
      [apply back_off_only_logged | apply only_logged_refl]. }
  clearbody e1.
  unfold getVersion.
  assert (H2 : only_logged e (logged FxGetVersion e1))
    by (apply only_logged_logged; exact H1).
  destruct (only_logged_fields e e1 H1) as (_ & Hu1 & _ & Hq1 & _).
  set (e2 := logged FxGetVersion e1) in *.
  destruct (store_fault db (length (log (rw e2)))) eqn:Hf2.
  { right; right; left. split; [reflexivity|].
    split; [apply only_logged_logged; exact H2|].
    exists (length (log (rw e2))). congruence. }
  unfold queue_getNext.
  assert (H3 : only_logged e
                 (logged (FxGetNext (user_version (rw e1))
                            (negb (_isPolling (polling e)
                                   || negb (Z.eqb (_minVersion (polling e)) 0)))) e2))
    by (apply only_logged_logged; exact H2).
  set (e3 := logged (FxGetNext _ _) e2) in *.
  change (queue e2) with (queue e1). rewrite Hq1, Hu1.
  destruct (next_key (user_version (rw e)) (queue e)) as [n|] eqn:Hnext.
  2:{ destruct (negb (_isPolling (polling e) || _)) eqn:Hnb; cbv iota.
      - apply negb_true_iff, orb_false_iff in Hnb as [Hp Hm].
        apply negb_false_iff, Z.eqb_eq in Hm.
        left. split; [reflexivity|]. split; [exact H3 | right; auto].
      - apply negb_false_iff, orb_true_iff in Hnb.
        right; right; right; left. split; [reflexivity|].
        split; [exact H3|]. split; [reflexivity|].
        destruct Hnb as [Hp|Hm]; [left; exact Hp|].
        right. apply negb_true_iff, Z.eqb_neq in Hm. exact Hm. }
  destruct (next_key_gt _ _ _ Hnext) as [Hgt [row Hrow]].
  rewrite Hrow. cbn [fmap option_fmap option_map].
  unfold withTransaction.
  assert (H4 : only_logged e (logged FxWithTransaction e3))
    by (apply only_logged_logged; exact H3).
  destruct (store_fault db (length (log (rw e3)))) as [x|] eqn:Hf3.
  - destruct (after_transaction lastV ec _ (logged FxWithTransaction e3))
      as [r e'] eqn:Ha.
    right; right; right; right. exists n, row, (logged FxWithTransaction e3).
    split; [reflexivity|]. split; [exact Hrow|].
    split; [exact H4|].
    left. exists x, (length (log (rw e3))). split; [exact Hf3|]. symmetry. exact Ha.
  - destruct (only_logged_fields _ _ H4) as (_ & Hu4 & _).
    destruct (handle_in_transaction_not_raced db (set_v (Some n) row)
                (logged FxWithTransaction e3) n eq_refl) as (stored & e4 & Hh);
      [rewrite Hu4; exact Hgt|].
    rewrite Hh. cbn [default from_option id v set_v]. fold (committed e4).
    destruct (after_transaction n ec stored (committed e4)) as [r e'] eqn:Ha.
    right; right; right; right. exists n, row, (logged FxWithTransaction e3).
    split; [reflexivity|]. split; [exact Hrow|].
    split; [exact H4|].
    right. exists stored, e4. split; [exact Hh | symmetry; exact Ha].
Qed.

Lemma after_transaction_cases lastV ec resultEvent e :
  let '(r, e') := after_transaction lastV ec resultEvent e in
  (r = Returns None /\
   (_reallyStop (polling e) = true \/
    (has_error resultEvent = true /\ _stopPollingOnError (polling e) = true))) \/
  (r = Continues (default 0 (v resultEvent) - 1) (ec + 1) /\
   has_error resultEvent = true /\ e' = _triggerEventListeners resultEvent e) \/
  (r = Continues lastV 0 /\
   has_error resultEvent = false /\ e' = _triggerEventListeners resultEvent e).
Proof.
  unfold after_transaction.
  destruct (_triggerEventListeners_polling resultEvent e) as [Hp _].
  destruct (has_error resultEvent); rewrite Hp;
    destruct (_reallyStop (polling e)); cbn [orb];
    try (left; split; [reflexivity | left; reflexivity]).
  - destruct (negb (Z.eqb (ec + 1) 0) && _stopPollingOnError (polling e)) eqn:Hs.
    + left. split; [reflexivity|]. right. apply andb_prop in Hs as [_ Hs]. auto.
    + right; left. auto.
  - cbn [Z.eqb negb andb]. right; right. auto.
Qed.

(** One round either leaves the data as it is or moves the persisted
    version up. *)
Lemma waitForEvent_round_version db lastV ec e :
  preprocessors_keep_v db ->
  let e' := snd (waitForEvent_round db lastV ec e) in
  same_data e e' \/ user_version (rw e) < user_version (rw e').
Proof.
  intros Hk. pose proof (waitForEvent_round_cases db lastV ec e) as H.
  destruct (waitForEvent_round db lastV ec e) as [r e']. cbn [snd].
  destruct H as [(_ & H & _)|[(_ & -> & _)|[(_ & H & _)|[(_ & H & _)|H]]]];
    try (left; apply only_logged_same_data; exact H);
    try (left; apply same_data_refl).
  destruct H as (n & row & e3 & _ & _ & H3 & [(x & k & _ & Ha)|(res & e4 & Hh & Ha)]).
  - left. eapply same_data_trans; [apply only_logged_same_data; exact H3|].
    pose proof (after_transaction_same_data lastV ec
                  (set_error (Some {[ "_SQLite" := errorToString x ]})
                             (set_v (Some n) row)) e3) as Hs.
    rewrite <- Ha in Hs. exact Hs.
  - pose proof (after_transaction_same_data n ec res (committed e4)) as Hs.
    rewrite <- Ha in Hs. cbn [snd] in Hs.
    destruct (only_logged_fields _ _ H3) as (_ & Hu3 & _).
    destruct (has_error res) eqn:He.
    + left. eapply same_data_trans; [apply only_logged_same_data; exact H3|].
      pose proof (handle_in_transaction_same_data db (set_v (Some n) row) e3) as Ht.
      rewrite Hh in Ht. cbn [fst snd] in Ht. specialize (Ht He).
      eapply same_data_trans; [exact Ht|].
      eapply same_data_trans; [|exact Hs]. split; reflexivity.
    + right.
      destruct (handle_in_transaction_committed_v db (set_v (Some n) row) _ _ _ n
                  Hk eq_refl Hh He) as (_ & Hun & Hlt).
      destruct Hs as [_ Hs]. rewrite Hs. cbn [committed set_rw rw user_version].
      rewrite Hun, <- Hu3. exact Hlt.
Qed.

Lemma waitForEvent_from_version rounds db :
  preprocessors_keep_v db ->
  forall lastV ec e,
    let e' := snd (waitForEvent_from rounds db lastV ec e) in
    same_data e e' \/ user_version (rw e) < user_version (rw e').
Proof.
  intros Hk. induction rounds as [|rounds IH]; intros lastV ec e; cbn [waitForEvent_from].
  - left. apply same_data_refl.
  - pose proof (waitForEvent_round_version db lastV ec e Hk) as H1.
    destruct (waitForEvent_round db lastV ec e) as [r e1]. cbn [snd] in H1.
    destruct r as [x|t| |lastV' ec']; cbn [snd]; try exact H1.
    specialize (IH lastV' ec' e1).
    destruct H1 as [[Ht1 Hu1]|H1], IH as [[Ht2 Hu2]|H2].
    + left. split; congruence.
    + right. rewrite <- Hu1. exact H2.
    + right. rewrite Hu2. exact H1.
    + right. lia.
Qed.

(** X12: however many rounds the loop of [_waitForEvent] makes (no
    preprocessor changing [v] on its argument), the persisted version never
    goes down, and the tables are unchanged unless the version went up:
    data only changes together with the version. *)
Theorem X12_data_changes_only_with_version rounds db lastV errorCount e :
  preprocessors_keep_v db ->
  let e' := snd (waitForEvent_from rounds db lastV errorCount e) in
  user_version (rw e) <= user_version (rw e') /\
  (user_version (rw e') = user_version (rw e) -> tables (rw e') = tables (rw e)).
Proof.
  intros Hk.
  destruct (waitForEvent_from_version rounds db Hk lastV errorCount e) as [[Ht Hu]|Hlt].
  - split; [lia | intros _; exact Ht].
  - split; [lia | intros Heq; lia].
Qed.

Lemma X12_data_changes_only_with_version_witness :
  let e := snd (dispatch "X" "payload" None fresh_engine) in
  let e' := snd (waitForEvent_from 3 deriving_db 0 0 e) in
  preprocessors_keep_v deriving_db /\
  user_version (rw e) = 0 /\ user_version (rw e') = 1 /\
  user_version (rw e) <= user_version (rw e') /\
  (user_version (rw e') = user_version (rw e) -> tables (rw e') = tables (rw e)).
Proof.
  intros e e'.
  split; [exact deriving_db_keeps_v|].
  split; [reflexivity|]. split; [vm_compute; reflexivity|].
  exact (X12_data_changes_only_with_version 3 deriving_db 0 0 e deriving_db_keeps_v).
Defined.

(** The error count after a round, and when a round gives up. *)
Lemma waitForEvent_round_errorCount db lastV ec e :
  0 <= ec ->
  match fst (waitForEvent_round db lastV ec e) with
  | Throws _ => MAX_RETRY < ec
  | Continues _ ec' => 0 <= ec' <= ec + 1
  | _ => True
  end.
Proof.
  intros Hec. pose proof (waitForEvent_round_cases db lastV ec e) as H.
  destruct (waitForEvent_round db lastV ec e) as [r e']. cbn [fst].
  destruct H as [(-> & _)|[(Hlt & _ & t & ->)|[(-> & _)|[(-> & _)|H]]]];
    try exact I; try exact Hlt; try lia.
  destruct H as (n & row & e3 & _ & _ & _ & [(x & k & _ & Ha)|(res & e4 & _ & Ha)]).
  - pose proof (after_transaction_cases lastV ec
                  (set_error (Some {[ "_SQLite" := errorToString x ]})
                             (set_v (Some n) row)) e3) as Hc.
    rewrite <- Ha in Hc.
    destruct Hc as [(-> & _)|[(-> & _)|(-> & _)]]; try exact I; lia.
  - pose proof (after_transaction_cases n ec res (committed e4)) as Hc.
    rewrite <- Ha in Hc.
    destruct Hc as [(-> & _)|[(-> & _)|(-> & _)]]; try exact I; lia.
Qed.

Lemma waitForEvent_from_no_give_up rounds db t :
  forall lastV ec e,
    0 <= ec -> ec + Z.of_nat rounds <= MAX_RETRY + 1 ->
    fst (waitForEvent_from rounds db lastV ec e) <> Some (Throws t).
Proof.
  induction rounds as [|rounds IH]; intros lastV ec e Hec Hsum; cbn [waitForEvent_from].
  - discriminate.
  - pose proof (waitForEvent_round_errorCount db lastV ec e Hec) as H.
    destruct (waitForEvent_round db lastV ec e) as [r e1]. cbn [fst] in H.
    destruct r as [x|t'| |lastV' ec']; cbn [fst]; try discriminate.
    + unfold MAX_RETRY in *. lia.
    + apply IH; unfold MAX_RETRY in *; lia.
Qed.

(** X13: the loop of [_waitForEvent] does not give up during its first 39
    rounds: "Giving up on processing event ..." is thrown only by a round
    that is entered with more than [MAX_RETRY] = 38 consecutive failures,
    and each round adds at most one. *)
Theorem X13_no_give_up_before_39_failures rounds db e t :
  (rounds <= 39)%nat ->
  fst (_waitForEvent rounds db e) <> Some (Throws t).
Proof.
  intros H. unfold _waitForEvent. apply waitForEvent_from_no_give_up; [lia|].
  unfold MAX_RETRY. lia.
Qed.

Lemma X13_no_give_up_before_39_failures_witness :
  let e := snd (dispatch "X" "{}" None fresh_engine) in
  let t := new_Error "Giving up on processing event 1" in
  (39 <= 39)%nat /\
  fst (_waitForEvent 39 throwing_db e) <> Some (Throws t) /\
  fst (_waitForEvent 40 throwing_db e) = Some (Throws t).
Proof.
  intros e t. split; [lia|]. split.
  - apply (X13_no_give_up_before_39_failures 39 throwing_db e t). lia.
  - vm_compute. reflexivity.
Defined.

Lemma handle_in_transaction_stored db event e stored e' :
  handle_in_transaction db event e = (Some stored, e') ->
  exists l, log (rw e') = log (rw e) ++ l ++ [FxQueueSet stored].
Proof.
  unfold handle_in_transaction, getVersion.
  destruct (match v event with Some n => Z.leb n (user_version (rw e)) | None => false end);
    [intros H; discriminate H|].
  set (s := run (SAVEPOINT "handle") (rw (logged FxGetVersion e))).
  pose proof (proj1 (_handleEvent_steps db (set_result None (set_error None event)) 0 s))
    as [_ [l Hl]].
  destruct (_handleEvent db (set_result None (set_error None event)) 0 s) as [r s1].
  cbn [fst snd] in Hl.
  assert (Hs : log s = log (rw e) ++ [FxGetVersion; FxRun (SAVEPOINT "handle")]).
  { unfold s. rewrite run_advances_log. cbn [logged set_rw rw add_log log].
    rewrite <- app_assoc. reflexivity. }
  pose proof (run_advances_log (ROLLBACK_TO_SAVEPOINT "handle") s1) as Hr1.
  pose proof (run_advances_log (RELEASE_SAVEPOINT "handle") s1) as Hr2.
  remember (run (ROLLBACK_TO_SAVEPOINT "handle") s1) as s2 eqn:E2. clear E2.
  remember (run (RELEASE_SAVEPOINT "handle") s1) as s3 eqn:E3. clear E3.
  destruct (has_error r); unfold queue_set; intros [= <- <-].
  - exists ([FxGetVersion; FxRun (SAVEPOINT "handle")] ++ l
            ++ [FxRun (ROLLBACK_TO_SAVEPOINT "handle")]).
    destruct (v (move_result_to_failedResult r));
      cbn [logged set_queue set_rw rw add_log log];
      rewrite Hr1, Hl, Hs, <- !app_assoc; reflexivity.
  - exists ([FxGetVersion; FxRun (SAVEPOINT "handle")] ++ l
            ++ [FxRun (RELEASE_SAVEPOINT "handle")]).
    destruct (v r);
      cbn [logged set_queue set_rw rw add_log log];
      rewrite Hr2, Hl, Hs, <- !app_assoc; reflexivity.
Qed.

(** X14: a stop request is honoured after the event in progress, never in
    the middle of it.  After [stopPolling()], a round that finds an event in
    the queue (the store answering every call) still handles it in its
    transaction and stores the result; only then does the loop return
    [undefined], with [_reallyStop] cleared and [_isPolling] off. *)
Theorem X14_stop_after_current_event db lastV e n :
  (forall k, store_fault db k = None) ->
  (_minVersion (polling e) = 0 \/ lastV < _minVersion (polling e)) ->
  next_key (user_version (rw e)) (queue e) = Some n ->
  let '(r, e') := waitForEvent_round db lastV 0 (stopPolling e) in
  r = Returns None /\
  _reallyStop (polling e') = false /\ _isPolling (polling e') = false /\
  exists stored l, log (rw e') = log (rw e) ++ l /\ In (FxQueueSet stored) l.
Proof.
  intros Hfault Hmin Hnext.
  pose proof (waitForEvent_round_cases db lastV 0 (stopPolling e)) as H.
  destruct (waitForEvent_round db lastV 0 (stopPolling e)) as [r e'].
  change (polling (stopPolling e))
    with (mkPolling (_minVersion (polling e)) false true
                    (_stopPollingOnError (polling e)) (_waitingP (polling e))) in H.
  change (rw (stopPolling e)) with (rw e) in H.
  change (queue (stopPolling e)) with (queue e) in H.
  cbn [_minVersion] in H. rewrite Hnext in H.
  destruct H as [(_ & _ & [[H0 Hle]|(H & _)])|[(Hlt & _)|[(_ & _ & k & Hk)
                 |[(_ & _ & H & _)|H]]]];
    try discriminate H; try lia;
    [unfold MAX_RETRY in Hlt; lia | exfalso; apply Hk, Hfault |].
  destruct H as (n' & row & e3 & _ & _ & H3 & [(x & k & Hk & _)|(res & e4 & Hh & Ha)]);
    [rewrite Hfault in Hk; discriminate Hk|].
  destruct (only_logged_fields _ _ H3) as (_ & _ & _ & _ & Hp3 & _).
  destruct H3 as [l3 H3].
  pose proof (handle_in_transaction_frame db (set_v (Some n') row) e3) as Hfr.
  rewrite Hh in Hfr. cbn [snd] in Hfr. destruct Hfr as (Hp4 & _).
  destruct (handle_in_transaction_stored _ _ _ _ _ Hh) as [l4 Hl4].
  pose proof (_triggerEventListeners_log_extends res (committed e4)) as [l5 Hl5].
  revert Ha. unfold after_transaction.
  destruct (_triggerEventListeners_polling res (committed e4)) as [Hpt _].
  rewrite Hpt.
  change (polling (committed e4)) with (polling e4). rewrite Hp4, Hp3.
  change (_reallyStop (polling (stopPolling e))) with true.
  destruct (if has_error res then _ else _) as [lastV' ec']. cbn [orb].
  intros [= -> ->]. cbn [polling set_polling _reallyStop _isPolling rw].
  split; [reflexivity|]. split; [reflexivity|]. split; [reflexivity|].
  exists res. eexists. split.
  - rewrite Hl5. change (log (rw (committed e4))) with (log (rw e4)).
    rewrite Hl4, H3. cbn [set_rw rw log stopPolling set_polling].
    rewrite <- !app_assoc. reflexivity.
  - apply in_or_app; right. apply in_or_app; right. apply in_or_app; left.
    simpl; auto.
Qed.

Lemma X14_stop_after_current_event_witness :
  let e := snd (dispatch "X" "payload" None fresh_engine) in
  (forall k, store_fault deriving_db k = None) /\
  (_minVersion (polling e) = 0 \/ 0 < _minVersion (polling e)) /\
  next_key (user_version (rw e)) (queue e) = Some 1 /\
  let '(r, e') := waitForEvent_round deriving_db 0 0 (stopPolling e) in
  r = Returns None /\
  _reallyStop (polling e') = false /\ _isPolling (polling e') = false /\
  exists stored l, log (rw e') = log (rw e) ++ l /\ In (FxQueueSet stored) l.
Proof.
  intros e.
  assert (H1 : forall k, store_fault deriving_db k = None) by reflexivity.
  assert (H2 : _minVersion (polling e) = 0 \/ 0 < _minVersion (polling e))
    by (right; vm_compute; reflexivity).
  assert (H3 : next_key (user_version (rw e)) (queue e) = Some 1)
    by (vm_compute; reflexivity).
  split; [exact H1|]. split; [exact H2|]. split; [exact H3|].
  exact (X14_stop_after_current_event deriving_db 0 e 1 H1 H2 H3).
Defined.

(** ** The waiter set *)

Lemma lookup_fold_delete (keys : list Z) (m : gmap Z nat) k :
  fold_left (fun m k => delete k m) keys m !! k =
  if decide (k ∈ keys) then None else m !! k.
Proof.
  revert m. induction keys as [|k0 keys IH]; intros m; cbn [fold_left].
  - destruct (decide (k ∈ [])) as [H|_]; [inversion H | reflexivity].
  - rewrite IH. destruct (decide (k ∈ keys)) as [Hin|Hnin].
    + destruct (decide (k ∈ k0 :: keys)) as [_|Hn]; [reflexivity|].
      exfalso. apply Hn. right. exact Hin.
    + destruct (decide (k = k0)) as [->|Hne].
      * rewrite lookup_delete_eq.
        destruct (decide (k0 ∈ k0 :: keys)) as [_|Hn]; [reflexivity|].
        exfalso. apply Hn. left.
      * rewrite lookup_delete_ne by congruence.
        destruct (decide (k ∈ k0 :: keys)) as [Hin|_]; [|reflexivity].
        apply elem_of_cons in Hin as [?|?]; congruence.
Qed.

(** What the sweep of lines 408-417 leaves of the waiters. *)
Lemma sweep_waiters n e :
  let w := waiters e in
  let w' := waiters (sweep n e) in
  _maxWaitingFor w' = _maxWaitingFor w /\
  promises w' = promises w /\
  forall k,
    _waitingFor w' !! k =
      if bool_decide (_maxWaitingFor w <= n /\ k <= n) then None
      else _waitingFor w !! k.
Proof.
  unfold sweep. destruct (Z.leb (_maxWaitingFor (waiters e)) n) eqn:Hmax.
  - apply Z.leb_le in Hmax.
    match goal with
    | |- context [fold_left _ ?keys ?e0] =>
        destruct (logged_fold_waiters keys e0) as (Hw & _); cbv zeta in Hw;
        cbv zeta; rewrite Hw
    end.
    cbn [waiters set_waiters _maxWaitingFor promises _waitingFor].
    split; [reflexivity|]. split; [reflexivity|]. intros k.
    rewrite lookup_fold_delete.
    match goal with
    | |- context [decide (k ∈ ?l)] => destruct (decide (k ∈ l)) as [Hin|Hnin]
    end.
    + apply list_elem_of_filter in Hin as [Hk _].
      rewrite bool_decide_eq_true_2 by auto. reflexivity.
    + destruct (bool_decide (_maxWaitingFor (waiters e) <= n /\ k <= n)) eqn:Hb;
        [|reflexivity].
      apply bool_decide_eq_true in Hb as [_ Hk].
      destruct (_waitingFor (waiters e) !! k) as [id|] eqn:Hl; [|reflexivity].
      exfalso. apply Hnin. apply list_elem_of_filter. split; [exact Hk|].
      rewrite merge_sort_Permutation. apply elem_of_elements, elem_of_dom. eauto.
  - apply Z.leb_gt in Hmax. cbv zeta.
    split; [reflexivity|]. split; [reflexivity|]. intros k.
    rewrite bool_decide_eq_false_2 by lia. reflexivity.
Qed.

Lemma settle_waiters id p e :
  let w := waiters e in
  let w' := waiters (settle id p e) in
  _maxWaitingFor w' = _maxWaitingFor w /\ _waitingFor w' = _waitingFor w /\
  forall j,
    promises w' !! j =
      if decide (j = id)
      then match promises w !! id with
           | Some Pending => Some p
           | x => x
           end
      else promises w !! j.
Proof.
  unfold settle. cbv zeta.
  destruct (promises (waiters e) !! id) as [[| |]|] eqn:Hid;
    cbn [waiters set_waiters _maxWaitingFor _waitingFor promises];
    (split; [reflexivity|]); (split; [reflexivity|]); intros j;
    destruct (decide (j = id)) as [->|Hne]; try congruence; try reflexivity.
  - apply list_lookup_insert_eq. apply lookup_lt_Some in Hid. exact Hid.
  - apply list_lookup_insert_ne. congruence.
Qed.

(** What [_triggerEventListeners] does to the waiters and their futures. *)
Lemma _triggerEventListeners_waiters event e :
  let w := waiters e in
  let w' := waiters (_triggerEventListeners event e) in
  let o := v event ≫= (fun n => _waitingFor w !! n) in
  _maxWaitingFor w' = _maxWaitingFor w /\
  (forall k,
     _waitingFor w' !! k =
       match v event with
       | Some n =>
           if bool_decide (k = n \/ (_maxWaitingFor w <= n /\ k <= n)) then None
           else _waitingFor w !! k
       | None => _waitingFor w !! k
       end) /\
  (forall j,
     promises w' !! j =
       match o with
       | Some id =>
           if bool_decide (has_error event = false /\ j = id)
           then match promises w !! id with
                | Some Pending => Some (Resolved event)
                | x => x
                end
           else promises w !! j
       | None => promises w !! j
       end).
Proof.
  unfold _triggerEventListeners. cbv zeta.
  set (o := v event ≫= _).
  set (e1 := match v event, o with Some n, Some _ => _ | _, _ => e end).
  assert (H1 : _maxWaitingFor (waiters e1) = _maxWaitingFor (waiters e) /\
               promises (waiters e1) = promises (waiters e) /\
               forall k, _waitingFor (waiters e1) !! k =
                         match v event with
                         | Some n => if bool_decide (k = n) then None
                                     else _waitingFor (waiters e) !! k
                         | None => _waitingFor (waiters e) !! k
                         end).
  { unfold e1, o. destruct (v event) as [n|]; cbn [mbind option_bind];
      [|auto].
    destruct (_waitingFor (waiters e) !! n) as [id|] eqn:Hn;
      cbn [waiters set_waiters _maxWaitingFor promises _waitingFor];
      (split; [reflexivity|]); (split; [reflexivity|]); intros k;
      destruct (bool_decide (k = n)) eqn:Hk.
    - apply bool_decide_eq_true in Hk as ->. apply lookup_delete_eq.
    - apply bool_decide_eq_false in Hk. apply lookup_delete_ne. congruence.
    - apply bool_decide_eq_true in Hk as ->. exact Hn.
    - reflexivity. }
  clearbody e1. destruct H1 as (Hm1 & Hp1 & Hw1).
  set (e2 := match v event with Some n => sweep n e1 | None => e1 end).
  assert (H2 : _maxWaitingFor (waiters e2) = _maxWaitingFor (waiters e) /\
               promises (waiters e2) = promises (waiters e) /\
               forall k, _waitingFor (waiters e2) !! k =
                         match v event with
                         | Some n =>
                             if bool_decide
                                  (k = n \/ (_maxWaitingFor (waiters e) <= n /\ k <= n))
                             then None
                             else _waitingFor (waiters e) !! k
                         | None => _waitingFor (waiters e) !! k
                         end).
  { unfold e2. destruct (v event) as [n|]; [|auto].
    destruct (sweep_waiters n e1) as (Hm & Hp & Hw). cbv zeta in Hm, Hp, Hw.
    split; [congruence|]. split; [congruence|]. intros k.
    rewrite Hw, Hw1, Hm1.
    destruct (bool_decide (_maxWaitingFor (waiters e) <= n /\ k <= n)) eqn:Hs;
      destruct (bool_decide (k = n)) eqn:Hk.
    - rewrite bool_decide_eq_true_2; [reflexivity|].
      apply bool_decide_eq_true in Hk. auto.
    - rewrite bool_decide_eq_true_2; [reflexivity|].
      apply bool_decide_eq_true in Hs. auto.
    - rewrite bool_decide_eq_true_2; [reflexivity|].
      apply bool_decide_eq_true in Hk. auto.
    - rewrite bool_decide_eq_false_2; [reflexivity|].
      apply bool_decide_eq_false in Hs, Hk. tauto. }
  clearbody e2. destruct H2 as (Hm2 & Hp2 & Hw2).
  destruct (has_error event) eqn:He.
  - assert (H3 : waiters (if (0 <? listenerCount "error" e2)%nat
                          then try_ignore (emit "error" event e2) else e2) = waiters e2)
      by (destruct (0 <? listenerCount "error" e2)%nat; reflexivity).
    rewrite H3. split; [exact Hm2|]. split; [exact Hw2|].
    intros j. rewrite Hp2. destruct o as [id|]; [|reflexivity].
    rewrite bool_decide_eq_false_2; [reflexivity|]. intros [? _]; discriminate.
  - destruct o as [id|].
    + destruct (settle_waiters id (Resolved event) (try_ignore (emit "result" event e2)))
        as (Hm & Hw & Hp). cbv zeta in Hm, Hw, Hp.
      change (waiters (try_ignore (emit "result" event e2))) with (waiters e2) in *.
      split; [congruence|]. split; [intros k; rewrite Hw; apply Hw2|].
      intros j. rewrite Hp, Hp2.
      destruct (decide (j = id)) as [->|Hne].
      * rewrite bool_decide_eq_true_2 by auto. reflexivity.
      * rewrite bool_decide_eq_false_2; [reflexivity|]. intros [_ ?]; congruence.
    + change (waiters (try_ignore (emit "result" event e2))) with (waiters e2).
      split; [exact Hm2|]. split; [exact Hw2|]. intros j. rewrite Hp2. reflexivity.
Qed.

Lemma no_waiters_ok : waiters_ok no_waiters.
Proof.
  intros n id H. unfold no_waiters in H. cbn [_waitingFor] in H.
  rewrite lookup_empty in H. discriminate H.
Qed.

(** [handledVersion] for a version above the persisted one. *)
Lemma handledVersion_waits n e :
  n <> 0 -> user_version (rw e) < n ->
  let '(h, e1) := handledVersion n e in
  let w := waiters e in
  let w1 := waiters e1 in
  queue e1 = queue e /\ same_data e e1 /\
  match _waitingFor w !! n with
  | Some id => h = HWaiting id /\ w1 = w /\ polling e1 = polling e
  | None =>
      h = HWaiting (length (promises w)) /\
      _waitingFor w1 = <[ n := length (promises w) ]> (_waitingFor w) /\
      _maxWaitingFor w1 = Z.max (_maxWaitingFor w) n /\
      promises w1 = promises w ++ [Pending] /\
      _minVersion (polling e1) = Z.max (_minVersion (polling e)) n /\
      _waitingP (polling e1) = true
  end.
Proof.
  intros Hn Hlt. unfold handledVersion, getVersion.
  rewrite (proj2 (Z.eqb_neq n 0) Hn), (proj2 (Z.leb_gt n (user_version (rw e))) Hlt).
  cbn [logged set_rw waiters].
  destruct (_waitingFor (waiters e) !! n) as [id|] eqn:Hw; cbv zeta.
  - split; [reflexivity|]. split; [split; reflexivity|]. auto.
  - unfold startPolling. rewrite (proj2 (Z.eqb_neq n 0) Hn).
    change (polling (set_waiters ?w (logged FxGetVersion e))) with (polling e).
    cbn [negb set_polling set_waiters polling waiters queue _waitingFor _maxWaitingFor
         promises _minVersion _waitingP].
    split; [reflexivity|]. split; [split; reflexivity|].
    split; [reflexivity|]. split; [reflexivity|]. split.
    + destruct (Z.ltb_spec (_maxWaitingFor (waiters e)) n); lia.
    + split; [reflexivity|]. split; [|reflexivity].
      destruct (Z.ltb_spec (_minVersion (polling e)) n); cbn [_minVersion]; lia.
Qed.

(** X15: one waiter per version.  For a version above the persisted one,
    [handledVersion] answers with a pending future and a second call for the
    same version answers with the same future, creating none and leaving
    the waiters and the polling state as the first call left them; the
    first call for a version nobody waits for adds exactly one future, and
    asks the loop to run at least to that version. *)
Theorem X15_one_waiter_per_version n e :
  n <> 0 -> user_version (rw e) < n ->
  let '(h1, e1) := handledVersion n e in
  let '(h2, e2) := handledVersion n e1 in
  exists id,
    h1 = HWaiting id /\ h2 = HWaiting id /\
    _waitingFor (waiters e1) !! n = Some id /\
    waiters e2 = waiters e1 /\ polling e2 = polling e1 /\
    (_waitingFor (waiters e) !! n = None ->
       promises (waiters e1) = promises (waiters e) ++ [Pending] /\
       n <= _minVersion (polling e1) /\ n <= _maxWaitingFor (waiters e1) /\
       _waitingP (polling e1) = true).
Proof.
  intros Hn Hlt.
  pose proof (handledVersion_waits n e Hn Hlt) as H1.
  destruct (handledVersion n e) as [h1 e1]. cbv zeta in H1.
  destruct H1 as (_ & [_ Hu] & H1).
  assert (Hlt1 : user_version (rw e1) < n) by (rewrite Hu; exact Hlt).
  pose proof (handledVersion_waits n e1 Hn Hlt1) as H2.
  destruct (handledVersion n e1) as [h2 e2]. cbv zeta in H2.
  destruct H2 as (_ & _ & H2).
  destruct (_waitingFor (waiters e) !! n) as [id|] eqn:Hw.
  - destruct H1 as (-> & Hw1 & Hp1). rewrite Hw1, Hw in H2.
    destruct H2 as (-> & Hw2 & Hp2).
    exists id. rewrite Hw1. repeat split; auto; congruence.
  - destruct H1 as (-> & Hw1 & Hm1 & Hp1 & Hv1 & Hwp).
    rewrite Hw1, lookup_insert_eq in H2. destruct H2 as (-> & Hw2 & Hp2).
    exists (length (promises (waiters e))).
    rewrite Hw1, lookup_insert_eq.
    repeat split; auto; lia.
Qed.

Lemma X15_one_waiter_per_version_witness :
  let e := snd (queue_add "X" "{}" None fresh_engine) in
  1 <> 0 /\ user_version (rw e) < 1 /\
  let '(h1, e1) := handledVersion 1 e in
  let '(h2, e2) := handledVersion 1 e1 in
  exists id,
    h1 = HWaiting id /\ h2 = HWaiting id /\
    _waitingFor (waiters e1) !! 1 = Some id /\
    waiters e2 = waiters e1 /\ polling e2 = polling e1 /\
    (_waitingFor (waiters e) !! 1 = None ->
       promises (waiters e1) = promises (waiters e) ++ [Pending] /\
       1 <= _minVersion (polling e1) /\ 1 <= _maxWaitingFor (waiters e1) /\
       _waitingP (polling e1) = true).
Proof.
  intros e.
  assert (H1 : 1 <> 0) by discriminate.
  assert (H2 : user_version (rw e) < 1) by reflexivity.
  split; [exact H1|]. split; [exact H2|].
  exact (X15_one_waiter_per_version 1 e H1 H2).
Defined.

(** X16: when [_triggerEventListeners] is given an event without error
    whose version has a waiter with a pending future, that future is
    resolved with the event and the waiter is removed; no other future is
    touched. *)
Theorem X16_successful_event_resolves_its_waiter event e n id :
  has_error event = false -> v event = Some n ->
  _waitingFor (waiters e) !! n = Some id ->
  promises (waiters e) !! id = Some Pending ->
  let w' := waiters (_triggerEventListeners event e) in
  promises w' !! id = Some (Resolved event) /\
  _waitingFor w' !! n = None /\
  (forall j, j <> id -> promises w' !! j = promises (waiters e) !! j).
Proof.
  intros He Hv Hw Hp.
  destruct (_triggerEventListeners_waiters event e) as (_ & Hws & Hps).
  cbv zeta in Hws, Hps. rewrite Hv in Hws, Hps. cbn [mbind option_bind] in Hps.
  rewrite Hw in Hps. cbv zeta.
  split; [|split].
  - rewrite Hps, bool_decide_eq_true_2 by auto. rewrite Hp. reflexivity.
  - rewrite Hws, bool_decide_eq_true_2 by auto. reflexivity.
  - intros j Hj. rewrite Hps, bool_decide_eq_false_2; [reflexivity|].
    intros [_ ?]; congruence.
Qed.

Lemma X16_successful_event_resolves_its_waiter_witness :
  let e := snd (dispatch "X" "{}" None fresh_engine) in
  let event := set_result (Some []) (example_event 1 "X" "{}") in
  has_error event = false /\ v event = Some 1 /\
  _waitingFor (waiters e) !! 1 = Some 0%nat /\
  promises (waiters e) !! 0%nat = Some Pending /\
  let w' := waiters (_triggerEventListeners event e) in
  promises w' !! 0%nat = Some (Resolved event) /\
  _waitingFor w' !! 1 = None /\
  (forall j, j <> 0%nat -> promises w' !! j = promises (waiters e) !! j).
Proof.
  intros e event.
  assert (H3 : _waitingFor (waiters e) !! 1 = Some 0%nat) by (vm_compute; reflexivity).
  assert (H4 : promises (waiters e) !! 0%nat = Some Pending) by reflexivity.
  split; [reflexivity|]. split; [reflexivity|]. split; [exact H3|]. split; [exact H4|].
  exact (X16_successful_event_resolves_its_waiter event e 1 0%nat eq_refl eq_refl H3 H4).
Defined.

(** X17: [_triggerEventListeners] only ever removes waiters.  The waiter of
    the event's own version is removed; when that version is at or above
    [_maxWaitingFor], every waiter at or below it is removed as well, and
    otherwise the other waiters stay as they are.  A waiter that is removed
    for another version than the event's keeps its future as it was: the
    call settles no future but the one of the event's own version. *)
Theorem X17_passed_waiters_are_dropped event e n :
  v event = Some n ->
  let w := waiters e in
  let w' := waiters (_triggerEventListeners event e) in
  (forall k id, _waitingFor w' !! k = Some id -> _waitingFor w !! k = Some id /\ k <> n) /\
  (_maxWaitingFor w <= n -> forall k, k <= n -> _waitingFor w' !! k = None) /\
  (n < _maxWaitingFor w -> forall k, k <> n -> _waitingFor w' !! k = _waitingFor w !! k) /\
  (forall j, _waitingFor w !! n <> Some j -> promises w' !! j = promises w !! j).
Proof.
  intros Hv.
  destruct (_triggerEventListeners_waiters event e) as (_ & Hws & Hps).
  cbv zeta in Hws, Hps. rewrite Hv in Hws, Hps. cbn [mbind option_bind] in Hps.
  cbv zeta. split; [|split; [|split]].
  - intros k id. rewrite Hws.
    destruct (bool_decide (k = n \/ _)) eqn:Hb; [discriminate|].
    apply bool_decide_eq_false in Hb. intros H. split; [exact H | tauto].
  - intros Hmax k Hk. rewrite Hws, bool_decide_eq_true_2 by auto. reflexivity.
  - intros Hmax k Hk. rewrite Hws, bool_decide_eq_false_2; [reflexivity|]. lia.
  - intros j Hj. rewrite Hps.
    destruct (_waitingFor (waiters e) !! n) as [id|]; [|reflexivity].
    rewrite bool_decide_eq_false_2; [reflexivity|]. intros [_ ?]; congruence.
Qed.

Lemma X17_passed_waiters_are_dropped_witness :
  let e0 := snd (queue_add "B" "{}" None (snd (queue_add "A" "{}" None fresh_engine))) in
  let e := snd (handledVersion 2 (snd (handledVersion 1 e0))) in
  let event := set_result (Some []) (example_event 2 "B" "{}") in
  v event = Some 2 /\
  _waitingFor (waiters e) !! 1 = Some 0%nat /\
  let w := waiters e in
  let w' := waiters (_triggerEventListeners event e) in
  _waitingFor w' !! 1 = None /\ promises w' !! 0%nat = Some Pending /\
  promises w' !! 1%nat = Some (Resolved event) /\
  (forall k id, _waitingFor w' !! k = Some id -> _waitingFor w !! k = Some id /\ k <> 2) /\
  (_maxWaitingFor w <= 2 -> forall k, k <= 2 -> _waitingFor w' !! k = None) /\
  (2 < _maxWaitingFor w -> forall k, k <> 2 -> _waitingFor w' !! k = _waitingFor w !! k) /\
  (forall j, _waitingFor w !! 2 <> Some j -> promises w' !! j = promises w !! j).
Proof.
  intros e0 e event.
  split; [reflexivity|]. split; [vm_compute; reflexivity|].
  intros w w'.
  split; [vm_compute; reflexivity|]. split; [vm_compute; reflexivity|].
  split; [vm_compute; reflexivity|].
  exact (X17_passed_waiters_are_dropped event e 2 eq_refl).
Defined.

Lemma handledVersion_waiters_ok n e :
  waiters_ok (waiters e) -> waiters_ok (waiters (snd (handledVersion n e))).
Proof.
  intros Hok. unfold handledVersion.
  destruct (Z.eqb n 0); [exact Hok|].
  unfold getVersion. destruct (Z.leb n (user_version (rw e))).
  { unfold queue_get. cbn [logged set_rw queue].
    destruct (set_v (Some n) <$> queue e !! n) as [event|]; [|exact Hok].
    destruct (has_error event); exact Hok. }
  cbn [logged set_rw waiters].
  destruct (_waitingFor (waiters e) !! n) as [id|] eqn:Hw; [exact Hok|].
  cbn [snd]. unfold startPolling. cbn [set_polling set_waiters waiters polling].
  intros k id. cbn [_waitingFor _maxWaitingFor promises].
  assert (Hmax : _maxWaitingFor (waiters e)
                 <= (if Z.ltb (_maxWaitingFor (waiters e)) n then n
                     else _maxWaitingFor (waiters e)) /\
                 n <= (if Z.ltb (_maxWaitingFor (waiters e)) n then n
                       else _maxWaitingFor (waiters e)))
    by (destruct (Z.ltb_spec (_maxWaitingFor (waiters e)) n); lia).
  destruct (decide (k = n)) as [->|Hne].
  - rewrite lookup_insert_eq. intros [= <-].
    split; [lia|]. split.
    + rewrite lookup_app_r by lia. rewrite Nat.sub_diag. reflexivity.
    + intros n'. destruct (decide (n' = n)) as [->|Hne']; [reflexivity|].
      rewrite lookup_insert_ne by congruence. intros Hn'.
      destruct (Hok n' _ Hn') as (_ & Hp & _).
      apply lookup_lt_Some in Hp. lia.
  - rewrite lookup_insert_ne by congruence. intros Hk.
    destruct (Hok k id Hk) as (Hle & Hp & Hinj).
    split; [lia|]. split.
    + rewrite lookup_app_l by (apply lookup_lt_Some in Hp; exact Hp). exact Hp.
    + intros n'. destruct (decide (n' = n)) as [->|Hne'].
      * rewrite lookup_insert_eq. intros [= <-].
        apply lookup_lt_Some in Hp. lia.
      * rewrite lookup_insert_ne by congruence. apply Hinj.
Qed.

Lemma _triggerEventListeners_waiters_ok event e :
  waiters_ok (waiters e) -> waiters_ok (waiters (_triggerEventListeners event e)).
Proof.
  intros Hok.
  destruct (_triggerEventListeners_waiters event e) as (Hm & Hws & Hps).
  cbv zeta in Hm, Hws, Hps.
  assert (Hsub : forall k id,
            _waitingFor (waiters (_triggerEventListeners event e)) !! k = Some id ->
            _waitingFor (waiters e) !! k = Some id /\ Some k <> v event).
  { intros k id. rewrite Hws. destruct (v event) as [n|]; [|intros H; split; [exact H | discriminate]].
    destruct (bool_decide (k = n \/ _)) eqn:Hb; [discriminate|].
    apply bool_decide_eq_false in Hb. intros H. split; [exact H|].
    intros [= ->]. tauto. }
  intros k id Hk. destruct (Hsub k id Hk) as [Hk0 Hkv].
  destruct (Hok k id Hk0) as (Hle & Hp & Hinj).
  split; [rewrite Hm; exact Hle|]. split.
  - rewrite Hps. destruct (v event) as [n|]; cbn [mbind option_bind]; [|exact Hp].
    destruct (_waitingFor (waiters e) !! n) as [id0|] eqn:Hn; [|exact Hp].
    rewrite bool_decide_eq_false_2; [exact Hp|].
    intros [_ ->]. apply Hkv. f_equal. symmetry. apply (Hinj n). exact Hn.
  - intros n' Hn'. destruct (Hsub n' id Hn') as [Hn0 _]. apply Hinj. exact Hn0.
Qed.

Lemma after_transaction_waiters lastV ec resultEvent e :
  waiters (snd (after_transaction lastV ec resultEvent e)) =
    waiters (_triggerEventListeners resultEvent e) /\
  queue (snd (after_transaction lastV ec resultEvent e)) = queue e.
Proof.
  unfold after_transaction.
  destruct (_triggerEventListeners_polling resultEvent e) as [_ Hq].
  destruct (if has_error resultEvent then _ else _) as [lastV' ec'].
  destruct (_reallyStop (polling (_triggerEventListeners resultEvent e)) || _);
    cbn [snd set_polling waiters queue]; auto.
Qed.

Lemma waitForEvent_round_waiters_ok db lastV ec e :
  waiters_ok (waiters e) ->
  waiters_ok (waiters (snd (waitForEvent_round db lastV ec e))).
Proof.
  intros Hok. pose proof (waitForEvent_round_cases db lastV ec e) as H.
  destruct (waitForEvent_round db lastV ec e) as [r e']. cbn [snd].
  assert (Hlog : forall e3, only_logged e e3 -> waiters_ok (waiters e3)).
  { intros e3 H3. destruct (only_logged_fields _ _ H3) as (_ & _ & _ & _ & _ & -> & _).
    exact Hok. }
  destruct H as [(_ & H & _)|[(_ & -> & _)|[(_ & H & _)|[(_ & H & _)|H]]]]; auto.
  destruct H as (n & row & e3 & _ & _ & H3 & [(x & k & _ & Ha)|(res & e4 & Hh & Ha)]).
  - pose proof (after_transaction_waiters lastV ec
                  (set_error (Some {[ "_SQLite" := errorToString x ]})
                             (set_v (Some n) row)) e3) as [Hw _].
    rewrite <- Ha in Hw. cbn [snd] in Hw. rewrite Hw.
    apply _triggerEventListeners_waiters_ok, Hlog, H3.
  - pose proof (after_transaction_waiters n ec res (committed e4)) as [Hw _].
    rewrite <- Ha in Hw. cbn [snd] in Hw. rewrite Hw.
    apply _triggerEventListeners_waiters_ok.
    pose proof (handle_in_transaction_frame db (set_v (Some n) row) e3) as Hfr.
    rewrite Hh in Hfr. cbn [snd] in Hfr. destruct Hfr as (_ & Hw4 & _).
    change (waiters (committed e4)) with (waiters e4). rewrite Hw4.
    apply Hlog, H3.
Qed.

(** X18: the waiter set stays well formed.  Starting from no waiter,
    [handledVersion], [dispatch], [_triggerEventListeners] and any number of
    rounds of the loop keep this invariant: every registered waiter is at or
    below [_maxWaitingFor], its future is still pending, and no two versions
    share a future. *)
Theorem X18_waiters_stay_well_formed :
  waiters_ok no_waiters /\
  (forall n e, waiters_ok (waiters e) -> waiters_ok (waiters (snd (handledVersion n e)))) /\
  (forall t d ts e, waiters_ok (waiters e) -> waiters_ok (waiters (snd (dispatch t d ts e)))) /\
  (forall event e, waiters_ok (waiters e) ->
     waiters_ok (waiters (_triggerEventListeners event e))) /\
  (forall rounds db lastV errorCount e, waiters_ok (waiters e) ->
     waiters_ok (waiters (snd (waitForEvent_from rounds db lastV errorCount e)))).
Proof.
  split; [exact no_waiters_ok|].
  split; [exact handledVersion_waiters_ok|].
  split.
  { intros t d ts e Hok. unfold dispatch, queue_add.
    apply handledVersion_waiters_ok. exact Hok. }
  split; [exact _triggerEventListeners_waiters_ok|].
  intros rounds db. induction rounds as [|rounds IH]; intros lastV ec e Hok;
    cbn [waitForEvent_from]; [exact Hok|].
  pose proof (waitForEvent_round_waiters_ok db lastV ec e Hok) as H1.
  destruct (waitForEvent_round db lastV ec e) as [r e1]. cbn [snd] in H1.
  destruct r; cbn [snd]; auto.
Qed.

(** ** From [dispatch] to the resolved future *)








(** ** Construction: which model definitions are accepted *)

Lemma register_model_spec ESModel same key modelDef r :
  (forall nm, is_Some (db_store r !! nm) <-> is_Some (rwDb_store r !! nm)) ->
  match register_model ESModel same key modelDef r with
  | inr r' =>
      usable_entry ESModel (key, modelDef) = true /\
      rwDb_store r !! registered_name (key, modelDef) = None /\
      (forall nm, is_Some (rwDb_store r' !! nm) <->
                  is_Some (rwDb_store r !! nm) \/ nm = registered_name (key, modelDef)) /\
      (forall nm, is_Some (db_store r' !! nm) <-> is_Some (rwDb_store r' !! nm)) /\
      reg_store r' = reg_store r ++ [key] /\
      reg_rwStore r' = reg_rwStore r ++ [key] /\
      reg_reducerNames r' =
        reg_reducerNames r ++ keys_where (def_has_reducer ESModel) [(key, modelDef)] /\
      reg_deriverModels r' =
        reg_deriverModels r ++ keys_where (def_has_deriver ESModel) [(key, modelDef)] /\
      reg_preprocModels r' =
        reg_preprocModels r ++ keys_where (def_has_preprocessor ESModel) [(key, modelDef)]
  | inl t =>
      (usable_entry ESModel (key, modelDef) = false \/
       is_Some (rwDb_store r !! registered_name (key, modelDef))) /\
      truthy (message t) = true
  end.
Proof.
  intros Hdom. unfold register_model, usable_entry, registered_name, keys_where.
  destruct modelDef as [d|]; cbn [fst snd]; [|split; [left; reflexivity | reflexivity]].
  unfold def_has_deriver, def_has_preprocessor, def_has_reducer.
  set (Model := default ESModel (def_Model d)).
  set (RWModel := default Model (def_RWModel d)).
  set (nm0 := default key (def_name d)).
  unfold addModel. cbn [inst_name].
  destruct (rwDb_store r !! nm0) as [x|] eqn:Hrw.
  { split; [right; eauto | reflexivity]. }
  assert (Hdb : db_store r !! nm0 = None).
  { destruct (db_store r !! nm0) eqn:Hd; [|reflexivity].
    assert (Hs : is_Some (rwDb_store r !! nm0)) by (apply Hdom; eauto).
    rewrite Hrw in Hs. destruct Hs as [? Hs]. discriminate Hs. }
  assert (Hboth : (if same
                   then inr (mkInstance nm0 RWModel, db_store r)
                   else match db_store r !! nm0 with
                        | Some _ =>
                            inl (new_TypeError
                                   ("Model name " +:+ nm0 +:+ " was already added"))
                        | None => inr (mkInstance nm0 Model,
                                       <[ nm0 := mkInstance nm0 Model ]> (db_store r))
                        end)
                  = inr (if same then mkInstance nm0 RWModel else mkInstance nm0 Model,
                         if same then db_store r
                         else <[ nm0 := mkInstance nm0 Model ]> (db_store r)))
    by (destruct same; [reflexivity | rewrite Hdb; reflexivity]).
  rewrite Hboth. clear Hboth.
  destruct (def_deriver d || static_deriver RWModel) eqn:Hder;
    destruct (def_preprocessor d || static_preprocessor Model) eqn:Hpre;
    destruct (def_reducer d || static_reducer Model) eqn:Hred;
    cbn [negb orb andb]; subst RWModel Model;
    try (split; [left; reflexivity | reflexivity]);
    (split; [reflexivity|]); (split; [reflexivity|]);
    cbn [rwDb_store db_store reg_store reg_rwStore reg_reducerNames reg_deriverModels
         reg_preprocModels List.filter map fst snd];
    rewrite ?Hder, ?Hpre, ?Hred, ?app_nil_r;
    (split; [intros nm; rewrite lookup_insert_is_Some; destruct (decide (nm0 = nm));
             intuition congruence|]);
    (split; [intros nm; destruct same;
             rewrite ?lookup_insert_is_Some; rewrite ?Hdom; reflexivity|]);
    repeat split; reflexivity.
Qed.

Lemma append_assoc (s1 s2 s3 : string) : (s1 +:+ s2) +:+ s3 = s1 +:+ (s2 +:+ s3).
Proof.
  induction s1 as [|c s1 IH]; [reflexivity|]. exact (f_equal (String c) IH).
Qed.

Lemma while_configuring_message key t :
  truthy (message t) = true ->
  message (while_configuring key t) =
    "ESDB: while configuring model " +:+ key +:+ ": " +:+ message t.
Proof.
  intros H. unfold while_configuring. cbn [message]. rewrite H.
  rewrite !append_assoc. reflexivity.
Qed.

(** What the loop of the constructor amounts to, from a registry [r] on. *)
Lemma register_models_spec ESModel same models :
  forall r,
    (forall nm, is_Some (db_store r !! nm) <-> is_Some (rwDb_store r !! nm)) ->
    match register_models ESModel same models r with
    | inr r' =>
        Forall (fun entry => usable_entry ESModel entry = true) models /\
        NoDup (map registered_name models) /\
        (forall nm, nm ∈ map registered_name models -> rwDb_store r !! nm = None) /\
        (forall nm, is_Some (rwDb_store r' !! nm) <->
                    is_Some (rwDb_store r !! nm) \/ nm ∈ map registered_name models) /\
        (forall nm, is_Some (db_store r' !! nm) <-> is_Some (rwDb_store r' !! nm)) /\
        reg_store r' = reg_store r ++ map fst models /\
        reg_rwStore r' = reg_rwStore r ++ map fst models /\
        reg_reducerNames r' =
          reg_reducerNames r ++ keys_where (def_has_reducer ESModel) models /\
        reg_deriverModels r' =
          reg_deriverModels r ++ keys_where (def_has_deriver ESModel) models /\
        reg_preprocModels r' =
          reg_preprocModels r ++ keys_where (def_has_preprocessor ESModel) models
    | inl t =>
        exists i key modelDef msg,
          models !! i = Some (key, modelDef) /\
          message t = "ESDB: while configuring model " +:+ key +:+ ": " +:+ msg /\
          Forall (fun entry => usable_entry ESModel entry = true) (take i models) /\
          NoDup (map registered_name (take i models)) /\
          (forall nm, nm ∈ map registered_name (take i models) ->
                      rwDb_store r !! nm = None) /\
          (usable_entry ESModel (key, modelDef) = false \/
           is_Some (rwDb_store r !! registered_name (key, modelDef)) \/
           registered_name (key, modelDef) ∈ map registered_name (take i models))
    end.
Proof.
  induction models as [|[key modelDef] rest IH]; intros r Hdom; cbn [register_models].
  - unfold keys_where. cbn [List.filter map]. rewrite !app_nil_r.
    split; [constructor|]. split; [constructor|].
    split; [intros nm H; inversion H|].
    split; [intros nm; split; [auto | intros [H|H]; [exact H | inversion H]]|].
    split; [exact Hdom|]. repeat split; reflexivity.
  - pose proof (register_model_spec ESModel same key modelDef r Hdom) as H1.
    destruct (register_model ESModel same key modelDef r) as [t|r1].
    + destruct H1 as [Hbad Hmsg].
      exists 0%nat, key, modelDef, (message t).
      split; [reflexivity|]. split; [apply while_configuring_message; exact Hmsg|].
      cbn [take map]. split; [constructor|]. split; [constructor|].
      split; [intros nm H; inversion H|].
      destruct Hbad as [Hbad|Hbad]; auto.
    + destruct H1 as (Hus & Hfree & Hrw1 & Hdom1 & Hst & Hrws & Hred & Hder & Hpre).
      specialize (IH r1 Hdom1).
      destruct (register_models ESModel same rest r1) as [t|r2].
      * destruct IH as (i & key' & def' & msg & Hi & Hmsg & Hall & Hnd & Hfr & Hbad).
        exists (S i), key', def', msg.
        split; [exact Hi|]. split; [exact Hmsg|].
        cbn [take map].
        assert (Hnot : registered_name (key, modelDef)
                       ∉ map registered_name (take i rest)).
        { intros Hin. specialize (Hfr _ Hin).
          assert (Hs : is_Some (rwDb_store r1 !! registered_name (key, modelDef)))
            by (apply Hrw1; right; reflexivity).
          rewrite Hfr in Hs. destruct Hs as [? Hs]. discriminate Hs. }
        split; [constructor; assumption|].
        split; [constructor; assumption|].
        split.
        { intros nm Hin. apply elem_of_cons in Hin as [->|Hin]; [exact Hfree|].
          specialize (Hfr nm Hin).
          destruct (rwDb_store r !! nm) eqn:Hr; [|reflexivity].
          assert (Hs : is_Some (rwDb_store r1 !! nm)) by (apply Hrw1; left; eauto).
          rewrite Hfr in Hs. destruct Hs as [? Hs]. discriminate Hs. }
        destruct Hbad as [Hbad|[Hbad|Hbad]]; [left; exact Hbad| |].
        -- destruct (proj1 (Hrw1 _) Hbad) as [Hb|Hb]; [right; left; exact Hb|].
           right; right. rewrite Hb. left.
        -- right; right. right. exact Hbad.
      * destruct IH as (Hall & Hnd & Hfr & Hrw2 & Hdom2 & Hst2 & Hrws2 & Hred2 & Hder2
                        & Hpre2).
        cbn [map].
        assert (Hnot : registered_name (key, modelDef) ∉ map registered_name rest).
        { intros Hin. specialize (Hfr _ Hin).
          assert (Hs : is_Some (rwDb_store r1 !! registered_name (key, modelDef)))
            by (apply Hrw1; right; reflexivity).
          rewrite Hfr in Hs. destruct Hs as [? Hs]. discriminate Hs. }
        split; [constructor; assumption|].
        split; [constructor; assumption|].
        split.
        { intros nm Hin. apply elem_of_cons in Hin as [->|Hin]; [exact Hfree|].
          specialize (Hfr nm Hin).
          destruct (rwDb_store r !! nm) eqn:Hr; [|reflexivity].
          assert (Hs : is_Some (rwDb_store r1 !! nm)) by (apply Hrw1; left; eauto).
          rewrite Hfr in Hs. destruct Hs as [? Hs]. discriminate Hs. }
        split.
        { intros nm. rewrite Hrw2, Hrw1, elem_of_cons. tauto. }
        split; [exact Hdom2|].
        rewrite Hst2, Hrws2, Hred2, Hder2, Hpre2, Hst, Hrws, Hred, Hder, Hpre.
        unfold keys_where. cbn [List.filter].
        repeat split; rewrite <- ?app_assoc; try reflexivity;
          f_equal; destruct modelDef as [d|]; cbn [snd];
          try match goal with |- context [if ?b then _ else _] => destruct b end;
          reflexivity.
Qed.

Lemma empty_registry_dom :
  forall nm, is_Some (db_store (mkRegistry ∅ ∅ [] [] [] [] [] []) !! nm) <->
             is_Some (rwDb_store (mkRegistry ∅ ∅ [] [] [] [] [] []) !! nm).
Proof. intros nm. reflexivity. Qed.

(** X20: the constructor succeeds exactly when [db] is not among the
    options, [models] is given, [queue] and [queueFile] are not both given,
    every entry of [models] has a definition that leaves the model with a
    reducer, a preprocessor or a deriver, and no two entries register under
    the same name. *)
Theorem X20_constructor_accepts ESModel o :
  (exists r, ESDB_constructor ESModel o = inr r) <->
  opt_db o = false /\
  truthy (opt_queueFile o) && opt_queue o = false /\
  exists models,
    opt_models o = Some models /\
    Forall (fun entry => usable_entry ESModel entry = true) models /\
    NoDup (map registered_name models).
Proof.
  unfold ESDB_constructor.
  destruct (opt_db o); [split; [intros [r H]; discriminate H | intros [H _]; discriminate H]|].
  destruct (opt_models o) as [models|];
    [|split; [intros [r H]; discriminate H | intros (_ & _ & m & H & _); discriminate H]].
  destruct (truthy (opt_queueFile o) && opt_queue o);
    [split; [intros [r H]; discriminate H | intros (_ & H & _); discriminate H]|].
  pose proof (register_models_spec ESModel (db_is_rwDb o) models _ empty_registry_dom) as H.
  destruct (register_models ESModel (db_is_rwDb o) models _) as [t|r].
  - split; [intros [r H0]; discriminate H0|].
    intros (_ & _ & m & [= <-] & Hall & Hnd). exfalso.
    destruct H as (i & key & def & msg & Hi & _ & _ & _ & _ & Hbad).
    destruct Hbad as [Hbad|[Hbad|Hbad]].
    + rewrite Forall_forall in Hall.
      specialize (Hall (key, def) (list_elem_of_lookup_2 _ _ _ Hi)). congruence.
    + cbn [rwDb_store] in Hbad. rewrite lookup_empty in Hbad.
      destruct Hbad as [? Hbad]. discriminate Hbad.
    + rewrite <- (take_drop i models) in Hnd, Hi. rewrite map_app in Hnd.
      apply NoDup_app in Hnd as (_ & Hdis & _).
      apply (Hdis _ Hbad).
      assert (Hlen : (i < length models)%nat)
        by (apply lookup_lt_Some in Hi; rewrite take_drop in Hi; exact Hi).
      rewrite lookup_app_r in Hi by (rewrite length_take; lia).
      rewrite length_take, Nat.min_l, Nat.sub_diag in Hi by lia.
      apply list_elem_of_lookup_2 in Hi.
      apply (list_elem_of_fmap_2 registered_name) in Hi. exact Hi.
  - destruct H as (Hall & Hnd & _).
    split; [intros _|intros _; eauto].
    split; [reflexivity|]. split; [reflexivity|]. exists models. auto.
Qed.

(** X21: after a successful construction the engine's tables list the
    models in the order of the [models] option: every key is in [store] and
    [rwStore]; [reducerNames], [preprocModels] and [deriverModels] hold, in
    that order, the keys of the models that have a reducer, a preprocessor,
    a deriver; and the stores of both database objects hold exactly the
    names the models were registered under. *)
Theorem X21_registry_follows_the_options ESModel o models r :
  opt_models o = Some models ->
  ESDB_constructor ESModel o = inr r ->
  reg_store r = map fst models /\
  reg_rwStore r = map fst models /\
  reg_reducerNames r = keys_where (def_has_reducer ESModel) models /\
  reg_preprocModels r = keys_where (def_has_preprocessor ESModel) models /\
  reg_deriverModels r = keys_where (def_has_deriver ESModel) models /\
  (forall nm, is_Some (rwDb_store r !! nm) <-> nm ∈ map registered_name models) /\
  (forall nm, is_Some (db_store r !! nm) <-> nm ∈ map registered_name models).
Proof.
  intros Hm. unfold ESDB_constructor. rewrite Hm.
  destruct (opt_db o); [intros H; discriminate H|].
  destruct (truthy (opt_queueFile o) && opt_queue o); [intros H; discriminate H|].
  pose proof (register_models_spec ESModel (db_is_rwDb o) models _ empty_registry_dom) as H.
  destruct (register_models ESModel (db_is_rwDb o) models _) as [t|r'];
    intros [= <-].
  destruct H as (_ & _ & _ & Hrw & Hdb & Hst & Hrws & Hred & Hder & Hpre).
  cbn [reg_store reg_rwStore reg_reducerNames reg_deriverModels reg_preprocModels
       rwDb_store app] in *.
  assert (Hnames : forall nm, is_Some (rwDb_store r' !! nm)
                              <-> nm ∈ map registered_name models).
  { intros nm. rewrite Hrw, lookup_empty. split; [intros [[? H]|H]; [discriminate H | exact H] | auto]. }
  repeat split; try assumption; try (apply Hnames);
    try (intros H; apply Hnames, Hdb; exact H);
    try (intros H; apply Hdb, Hnames; exact H).
Qed.

Lemma X21_registry_follows_the_options_witness :
  let models := [("a", Some (reducer_def None));
                 ("b", Some (mkModelDef (Some "other") false false true None None))] in
  let o := memory_options models in
  let r := match ESDB_constructor example_ESModel o with
           | inr r => r
           | inl _ => mkRegistry ∅ ∅ [] [] [] [] [] []
           end in
  opt_models o = Some models /\
  ESDB_constructor example_ESModel o = inr r /\
  reg_deriverModels r = ["b"] /\
  (reg_store r = map fst models /\
   reg_rwStore r = map fst models /\
   reg_reducerNames r = keys_where (def_has_reducer example_ESModel) models /\
   reg_preprocModels r = keys_where (def_has_preprocessor example_ESModel) models /\
   reg_deriverModels r = keys_where (def_has_deriver example_ESModel) models /\
   (forall nm, is_Some (rwDb_store r !! nm) <-> nm ∈ map registered_name models) /\
   (forall nm, is_Some (db_store r !! nm) <-> nm ∈ map registered_name models)).
Proof.
  intros models o r.
  assert (H : ESDB_constructor example_ESModel o = inr r) by (vm_compute; reflexivity).
  split; [reflexivity|]. split; [exact H|]. split; [vm_compute; reflexivity|].
  exact (X21_registry_follows_the_options example_ESModel o models r eq_refl H).
Defined.

(** X22: an error of the constructor's loop over [models] names the model
    it comes from: its message starts with "ESDB: while configuring model
    <key>: " where [key] is the first entry that has no definition, leaves
    the model without reducer, preprocessor and deriver, or registers under
    a name an earlier entry has taken; the entries before it are all
    acceptable. *)
Theorem X22_configuration_error_names_the_model ESModel o models t :
  opt_db o = false -> opt_models o = Some models ->
  truthy (opt_queueFile o) && opt_queue o = false ->
  ESDB_constructor ESModel o = inl t ->
  exists i key modelDef msg,
    models !! i = Some (key, modelDef) /\
    message t = "ESDB: while configuring model " +:+ key +:+ ": " +:+ msg /\
    Forall (fun entry => usable_entry ESModel entry = true) (take i models) /\
    NoDup (map registered_name (take i models)) /\
    (usable_entry ESModel (key, modelDef) = false \/
     registered_name (key, modelDef) ∈ map registered_name (take i models)).
Proof.
  intros Hdb Hm Hq. unfold ESDB_constructor. rewrite Hdb, Hm, Hq.
  pose proof (register_models_spec ESModel (db_is_rwDb o) models _ empty_registry_dom) as H.
  destruct (register_models ESModel (db_is_rwDb o) models _) as [t'|r'];
    intros [= <-].
  destruct H as (i & key & def & msg & Hi & Hmsg & Hall & Hnd & _ & Hbad).
  exists i, key, def, msg. repeat split; try assumption.
  destruct Hbad as [Hbad|[Hbad|Hbad]]; auto.
  cbn [rwDb_store] in Hbad. rewrite lookup_empty in Hbad.
  destruct Hbad as [? Hbad]. discriminate Hbad.
Qed.

Lemma X22_configuration_error_names_the_model_witness :
  let models := [("a", Some (reducer_def None)); ("b", None)] in
  let o := memory_options models in
  let t := match ESDB_constructor example_ESModel o with
           | inl t => t
           | inr _ => new_Error ""
           end in
  opt_db o = false /\ opt_models o = Some models /\
  truthy (opt_queueFile o) && opt_queue o = false /\
  ESDB_constructor example_ESModel o = inl t /\
  message t = "ESDB: while configuring model b: model missing" /\
  exists i key modelDef msg,
    models !! i = Some (key, modelDef) /\
    message t = "ESDB: while configuring model " +:+ key +:+ ": " +:+ msg /\
    Forall (fun entry => usable_entry example_ESModel entry = true) (take i models) /\
    NoDup (map registered_name (take i models)) /\
    (usable_entry example_ESModel (key, modelDef) = false \/
     registered_name (key, modelDef) ∈ map registered_name (take i models)).
Proof.
  intros models o t.
  assert (H : ESDB_constructor example_ESModel o = inl t) by (vm_compute; reflexivity).
  split; [reflexivity|]. split; [reflexivity|]. split; [reflexivity|].
  split; [exact H|]. split; [vm_compute; reflexivity|].
  exact (X22_configuration_error_names_the_model example_ESModel o models t
           eq_refl eq_refl eq_refl H).
Defined.

(** ** DB.js: registering and running migrations *)

Lemma register_entries_spec nm entries :
  forall acc,
    let '(ms, x) := register_entries nm entries acc in
    exists k new,
      (k <= length entries)%nat /\
      ms = acc ++ new /\
      Forall2 (fun m entry =>
                 runKey m = make_runKey (fst entry) nm /\
                 (snd entry = MigFunction (up m) \/ snd entry = MigObject (Some (up m))))
              new (take k entries) /\
      match x with
      | None => k = length entries
      | Some t => exists key, entries !! k = Some (key, MigObject None)
      end.
Proof.
  induction entries as [|[key obj] rest IH]; intros acc; cbn [register_entries].
  - exists 0%nat, []. rewrite app_nil_r.
    split; [reflexivity|]. split; [reflexivity|]. split; [constructor | reflexivity].
  - destruct (match obj with MigFunction f => Some f | MigObject u => u end)
      as [f|] eqn:Hobj.
    + specialize (IH (acc ++ [mkMigration (make_runKey key nm) f])).
      destruct (register_entries nm rest _) as [ms x].
      destruct IH as (k & new & Hk & -> & Hall & Hx).
      exists (S k), (mkMigration (make_runKey key nm) f :: new).
      split; [cbn [length]; lia|].
      split; [rewrite <- app_assoc; reflexivity|].
      split.
      * cbn [take]. constructor; [|exact Hall]. cbn [runKey up fst snd].
        split; [reflexivity|].
        destruct obj as [g|[g|]]; inversion Hobj; subst; auto.
      * destruct x; [exact Hx | cbn [length]; congruence].
    + exists 0%nat, []. rewrite app_nil_r.
      split; [cbn [length]; lia|]. split; [reflexivity|]. split; [constructor|].
      exists key. destruct obj as [g|[g|]]; try discriminate Hobj. reflexivity.
Qed.

(** X23: [registerMigrations] only ever appends to [options.migrations]: it
    adds one migration per entry, in the order of the entries, each under
    the run key [<key> <name>] and with the entry's [up] (the function
    itself when the entry is a function).  Once the migrations have run it
    throws and adds nothing; otherwise it throws at the first entry that is
    an object without [up], the entries before it staying registered. *)
Theorem X23_registerMigrations_appends nm entries d :
  let '(d', x) := registerMigrations nm entries d in
  db_tables d' = db_tables d /\ sdb_migrations d' = sdb_migrations d /\
  migrationsRan d' = migrationsRan d /\
  exists k new,
    (k <= length entries)%nat /\
    options_migrations d' = options_migrations d ++ new /\
    Forall2 (fun m entry =>
               runKey m = make_runKey (fst entry) nm /\
               (snd entry = MigFunction (up m) \/ snd entry = MigObject (Some (up m))))
            new (take k entries) /\
    (migrationsRan d = true ->
       k = 0%nat /\ x = Some (new_Error "migrations already done")) /\
    (migrationsRan d = false ->
       match x with
       | None => k = length entries
       | Some t => exists key, entries !! k = Some (key, MigObject None)
       end).
Proof.
  unfold registerMigrations. destruct (migrationsRan d) eqn:Hran.
  - rewrite Hran. repeat split; try reflexivity.
    exists 0%nat, []. rewrite app_nil_r.
    split; [lia|]. split; [reflexivity|]. split; [constructor|].
    split; [auto | intros H; discriminate H].
  - pose proof (register_entries_spec nm entries (options_migrations d)) as H.
    destruct (register_entries nm entries (options_migrations d)) as [ms x].
    destruct H as (k & new & Hk & -> & Hall & Hx).
    cbn [db_tables sdb_migrations migrationsRan options_migrations].
    repeat split; try reflexivity; try exact Hran.
    exists k, new. split; [exact Hk|]. split; [reflexivity|]. split; [exact Hall|].
    split; [intros H; discriminate H | intros _; exact Hx].
Qed.

Lemma leb_trans s1 s2 s3 :
  String.leb s1 s2 = true -> String.leb s2 s3 = true -> String.leb s1 s3 = true.
Proof.
  intros H1 H2. apply Is_true_true. apply Is_true_true in H1, H2.
  exact (PreOrder_Transitive (R := String.le) s1 s2 s3 H1 H2).
Qed.

Lemma insert_by_runKey_Permutation m l : insert_by_runKey m l ≡ₚ m :: l.
Proof.
  induction l as [|x rest IH]; cbn [insert_by_runKey]; [reflexivity|].
  destruct (String.leb (runKey m) (runKey x)); [reflexivity|].
  rewrite IH. apply Permutation_swap.
Qed.

Lemma insert_by_runKey_sorted m l :
  StronglySorted (fun a b => String.leb (runKey a) (runKey b) = true) l ->
  StronglySorted (fun a b => String.leb (runKey a) (runKey b) = true)
                 (insert_by_runKey m l).
Proof.
  induction l as [|x rest IH]; intros Hs; cbn [insert_by_runKey].
  - repeat constructor.
  - apply StronglySorted_inv in Hs as [Hrest Hx].
    destruct (String.leb (runKey m) (runKey x)) eqn:Hmx.
    + constructor; [constructor; assumption|].
      constructor; [exact Hmx|].
      eapply Forall_impl; [exact Hx|]. intros y Hy. cbv beta in *.
      eapply leb_trans; eassumption.
    + constructor; [apply IH; exact Hrest|].
      rewrite insert_by_runKey_Permutation. constructor; [|exact Hx].
      destruct (String.leb_total (runKey m) (runKey x)) as [H|H]; congruence.
Qed.

Lemma sortBy_runKey_spec l :
  sortBy_runKey l ≡ₚ l /\
  StronglySorted (fun a b => String.leb (runKey a) (runKey b) = true) (sortBy_runKey l).
Proof.
  unfold sortBy_runKey. induction l as [|m l [IHp IHs]]; cbn [foldr].
  - split; [reflexivity | constructor].
  - split; [rewrite insert_by_runKey_Permutation, IHp; reflexivity|].
    apply insert_by_runKey_sorted. exact IHs.
Qed.

Lemma StronglySorted_filter {A} (R : A -> A -> Prop) (p : A -> bool) l :
  StronglySorted R l -> StronglySorted R (List.filter p l).
Proof.
  induction 1 as [|x l Hs IH Hx]; cbn [List.filter]; [constructor|].
  destruct (p x); [|exact IH].
  constructor; [exact IH|].
  rewrite Forall_forall in *. intros y Hy.
  apply Hx. apply list_elem_of_In in Hy. apply List.filter_In in Hy as [Hy _].
  apply list_elem_of_In. exact Hy.
Qed.

Lemma setWritable_models_frame models flag d :
  let d' := setWritable_models models flag d in
  db_tables d' = db_tables d /\ sdb_migrations d' = sdb_migrations d /\
  old_migrations d' = old_migrations d /\
  options_migrations d' = options_migrations d /\
  migrationsRan d' = migrationsRan d /\
  exists l, db_calls d' = db_calls d ++ l /\
            omap called_up l = [] /\ omap called_mark l = [].
Proof.
  unfold setWritable_models. revert d.
  induction models as [|m rest IH]; intros d; cbn [fold_left].
  - repeat split. exists []. rewrite app_nil_r. auto.
  - destruct (proto_setWritable (inst_class m)); [|apply IH].
    match goal with |- context [fold_left _ rest ?d0] => specialize (IH d0) end.
    cbv zeta in IH. destruct IH as (Ht & Hs & Ho & Hm & Hr & l & Hl & Hu & Hk).
    cbn [db_tables sdb_migrations old_migrations options_migrations migrationsRan
         db_calls] in *.
    repeat split; try assumption.
    exists (MxSetWritable (inst_name m) flag :: l).
    rewrite Hl, <- app_assoc. cbn [omap called_up called_mark list_omap]. auto.
Qed.

(** The loop over the migrations when none of them throws. *)
Lemma run_pending_ok clock didRun ms :
  forall d d' rows,
    run_pending clock didRun ms d = (d', None) ->
    sdb_migrations d = Some rows ->
    let pending := List.filter (fun m => negb (didRun (runKey m))) ms in
    db_tables d' = fold_left (fun t m => fst (up m t)) pending (db_tables d) /\
    old_migrations d' = old_migrations d /\
    options_migrations d' = options_migrations d /\
    migrationsRan d' = migrationsRan d /\
    (exists marks,
       sdb_migrations d' = Some (rows ++ marks) /\
       map row_runKey marks = map runKey pending /\
       Forall (fun r => row_up r = true) marks) /\
    exists l, db_calls d' = db_calls d ++ l /\
              omap called_up l = map runKey pending /\
              omap called_mark l = map runKey pending.
Proof.
  induction ms as [|m rest IH]; intros d d' rows; cbn [run_pending List.filter].
  - intros [= <-] Hrows. cbn [fold_left map].
    repeat split; try reflexivity.
    + exists []. rewrite app_nil_r. auto.
    + exists []. rewrite app_nil_r. auto.
  - destruct (didRun (runKey m)) eqn:Hdid; cbn [negb]; [apply IH|].
    destruct (up m (db_tables d)) as [t x] eqn:Hup.
    destruct x as [e|]; [intros H; discriminate H|].
    unfold _markMigration. cbn [sdb_migrations db_calls length].
    intros H Hrows. rewrite Hrows in H.
    match type of H with
    | run_pending _ _ _ ?d2 = _ =>
        specialize (IH d2 d' (rows ++ [mkMigrationRow (runKey m)
                                         (clock (length (db_calls d ++ [MxUp (runKey m)])))
                                         true]) H eq_refl)
    end.
    cbv zeta in IH. destruct IH as (Ht & Ho & Hm & Hr & (marks & Hs & Hk & Hu) & l & Hl & Hcu & Hcm).
    cbn [db_tables old_migrations options_migrations migrationsRan db_calls] in *.
    cbn [fold_left map]. rewrite Hup. cbn [fst].
    repeat split; try assumption.
    + eexists (_ :: marks). rewrite Hs, <- app_assoc. cbn [app map row_runKey].
      split; [reflexivity|]. split; [f_equal; exact Hk|].
      constructor; [reflexivity | exact Hu].
    + eexists (MxUp (runKey m) :: MxMark (runKey m) _ :: l).
      rewrite Hl, <- !app_assoc. cbn [app omap called_up called_mark list_omap].
      split; [reflexivity|]. split; f_equal; assumption.
Qed.

Lemma _getRanMigrations_frame d :
  let d1 := snd (_getRanMigrations d) in
  db_tables d1 = db_tables d /\ options_migrations d1 = options_migrations d /\
  migrationsRan d1 = migrationsRan d /\ db_calls d1 = db_calls d /\
  sdb_migrations d1 = Some (recorded_rows d).
Proof.
  unfold recorded_rows, _getRanMigrations. cbn [snd].
  destruct (sdb_migrations d) as [rows|] eqn:Hs.
  - rewrite Hs. repeat split; reflexivity.
  - destruct (old_migrations d); repeat split; reflexivity.
Qed.

(** What a successful [runMigrations] did. *)
Lemma runMigrations_ok clock models d d' :
  runMigrations clock models d = (d', None) ->
  db_tables d' = fold_left (fun t m => fst (up m t)) (pending_migrations d) (db_tables d) /\
  options_migrations d' = options_migrations d /\
  migrationsRan d' = true /\
  (exists marks,
     sdb_migrations d' = Some (recorded_rows d ++ marks) /\
     map row_runKey marks = map runKey (pending_migrations d) /\
     Forall (fun r => row_up r = true) marks) /\
  exists l, db_calls d' = db_calls d ++ l /\
            omap called_up l = map runKey (pending_migrations d) /\
            omap called_mark l = map runKey (pending_migrations d).
Proof.
  unfold runMigrations, db_withTransaction, pending_migrations.
  destruct (_getRanMigrations_frame d) as (Ht1 & Ho1 & Hr1 & Hc1 & Hs1). cbv zeta in *.
  destruct (_getRanMigrations d) as [didRun d1]. cbn [fst snd] in *.
  destruct (setWritable_models_frame models true d1)
    as (Ht2 & Hs2 & _ & Ho2 & Hr2 & l2 & Hl2 & Hu2 & Hk2).
  cbv zeta in *.
  destruct (run_pending clock didRun (sortBy_runKey (options_migrations d))
              (setWritable_models models true d1)) as [d3 x] eqn:Hrun.
  destruct x as [e|]; [intros H; discriminate H|].
  intros [= <-].
  destruct (run_pending_ok clock didRun _ _ _ (recorded_rows d) Hrun
              ltac:(rewrite Hs2; exact Hs1))
    as (Ht3 & _ & Ho3 & Hr3 & (marks & Hs3 & Hk3 & Hu3) & l3 & Hl3 & Hcu3 & Hcm3).
  destruct (setWritable_models_frame models false d3)
    as (Ht4 & Hs4 & _ & Ho4 & Hr4 & l4 & Hl4 & Hu4 & Hk4).
  cbv zeta in *.
  cbn [db_tables sdb_migrations options_migrations migrationsRan db_calls].
  split; [rewrite Ht4, Ht3, Ht2, Ht1; reflexivity|].
  split; [congruence|]. split; [reflexivity|].
  split; [exists marks; rewrite Hs4; auto|].
  exists (l2 ++ l3 ++ l4).
  split; [rewrite Hl4, Hl3, Hl2, Hc1, <- !app_assoc; reflexivity|].
  rewrite !omap_app, Hu2, Hu4, Hk2, Hk4, Hcu3, Hcm3, !app_nil_r. auto.
Qed.

(** X24: a successful [runMigrations] calls [up] for exactly the registered
    migrations that the migrations table does not record as run, one after
    the other in ascending order of their run keys; the tables are the
    result of these calls in that order, each call is followed by the
    record of its run key, and [migrationsRan] is set. *)
Theorem X24_pending_migrations_run_in_order clock models d d' :
  runMigrations clock models d = (d', None) ->
  sortBy_runKey (options_migrations d) ≡ₚ options_migrations d /\
  StronglySorted (fun a b => String.leb (runKey a) (runKey b) = true)
                 (pending_migrations d) /\
  db_tables d' =
    fold_left (fun t m => fst (up m t)) (pending_migrations d) (db_tables d) /\
  migrationsRan d' = true /\
  (exists marks,
     sdb_migrations d' = Some (recorded_rows d ++ marks) /\
     map row_runKey marks = map runKey (pending_migrations d) /\
     Forall (fun r => row_up r = true) marks) /\
  exists l, db_calls d' = db_calls d ++ l /\
            omap called_up l = map runKey (pending_migrations d) /\
            omap called_mark l = map runKey (pending_migrations d).
Proof.
  intros H.
  destruct (runMigrations_ok clock models d d' H) as (Ht & _ & Hr & Hm & Hl).
  destruct (sortBy_runKey_spec (options_migrations d)) as [Hp Hs].
  split; [exact Hp|].
  split; [unfold pending_migrations; apply StronglySorted_filter; exact Hs|].
  auto.
Qed.

Lemma X24_pending_migrations_run_in_order_witness :
  let clock := fun _ : nat => 1600000000 in
  let d' := fst (runMigrations clock [] example_DB) in
  runMigrations clock [] example_DB = (d', None) /\
  map runKey (options_migrations example_DB) = ["1 a"; "1 b"; "2 b"] /\
  map runKey (pending_migrations example_DB) = ["1 a"; "1 b"; "2 b"] /\
  db_tables d' = {[ "log" := {[ "1a" := "done"; "1b" := "done"; "2b" := "done" ]} ]} /\
  (sortBy_runKey (options_migrations example_DB) ≡ₚ options_migrations example_DB /\
   StronglySorted (fun a b => String.leb (runKey a) (runKey b) = true)
                  (pending_migrations example_DB) /\
   db_tables d' =
     fold_left (fun t m => fst (up m t)) (pending_migrations example_DB)
               (db_tables example_DB) /\
   migrationsRan d' = true /\
   (exists marks,
      sdb_migrations d' = Some (recorded_rows example_DB ++ marks) /\
      map row_runKey marks = map runKey (pending_migrations example_DB) /\
      Forall (fun r => row_up r = true) marks) /\
   exists l, db_calls d' = db_calls example_DB ++ l /\
             omap called_up l = map runKey (pending_migrations example_DB) /\
             omap called_mark l = map runKey (pending_migrations example_DB)).
Proof.
  intros clock d'.
  assert (Hs : snd (runMigrations clock [] example_DB) = None) by (vm_compute; reflexivity).
  assert (H : runMigrations clock [] example_DB = (d', None))
    by (unfold d'; rewrite <- Hs; apply surjective_pairing).
  split; [exact H|]. split; [vm_compute; reflexivity|].
  split; [vm_compute; reflexivity|]. split; [vm_compute; reflexivity|].
  exact (X24_pending_migrations_run_in_order clock [] example_DB d' H).
Defined.

Lemma latest_row_spec key rows :
  forall best,
    (latest_row key rows best <> None <->
     best <> None \/ exists r, r ∈ rows /\ row_runKey r = key) /\
    (Forall (fun r => row_up r = true) rows ->
     (forall b, best = Some b -> row_up b = true) ->
     forall r, latest_row key rows best = Some r -> row_up r = true).
Proof.
  induction rows as [|x rows IH]; intros best; cbn [latest_row].
  - split.
    + split; [auto|]. intros [H|(r & Hin & _)]; [exact H | inversion Hin].
    + intros _ Hb r Hr. exact (Hb r Hr).
  - destruct (IH (if String.eqb (row_runKey x) key
                  then match best with
                       | Some b => if Z.ltb (row_ts b) (row_ts x) then Some x else Some b
                       | None => Some x
                       end
                  else best)) as [IH1 IH2].
    split.
    + rewrite IH1. destruct (String.eqb_spec (row_runKey x) key) as [Hk|Hk].
      * split; [intros _; right; exists x; split; [left | exact Hk]|].
        intros _. left. destruct best as [b|]; [destruct (Z.ltb _ _)|]; discriminate.
      * split.
        -- intros [H|(r & Hin & Hr)]; [left; exact H|].
           right. exists r. split; [right; exact Hin | exact Hr].
        -- intros [H|(r & Hin & Hr)]; [left; exact H|].
           apply elem_of_cons in Hin as [->|Hin]; [congruence|].
           right. exists r. auto.
    + intros Hall Hb. apply Forall_cons in Hall as [Hx Hall].
      apply IH2; [exact Hall|].
      intros b. destruct (String.eqb (row_runKey x) key); [|apply Hb].
      destruct best as [b0|]; [destruct (Z.ltb _ _)|]; intros [= <-]; auto.
Qed.

Lemma run_pending_all_done clock didRun ms d :
  (forall m, m ∈ ms -> didRun (runKey m) = true) ->
  run_pending clock didRun ms d = (d, None).
Proof.
  induction ms as [|m rest IH]; intros Hall; cbn [run_pending]; [reflexivity|].
  rewrite (Hall m) by left. apply IH. intros m' Hin. apply Hall. right. exact Hin.
Qed.

(** X25: migrations run once.  After a successful [runMigrations] on a
    migrations table that records no migration as taken down, running the
    migrations again (whatever the clock and the models) calls no [up] and
    writes no record, the tables and the migrations table staying as they
    are; and [registerMigrations] then throws "migrations already done"
    and registers nothing. *)
Theorem X25_migrations_run_once clock models d d1 :
  runMigrations clock models d = (d1, None) ->
  Forall (fun r => row_up r = true) (recorded_rows d) ->
  (forall clock' models',
     exists d2,
       runMigrations clock' models' d1 = (d2, None) /\
       db_tables d2 = db_tables d1 /\ sdb_migrations d2 = sdb_migrations d1 /\
       exists l, db_calls d2 = db_calls d1 ++ l /\
                 omap called_up l = [] /\ omap called_mark l = []) /\
  (forall nm entries,
     registerMigrations nm entries d1 = (d1, Some (new_Error "migrations already done"))).
Proof.
  intros Hrun Hup.
  destruct (runMigrations_ok clock models d d1 Hrun)
    as (Ht & Ho & Hr & (marks & Hs & Hk & Hu) & _).
  split.
  - intros clock' models'. unfold runMigrations, db_withTransaction.
    assert (Hget : _getRanMigrations d1 =
                   (fun key =>
                      match latest_row key (recorded_rows d ++ marks) None with
                      | Some r => row_up r
                      | None => false
                      end, d1)).
    { clear -Hs. destruct d1 as [t1 s1 o1 m1 r1 c1]. cbn [sdb_migrations] in Hs.
      subst s1. reflexivity. }
    rewrite Hget.
    destruct (setWritable_models_frame models' true d1)
      as (Ht2 & Hs2 & _ & Ho2 & Hr2 & l2 & Hl2 & Hu2 & Hk2).
    cbv zeta in *.
    rewrite run_pending_all_done.
    + destruct (setWritable_models_frame models' false
                  (setWritable_models models' true d1))
        as (Ht4 & Hs4 & _ & Ho4 & Hr4 & l4 & Hl4 & Hu4 & Hk4).
      cbv zeta in *. eexists. split; [reflexivity|].
      cbn [db_tables sdb_migrations db_calls].
      split; [congruence|]. split; [congruence|].
      exists (l2 ++ l4). split; [rewrite Hl4, Hl2, <- app_assoc; reflexivity|].
      rewrite !omap_app, Hu2, Hu4, Hk2, Hk4. auto.
    + intros m Hin. rewrite Ho in Hin.
      destruct (latest_row_spec (runKey m) (recorded_rows d ++ marks) None) as [Hne Hrow].
      assert (Hall : Forall (fun r => row_up r = true) (recorded_rows d ++ marks))
        by (apply Forall_app; auto).
      destruct (latest_row (runKey m) (recorded_rows d ++ marks) None) as [r|] eqn:Hl.
      * apply (Hrow Hall); [intros b Hb; discriminate Hb | reflexivity].
      * exfalso. apply (proj2 Hne); [|reflexivity]. right.
        destruct (fst (_getRanMigrations d) (runKey m)) eqn:Hdid.
        -- unfold _getRanMigrations in Hdid. cbn [fst] in Hdid.
           fold (_getRanMigrations d) in Hdid.
           destruct (latest_row_spec (runKey m) (recorded_rows d) None) as [Hne0 _].
           assert (Hsome : latest_row (runKey m) (recorded_rows d) None <> None).
           { unfold recorded_rows, _getRanMigrations. cbn [snd].
             intros Hn. rewrite Hn in Hdid. discriminate Hdid. }
           apply Hne0 in Hsome as [Hsome|(r & Hr0 & Hkey)]; [congruence|].
           exists r. split; [apply elem_of_app; left; exact Hr0 | exact Hkey].
        -- assert (Hp : m ∈ pending_migrations d).
           { unfold pending_migrations. apply list_elem_of_In, List.filter_In.
             split; [apply list_elem_of_In; exact Hin | rewrite Hdid; reflexivity]. }
           apply list_elem_of_In, (List.in_map runKey) in Hp. rewrite <- Hk in Hp.
           apply List.in_map_iff in Hp as (r & Hkey & Hr0).
           exists r. split; [apply elem_of_app; right; apply list_elem_of_In; exact Hr0 |
                             exact Hkey].
  - intros nm entries. unfold registerMigrations. rewrite Hr. reflexivity.
Qed.

Lemma X25_migrations_run_once_witness :
  let clock := fun _ : nat => 1600000000 in
  let d1 := fst (runMigrations clock [] example_DB) in
  runMigrations clock [] example_DB = (d1, None) /\
  Forall (fun r => row_up r = true) (recorded_rows example_DB) /\
  (forall clock' models',
     exists d2,
       runMigrations clock' models' d1 = (d2, None) /\
       db_tables d2 = db_tables d1 /\ sdb_migrations d2 = sdb_migrations d1 /\
       exists l, db_calls d2 = db_calls d1 ++ l /\
                 omap called_up l = [] /\ omap called_mark l = []) /\
  (forall nm entries,
     registerMigrations nm entries d1 = (d1, Some (new_Error "migrations already done"))).
Proof.
  intros clock d1.
  assert (Hs : snd (runMigrations clock [] example_DB) = None) by (vm_compute; reflexivity).
  assert (H : runMigrations clock [] example_DB = (d1, None))
    by (unfold d1; rewrite <- Hs; apply surjective_pairing).
  assert (Hup : Forall (fun r => row_up r = true) (recorded_rows example_DB))
    by (vm_compute; constructor).
  split; [exact H|]. split; [exact Hup|].
  exact (X25_migrations_run_once clock [] example_DB d1 H Hup).
Defined.

Lemma above_blank_compare c :
  Nat.ltb 32 (nat_of_ascii c) = true ->
  Ascii.compare " " c = Lt /\ Ascii.compare c " " = Gt.
Proof.
  intros H. apply Nat.ltb_lt in H.
  assert (Hlt : Ascii.compare " " c = Lt).
  { unfold Ascii.compare. apply N.compare_lt_iff.
    unfold nat_of_ascii in H. change (N_of_ascii " ") with 32%N. lia. }
  split; [exact Hlt|]. rewrite Ascii.compare_antisym, Hlt. reflexivity.
Qed.

Lemma ascii_compare_refl c : Ascii.compare c c = Eq.
Proof. unfold Ascii.compare. apply N.compare_refl. Qed.

Lemma string_compare_refl s : String.compare s s = Eq.
Proof.
  induction s as [|c s IH]; [reflexivity|].
  cbn [String.compare]. rewrite ascii_compare_refl. exact IH.
Qed.

Lemma make_runKey_compare k1 n1 :
  forall k2 n2,
    above_blank k1 = true -> above_blank k2 = true ->
    String.compare (make_runKey k1 n1) (make_runKey k2 n2) =
      match String.compare k1 k2 with
      | Eq => String.compare n1 n2
      | c => c
      end.
Proof.
  induction k1 as [|c1 k1 IH]; intros [|c2 k2] n2 H1 H2.
  - change (make_runKey "" n1) with (String " " n1).
    change (make_runKey "" n2) with (String " " n2).
    cbn [String.compare]. rewrite ascii_compare_refl. reflexivity.
  - change (make_runKey "" n1) with (String " " n1).
    change (make_runKey (String c2 k2) n2) with (String c2 (make_runKey k2 n2)).
    cbn [String.compare]. cbn [above_blank] in H2. apply andb_prop in H2 as [H2 _].
    rewrite (proj1 (above_blank_compare c2 H2)). reflexivity.
  - change (make_runKey (String c1 k1) n1) with (String c1 (make_runKey k1 n1)).
    change (make_runKey "" n2) with (String " " n2).
    cbn [String.compare]. cbn [above_blank] in H1. apply andb_prop in H1 as [H1 _].
    rewrite (proj2 (above_blank_compare c1 H1)). reflexivity.
  - change (make_runKey (String c1 k1) n1) with (String c1 (make_runKey k1 n1)).
    change (make_runKey (String c2 k2) n2) with (String c2 (make_runKey k2 n2)).
    cbn [String.compare]. cbn [above_blank] in H1, H2.
    apply andb_prop in H1 as [_ H1]. apply andb_prop in H2 as [_ H2].
    destruct (Ascii.compare c1 c2); [apply IH; assumption | reflexivity | reflexivity].
Qed.

(** X26: the run keys order the migrations by key first and by name
    second.  For keys made of characters above the blank, comparing two run
    keys [<key> <name>] gives the outcome of comparing the keys, and that of
    comparing the names when the keys are equal; so the migrations of a
    lower key run before those of a higher key whatever the names, and two
    run keys are the same only for the same key and name. *)
Theorem X26_run_keys_order_by_key_then_name k1 n1 k2 n2 :
  above_blank k1 = true -> above_blank k2 = true ->
  String.compare (make_runKey k1 n1) (make_runKey k2 n2) =
    match String.compare k1 k2 with
    | Eq => String.compare n1 n2
    | c => c
    end /\
  (String.ltb k1 k2 = true ->
   String.leb (make_runKey k1 n1) (make_runKey k2 n2) = true /\
   String.leb (make_runKey k2 n2) (make_runKey k1 n1) = false) /\
  (make_runKey k1 n1 = make_runKey k2 n2 -> k1 = k2 /\ n1 = n2).
Proof.
  intros H1 H2. pose proof (make_runKey_compare k1 n1 k2 n2 H1 H2) as Hc.
  split; [exact Hc|]. split.
  - unfold String.ltb, String.leb. intros Hlt.
    destruct (String.compare k1 k2) eqn:Hk; try discriminate Hlt.
    rewrite Hc. split; [reflexivity|].
    rewrite String.compare_antisym, Hc. reflexivity.
  - intros Heq. rewrite Heq, string_compare_refl in Hc.
    destruct (String.compare k1 k2) eqn:Hk; try discriminate Hc.
    apply String.compare_eq_iff in Hk. symmetry in Hc.
    apply String.compare_eq_iff in Hc. auto.
Qed.

Lemma X26_run_keys_order_by_key_then_name_witness :
  above_blank "2018040800" = true /\ above_blank "userVersion" = true /\
  make_runKey "2018040800" "historyExport" = "2018040800 historyExport" /\
  String.compare (make_runKey "2018040800" "historyExport")
                 (make_runKey "userVersion" "ESDB") =
    match String.compare "2018040800" "userVersion" with
    | Eq => String.compare "historyExport" "ESDB"
    | c => c
    end /\
  (String.ltb "2018040800" "userVersion" = true ->
   String.leb (make_runKey "2018040800" "historyExport")
              (make_runKey "userVersion" "ESDB") = true /\
   String.leb (make_runKey "userVersion" "ESDB")
              (make_runKey "2018040800" "historyExport") = false) /\
  (make_runKey "2018040800" "historyExport" = make_runKey "userVersion" "ESDB" ->
   "2018040800" = "userVersion" /\ "historyExport" = "ESDB").
Proof.
  split; [reflexivity|]. split; [reflexivity|]. split; [reflexivity|].
  exact (X26_run_keys_order_by_key_then_name "2018040800" "historyExport"
           "userVersion" "ESDB" eq_refl eq_refl).
Defined.

(** ** The keys of an event's error *)

Lemma prefix_append p s : String.prefix p (p +:+ s) = true.
Proof.
  induction p as [|c p IH]; [destruct s; reflexivity|].
  change (String c p +:+ s) with (String c (p +:+ s)). cbn [String.prefix].
  destruct (ascii_dec c c) as [_|Hne]; [exact IH | congruence].
Qed.

Lemma subevents_loop_error handle n :
  forall i event s,
    has_error event = false ->
    has_error (fst (subevents_loop handle n i event s)) = true ->
    exists j, error (fst (subevents_loop handle n i event s)) =
              Some {[ "_handle" := "subevent " +:+ string_of_nat j +:+ " failed" ]}.
Proof.
  induction n as [|n IH]; intros i event s He; cbn [subevents_loop].
  - cbn [fst]. congruence.
  - destruct (default [] (events event) !! i) as [subEvent|]; [|cbn [fst]; congruence].
    destruct (handle (set_v (v event) subEvent) s) as [doneEvent s1].
    destruct (has_error (set_v None doneEvent)).
    + intros _. exists i. reflexivity.
    + apply IH. exact He.
Qed.

Lemma _reducer_failure db event s :
  has_error event = false ->
  has_error (fst (_reducer db event s)) = true ->
  exists m, error (fst (_reducer db event s)) = Some m /\ m <> ∅ /\
            forall k, is_Some (m !! k) -> String.prefix "reduce_" k = true.
Proof.
  unfold _reducer. destruct (fold_left _ _ _) as [res pushed].
  destruct (existsb (reducer_failed res) (reducerNames db)) eqn:Hex; cbn [fst].
  - intros _ _. eexists. split; [reflexivity|]. split.
    + apply List.existsb_exists in Hex as (n & Hin & Hn).
      unfold reducer_failed in Hn.
      destruct (alist_get n res) as [r|] eqn:Hr; [|discriminate Hn].
      intros Hempty.
      assert (Hl : reduce_errors (reducerNames db) res !! ("reduce_" +:+ n)
                   = Some (r_error r)).
      { apply reduce_errors_spec. exists n, r.
        repeat split; [apply list_elem_of_In; exact Hin | exact Hr |].
        apply truthy_iff. exact Hn. }
      rewrite Hempty, lookup_empty in Hl. discriminate Hl.
    + intros k [e Hk]. apply reduce_errors_spec in Hk as (n & r & _ & -> & _).
      apply prefix_append.
  - intros He Hr. unfold has_error in *. cbn [error set_events set_result] in Hr.
    destruct (error event); discriminate.
Qed.

(** X27: the error object of a failed event has the keys of one phase.
    When [_handleEvent] (below the recursion limit) fails an event that came
    in without error, the original object carrying none after the preprocess
    phase either, the error object is not empty and its keys all start with
    [_preprocess_], or all with [reduce_], or all with [_apply-], or all
    with [_handle]. *)
Theorem X27_error_keys_of_one_phase db origEvent depth s :
  (depth <= 100)%nat ->
  has_error origEvent = false ->
  has_error (snd (fst (_preprocessor db origEvent s))) = false ->
  has_error (fst (_handleEvent db origEvent depth s)) = true ->
  exists m,
    error (fst (_handleEvent db origEvent depth s)) = Some m /\ m <> ∅ /\
    exists phase,
      In phase ["_preprocess_"; "reduce_"; "_apply-"; "_handle"] /\
      forall k, is_Some (m !! k) -> String.prefix phase k = true.
Proof.
  intros Hd He Ho. rewrite _handleEvent_unfold.
  rewrite (proj2 (Nat.ltb_ge 100 depth) Hd).
  unfold handleEvent_body.
  pose proof (preprocessor_loop_calls (preprocModels db) origEvent None s) as H1.
  unfold _preprocessor in *.
  destruct (preprocessor_loop (preprocModels db) origEvent None s)
    as [[event1 orig1] s1]. cbn [fst snd] in Ho.
  destruct H1 as (_ & k & l & _ & _ & _ & Hout).
  destruct (has_error event1) eqn:H1e.
  { cbn [fst]. intros _. clear Ho.
    destruct Hout as [(_ & Hnil & Hcons)|(i & model & msg & _ & _ & Hm)].
    - destruct (preprocModels db) as [|m0 rest].
      + rewrite (Hnil eq_refl) in H1e. cbn [default from_option id] in H1e. congruence.
      + destruct (Hcons ltac:(discriminate)) as [Hno _]. congruence.
    - exists {[ "_preprocess_" +:+ name model := msg ]}.
      split; [exact Hm|]. split; [apply insert_non_empty|].
      exists "_preprocess_". split; [simpl; auto|].
      intros key [x Hkey]. apply lookup_singleton_Some in Hkey as [<- _].
      apply prefix_append. }
  pose proof (_reducer_failure db orig1 s1 Ho) as H2.
  destruct (_reducer db orig1 s1) as [event2 s2]. cbn [fst] in H2.
  destruct (has_error event2) eqn:H2e.
  { cbn [fst]. intros _. destruct (H2 eq_refl) as (m & Hm & Hne & Hkeys).
    exists m. split; [exact Hm|]. split; [exact Hne|].
    exists "reduce_". split; [simpl; auto | exact Hkeys]. }
  pose proof (_applyEvent_failure db event2 (Nat.eqb depth 0) s2 H2e) as H3.
  destruct (_applyEvent db event2 (Nat.eqb depth 0) s2) as [event3 s3].
  cbn [fst] in H3.
  destruct (has_error event3) eqn:H3e.
  { cbn [fst]. intros _.
    destruct (H3 eq_refl) as (phase & msg & Hm).
    exists {[ "_apply-" +:+ phase := msg ]}.
    split; [exact Hm|]. split; [apply insert_non_empty|].
    exists "_apply-". split; [simpl; auto|].
    intros key [x Hkey]. apply lookup_singleton_Some in Hkey as [<- _].
    apply prefix_append. }
  destruct (events event3) as [evs|]; [|cbn [fst]; congruence].
  intros Hr.
  destruct (subevents_loop_error _ _ _ _ _ H3e Hr) as [j Hj].
  eexists. split; [exact Hj|]. split; [apply insert_non_empty|].
  exists "_handle". split; [simpl; auto|].
  intros key [x Hkey]. apply lookup_singleton_Some in Hkey as [<- _]. reflexivity.
Qed.

Lemma X27_error_keys_of_one_phase_witness :
  let origEvent := example_event 1 "PARENT" "{}" in
  (0 <= 100)%nat /\
  has_error origEvent = false /\
  has_error (snd (fst (_preprocessor parent_db origEvent empty_store))) = false /\
  has_error (fst (_handleEvent parent_db origEvent 0 empty_store)) = true /\
  error (fst (_handleEvent parent_db origEvent 0 empty_store)) =
    Some {[ "_handle" := "subevent 1 failed" ]} /\
  exists m,
    error (fst (_handleEvent parent_db origEvent 0 empty_store)) = Some m /\ m <> ∅ /\
    exists phase,
      In phase ["_preprocess_"; "reduce_"; "_apply-"; "_handle"] /\
      forall k, is_Some (m !! k) -> String.prefix phase k = true.
Proof.
  intros origEvent.
  assert (H1 : (0 <= 100)%nat) by lia.
  assert (H3 : has_error (snd (fst (_preprocessor parent_db origEvent empty_store))) = false)
    by (vm_compute; reflexivity).
  assert (H4 : has_error (fst (_handleEvent parent_db origEvent 0 empty_store)) = true)
    by (vm_compute; reflexivity).
  split; [exact H1|]. split; [reflexivity|]. split; [exact H3|]. split; [exact H4|].
  split; [vm_compute; reflexivity|].
  exact (X27_error_keys_of_one_phase parent_db origEvent 0 empty_store H1 eq_refl H3 H4).
Defined.

(** ** Waiting for the queue *)




(** ** How a round of the loop ends *)


